(** * Ushio ballast emulator: software UART and protocol matcher

    A shallow embedding of [ushioLoop] from [attiny-ballast.c] and the
    properties of its receive framer, transmit framer and protocol matcher.

    Conventions.
    - [uint8_t] and [uint16_t] variables are integers in [Z]; where the C
      code can overflow the width the wrap-around is written out ([u8]).
    - The two 16 byte buffers are lists read with [load] and written with
      [store].  An index outside the list reads 0 and writes nothing (in C
      both would be undefined); the in-range facts are proved where needed.
    - One iteration of the [while(1)] body is [ushioLoop_body]; its pieces
      ([sample], [timers], [rx_step], [tx_step], [tx_schedule], [matcher])
      follow the order of the statements of the source. *)

From Stdlib Require Import ZArith List Bool Lia.
Import ListNotations.
Local Open Scope Z_scope.

(** ** Constants of the source *)

Definition RXPIN : Z := 0x01.
Definition TXPIN : Z := 0x02.
Definition UART_RX_TIMEOUT : Z := 480.
Definition USHIO_MAX_COMMAND : Z := 5.
Definition USHIO_QUERIES : Z := 5.
Definition UARTRXMASK : Z := 0x0F.
Definition UARTTXMASK : Z := 0x0F.

(** Truncation of an [int] result to [uint8_t]. *)
Definition u8 (x : Z) : Z := x mod 256.

(** ** Arrays *)

Definition load (a : list Z) (i : Z) : Z :=
  if i <? 0 then 0 else nth (Z.to_nat i) a 0.

Fixpoint store_nat (a : list Z) (n : nat) (v : Z) : list Z :=
  match a, n with
  | [], _ => []
  | _ :: t, O => v :: t
  | h :: t, S n' => h :: store_nat t n' v
  end.

Definition store (a : list Z) (i : Z) (v : Z) : list Z :=
  if i <? 0 then a else store_nat a (Z.to_nat i) v.

(** ** Types of the source *)

Inductive uartState_t : Set := IDLE | START | DATA | PARITY | STOP.

Definition uartState_eqb (a b : uartState_t) : bool :=
  match a, b with
  | IDLE, IDLE | START, START | DATA, DATA | PARITY, PARITY | STOP, STOP => true
  | _, _ => false
  end.

Record ushioQuery_t : Set := mkQuery {
  qLength : Z;
  qData : list Z;
  rLength : Z;
  rData : list Z
}.

(** The string initialisers fill [unsigned char x[5]] and pad with zeros. *)
Definition ushioQuery : list ushioQuery_t :=
  [ mkQuery 2 [0x51; 0x0D; 0; 0; 0] 3 [0x51; 0x32; 0x0D; 0; 0];
    mkQuery 3 [0x4C; 0x46; 0x0D; 0; 0] 2 [0x41; 0x0D; 0; 0; 0];
    mkQuery 2 [0x50; 0x0D; 0; 0; 0] 3 [0x50; 0x46; 0x0D; 0; 0];
    mkQuery 2 [0x51; 0x0D; 0; 0; 0] 3 [0x51; 0x32; 0x0D; 0; 0];
    mkQuery 3 [0x4C; 0x45; 0x0D; 0; 0] 2 [0x41; 0x0D; 0; 0; 0] ].

(** The locals of [ushioLoop] and the globals it works on. *)
Record loop_state : Type := mkState {
  rxLastBit : Z;
  rxBit : Z;
  uartRxState : uartState_t;
  rxParity : Z;
  rxTick : Z;
  readBit : Z;
  txBit : Z;
  uartTxState : uartState_t;
  txParity : Z;
  txTick : Z;
  writeBit : Z;
  rxTimeout : Z;
  uartRxBuffer : list Z;
  uartRxWrite : Z;
  uartRxRead : Z;
  uartTxBuffer : list Z;
  uartTxWrite : Z;
  uartTxRead : Z
}.

(** Assignments to one variable. *)
Definition set_rxLastBit (v : Z) (s : loop_state) : loop_state :=
  let (a, b, c, d, e, f, g, h, i, j, k, l, m, n, o, p, q, r) := s in
  mkState v b c d e f g h i j k l m n o p q r.
Definition set_rxBit (v : Z) (s : loop_state) : loop_state :=
  let (a, b, c, d, e, f, g, h, i, j, k, l, m, n, o, p, q, r) := s in
  mkState a v c d e f g h i j k l m n o p q r.
Definition set_uartRxState (v : uartState_t) (s : loop_state) : loop_state :=
  let (a, b, c, d, e, f, g, h, i, j, k, l, m, n, o, p, q, r) := s in
  mkState a b v d e f g h i j k l m n o p q r.
Definition set_rxParity (v : Z) (s : loop_state) : loop_state :=
  let (a, b, c, d, e, f, g, h, i, j, k, l, m, n, o, p, q, r) := s in
  mkState a b c v e f g h i j k l m n o p q r.
Definition set_rxTick (v : Z) (s : loop_state) : loop_state :=
  let (a, b, c, d, e, f, g, h, i, j, k, l, m, n, o, p, q, r) := s in
  mkState a b c d v f g h i j k l m n o p q r.
Definition set_readBit (v : Z) (s : loop_state) : loop_state :=
  let (a, b, c, d, e, f, g, h, i, j, k, l, m, n, o, p, q, r) := s in
  mkState a b c d e v g h i j k l m n o p q r.
Definition set_txBit (v : Z) (s : loop_state) : loop_state :=
  let (a, b, c, d, e, f, g, h, i, j, k, l, m, n, o, p, q, r) := s in
  mkState a b c d e f v h i j k l m n o p q r.
Definition set_uartTxState (v : uartState_t) (s : loop_state) : loop_state :=
  let (a, b, c, d, e, f, g, h, i, j, k, l, m, n, o, p, q, r) := s in
  mkState a b c d e f g v i j k l m n o p q r.
Definition set_txParity (v : Z) (s : loop_state) : loop_state :=
  let (a, b, c, d, e, f, g, h, i, j, k, l, m, n, o, p, q, r) := s in
  mkState a b c d e f g h v j k l m n o p q r.
Definition set_txTick (v : Z) (s : loop_state) : loop_state :=
  let (a, b, c, d, e, f, g, h, i, j, k, l, m, n, o, p, q, r) := s in
  mkState a b c d e f g h i v k l m n o p q r.
Definition set_writeBit (v : Z) (s : loop_state) : loop_state :=
  let (a, b, c, d, e, f, g, h, i, j, k, l, m, n, o, p, q, r) := s in
  mkState a b c d e f g h i j v l m n o p q r.
Definition set_rxTimeout (v : Z) (s : loop_state) : loop_state :=
  let (a, b, c, d, e, f, g, h, i, j, k, l, m, n, o, p, q, r) := s in
  mkState a b c d e f g h i j k v m n o p q r.
Definition set_uartRxBuffer (v : list Z) (s : loop_state) : loop_state :=
  let (a, b, c, d, e, f, g, h, i, j, k, l, m, n, o, p, q, r) := s in
  mkState a b c d e f g h i j k l v n o p q r.
Definition set_uartRxWrite (v : Z) (s : loop_state) : loop_state :=
  let (a, b, c, d, e, f, g, h, i, j, k, l, m, n, o, p, q, r) := s in
  mkState a b c d e f g h i j k l m v o p q r.
Definition set_uartRxRead (v : Z) (s : loop_state) : loop_state :=
  let (a, b, c, d, e, f, g, h, i, j, k, l, m, n, o, p, q, r) := s in
  mkState a b c d e f g h i j k l m n v p q r.
Definition set_uartTxBuffer (v : list Z) (s : loop_state) : loop_state :=
  let (a, b, c, d, e, f, g, h, i, j, k, l, m, n, o, p, q, r) := s in
  mkState a b c d e f g h i j k l m n o v q r.
Definition set_uartTxWrite (v : Z) (s : loop_state) : loop_state :=
  let (a, b, c, d, e, f, g, h, i, j, k, l, m, n, o, p, q, r) := s in
  mkState a b c d e f g h i j k l m n o p v r.
Definition set_uartTxRead (v : Z) (s : loop_state) : loop_state :=
  let (a, b, c, d, e, f, g, h, i, j, k, l, m, n, o, p, q, r) := s in
  mkState a b c d e f g h i j k l m n o p q v.

(** The initialisers of the globals (lines 85-93) and of the locals of
    [ushioLoop] (lines 116-129). *)
Definition ushioLoop_init : loop_state :=
  {| rxLastBit := 0; rxBit := 0; uartRxState := IDLE; rxParity := 0;
     rxTick := 0; readBit := 1;
     txBit := 1; uartTxState := IDLE; txParity := 0; txTick := 0;
     writeBit := 1;
     rxTimeout := 0;
     uartRxBuffer := repeat 0 16; uartRxWrite := 0; uartRxRead := 0;
     uartTxBuffer := [0x51; 0x32; 0x0D; 0x00; 0x00] ++ repeat 0 11;
     uartTxWrite := 0; uartTxRead := 0 |}.

(** ** The loop body, statement by statement *)

(** [rxLastBit = rxBit; rxBit = PINB & RXPIN;] *)
Definition sample (pinb : Z) (st : loop_state) : loop_state :=
  let st := set_rxLastBit (rxBit st) st in
  set_rxBit (Z.land pinb RXPIN) st.

(** [if(txBit) PORTB |= TXPIN; else PORTB &= ~TXPIN;] : the level that the
    iteration puts on the TXD pin. *)
Definition txd_level (st : loop_state) : Z :=
  if txBit st =? 0 then 0 else 1.

(** [if(rxTick) rxTick--; if(txTick) txTick--; if(rxTimeout) rxTimeout--;] *)
Definition timers (st : loop_state) : loop_state :=
  let st := if rxTick st =? 0 then st else set_rxTick (rxTick st - 1) st in
  let st := if txTick st =? 0 then st else set_txTick (txTick st - 1) st in
  if rxTimeout st =? 0 then st else set_rxTimeout (rxTimeout st - 1) st.

(** The receive framer, [if(!rxTick) { ... }] (lines 162-211). *)
Definition rx_step (st : loop_state) : loop_state :=
  if rxTick st =? 0 then
    if uartState_eqb (uartRxState st) IDLE
       && (rxBit st =? 0) && (rxLastBit st =? 1) then
      let st := set_uartRxState START st in
      set_rxTick 1 st
    else if uartState_eqb (uartRxState st) START then
      if rxBit st =? 0 then
        let st := set_rxParity 0 st in
        let st := set_readBit 1 st in
        let st := set_uartRxState DATA st in
        let st := set_uartRxBuffer
                    (store (uartRxBuffer st) (uartRxWrite st) 0) st in
        let st := set_rxTick 4 st in
        if rxTimeout st =? 0 then set_rxTimeout UART_RX_TIMEOUT st else st
      else
        let st := set_uartRxState IDLE st in
        set_rxTick 0 st
    else if uartState_eqb (uartRxState st) DATA then
      let st :=
        if rxBit st =? 0 then st
        else
          let st := set_uartRxBuffer
                      (store (uartRxBuffer st) (uartRxWrite st)
                         (Z.lor (load (uartRxBuffer st) (uartRxWrite st))
                                (readBit st))) st in
          set_rxParity (Z.lxor (rxParity st) 1) st in
      let st := set_readBit (u8 (Z.shiftl (readBit st) 1)) st in
      let st :=
        if readBit st =? 0 then
          let st := set_uartRxState PARITY st in
          set_uartRxWrite (Z.land (uartRxWrite st + 1) UARTRXMASK) st
        else st in
      set_rxTick 4 st
    else if uartState_eqb (uartRxState st) PARITY then
      let st := set_uartRxState STOP st in
      set_rxTick 4 st
    else
      let st := set_uartRxState IDLE st in
      set_rxTick 0 st
  else st.

(** The transmit framer, [if(!txTick) { ... }] (lines 214-245). *)
Definition tx_step (st : loop_state) : loop_state :=
  if txTick st =? 0 then
    let st := set_txTick 4 st in
    if uartState_eqb (uartTxState st) START then
      let st := set_txBit 0 st in
      let st := set_writeBit 1 st in
      let st := set_txParity 0 st in
      set_uartTxState DATA st
    else if uartState_eqb (uartTxState st) DATA then
      let st :=
        if Z.land (load (uartTxBuffer st) (uartTxRead st)) (writeBit st) =? 0
        then set_txBit 0 st
        else
          let st := set_txBit 1 st in
          set_txParity (Z.lxor (txParity st) 1) st in
      let st := set_writeBit (u8 (Z.shiftl (writeBit st) 1)) st in
      if writeBit st =? 0 then
        let st := set_uartTxState PARITY st in
        set_uartTxRead (Z.land (uartTxRead st + 1) UARTTXMASK) st
      else st
    else if uartState_eqb (uartTxState st) PARITY then
      let st := set_txBit (txParity st) st in
      set_uartTxState STOP st
    else
      let st := set_txBit 1 st in
      set_uartTxState IDLE st
  else st.

(** [if(uartTxState == IDLE) { ... }] (lines 248-257). *)
Definition tx_schedule (st : loop_state) : loop_state :=
  if uartState_eqb (uartTxState st) IDLE then
    if uartTxRead st <? uartTxWrite st then set_uartTxState START st
    else
      let st := set_uartTxRead 0 st in
      set_uartTxWrite 0 st
  else st.

(** The protocol matcher (lines 260-307).  The functions below also return
    the list of the indices of [uartTxBuffer] that were assigned, in the
    order of the assignments, so that the bounds of the stores can be
    stated. *)

(** [for(j=0; j<qLength; j++) if(uartRxBuffer[j] != qData[j]) { failed |= 0x01; break; }]
    : [true] when the loop leaves through the [break]. *)
Fixpoint query_differs (buf qd : list Z) (j : Z) (n : nat) : bool :=
  match n with
  | O => false
  | S n' =>
    if load buf j =? load qd j then query_differs buf qd (j + 1) n' else true
  end.

(** [for(j=0; j<rLength; j++) uartTxBuffer[uartTxWrite++] = rData[j];]
    with [n] iterations left; the cell written is the one at the cursor
    before its increment. *)
Fixpoint reply_loop (rd : list Z) (j : Z) (n : nat) (st : loop_state)
    (log : list Z) : loop_state * list Z :=
  match n with
  | O => (st, log)
  | S n' =>
    let w := uartTxWrite st in
    let st := set_uartTxWrite (u8 (w + 1)) st in
    let st := set_uartTxBuffer (store (uartTxBuffer st) w (load rd j)) st in
    reply_loop rd (j + 1) n' st (log ++ [w])
  end.

(** [if(UARTTXMASK > uartTxWrite + rLength) { for ... }] *)
Definition append_reply (q : ushioQuery_t) (st : loop_state)
    : loop_state * list Z :=
  if UARTTXMASK >? uartTxWrite st + rLength q then
    reply_loop (rData q) 0 (Z.to_nat (rLength q)) st []
  else (st, []).

(** The loop over the table, [for(i=0; i<USHIO_QUERIES; i++)], from entry
    [i] on; the result is the final value of [failed], the state and the
    indices stored to. *)
Fixpoint query_loop (tbl : list ushioQuery_t) (failed : Z) (st : loop_state)
    : Z * (loop_state * list Z) :=
  match tbl with
  | [] => (failed, (st, []))
  | q :: rest =>
    let failed := Z.land failed 0xFE in
    if uartRxWrite st >=? qLength q then
      let failed :=
        if query_differs (uartRxBuffer st) (qData q) 0 (Z.to_nat (qLength q))
        then Z.lor failed 0x01 else failed in
      if Z.land failed 0x01 =? 0 then (0, append_reply q st)
      else query_loop rest failed st
    else query_loop rest (Z.lor failed 0x02) st
  end.

(** [uartRxWrite = 0; uartRxRead = 0; rxTimeout = 0;] *)
Definition clear_rx (st : loop_state) : loop_state :=
  let st := set_uartRxWrite 0 st in
  let st := set_uartRxRead 0 st in
  set_rxTimeout 0 st.

(** [if(uartRxState == IDLE && uartRxWrite > 0) { ... }] over the table
    [tbl]. *)
Definition matcher_log (tbl : list ushioQuery_t) (st : loop_state)
    : loop_state * list Z :=
  if uartState_eqb (uartRxState st) IDLE && (uartRxWrite st >? 0) then
    let '(failed, (st, log)) := query_loop tbl 0 st in
    if (failed =? 0) || (Z.land failed 0x02 =? 0) || (rxTimeout st =? 0)
    then (clear_rx st, log)
    else (st, log)
  else (st, []).

(** The matcher as a function on states, and on the table of the source. *)
Definition matcher_on (tbl : list ushioQuery_t) (st : loop_state)
    : loop_state := fst (matcher_log tbl st).

Definition matcher (st : loop_state) : loop_state := matcher_on ushioQuery st.

(** One iteration of [while(1)] once the timer flag was seen; [pinb] is the
    value read from [PINB]. *)
Definition ushioLoop_body (pinb : Z) (st : loop_state) : loop_state :=
  matcher (tx_schedule (tx_step (rx_step (timers (sample pinb st))))).

(** The two framers alone. *)
Definition rx_framer (pinb : Z) (st : loop_state) : loop_state :=
  rx_step (timers (sample pinb st)).

Definition tx_framer (st : loop_state) : loop_state :=
  tx_schedule (tx_step (timers st)).

(** The levels put on TXD by [n] iterations of the transmit framer, and the
    state after them. *)
Fixpoint tx_line (n : nat) (st : loop_state) : list Z :=
  match n with
  | O => []
  | S n' => txd_level st :: tx_line n' (tx_framer st)
  end.

Fixpoint tx_run (n : nat) (st : loop_state) : loop_state :=
  match n with
  | O => st
  | S n' => tx_run n' (tx_framer st)
  end.

(** The receive framer fed one line level per iteration. *)
Fixpoint rx_feed (levels : list Z) (st : loop_state) : loop_state :=
  match levels with
  | [] => st
  | l :: rest => rx_feed rest (rx_framer l st)
  end.

(** [n] iterations of the whole loop with the levels [pins] on RXD:
    the final state and the levels written to TXD. *)
Fixpoint ushioLoop (pins : list Z) (st : loop_state) : loop_state * list Z :=
  match pins with
  | [] => (st, [])
  | p :: rest =>
    let (st', out) := ushioLoop rest (ushioLoop_body p st) in
    (st', txd_level st :: out)
  end.

(** ** Queues read as lists *)

(** The [n] cells of [buf] from index [from] on. *)
Fixpoint slice (buf : list Z) (from : Z) (n : nat) : list Z :=
  match n with
  | O => []
  | S n' => load buf from :: slice buf (from + 1) n'
  end.

(** The bytes between the read and the write cursor of the transmit queue:
    those the transmit framer still has to serialize. *)
Definition tx_queued (st : loop_state) : list Z :=
  slice (uartTxBuffer st) (uartTxRead st)
        (Z.to_nat (uartTxWrite st - uartTxRead st)).

(** The bytes below the write cursor of the receive queue: those the
    matcher compares. *)
Definition rx_queued (st : loop_state) : list Z :=
  slice (uartRxBuffer st) 0 (Z.to_nat (uartRxWrite st)).

(** The [rLength] bytes of a reply and the [qLength] bytes of a query. *)
Definition reply_bytes (q : ushioQuery_t) : list Z :=
  slice (rData q) 0 (Z.to_nat (rLength q)).

Definition query_bytes (q : ushioQuery_t) : list Z :=
  slice (qData q) 0 (Z.to_nat (qLength q)).

(** ** Definitions used to state and prove the properties *)

(** The buffer after the [n] stores of the reply loop, when the cursor does
    not wrap. *)
Fixpoint stores (buf : list Z) (w : Z) (rd : list Z) (j : Z) (n : nat)
    : list Z :=
  match n with
  | O => buf
  | S n' => stores (store buf w (load rd j)) (w + 1) rd (j + 1) n'
  end.

(** The [n] integers from [from] on. *)
Fixpoint zrange (from : Z) (n : nat) : list Z :=
  match n with
  | O => []
  | S n' => from :: zrange (from + 1) n'
  end.

(** Entry [q] is long enough to be compared and all its [qLength] bytes
    equal the first bytes of the receive buffer: the condition under which
    the loop body reaches the [break] of line 292. *)
Definition query_matches (st : loop_state) (q : ushioQuery_t) : bool :=
  (uartRxWrite st >=? qLength q)
  && negb (query_differs (uartRxBuffer st) (qData q) 0 (Z.to_nat (qLength q))).

(** The test of line 280, which the source comments "Check that buffer
    has space". *)
Definition tx_has_space (st : loop_state) (q : ushioQuery_t) : bool :=
  UARTTXMASK >? uartTxWrite st + rLength q.

(** Entry [q] needs more bytes than are buffered (line 295). *)
Definition query_longer (st : loop_state) (q : ushioQuery_t) : bool :=
  negb (uartRxWrite st >=? qLength q).

(** The variables the receive framer reads; the others are set to fixed
    values. *)
Definition rx_part (st : loop_state) : loop_state :=
  {| rxLastBit := rxLastBit st; rxBit := rxBit st;
     uartRxState := uartRxState st; rxParity := rxParity st;
     rxTick := rxTick st; readBit := readBit st;
     txBit := 0; uartTxState := IDLE; txParity := 0; txTick := 0;
     writeBit := 0;
     rxTimeout := 0;
     uartRxBuffer := uartRxBuffer st; uartRxWrite := uartRxWrite st;
     uartRxRead := 0;
     uartTxBuffer := []; uartTxWrite := 0; uartTxRead := 0 |}.

(** A state given by the variables of the receive framer. *)
Definition rx_state (last bit : Z) (s : uartState_t) (par tick rb : Z)
    (buf : list Z) (w : Z) : loop_state :=
  {| rxLastBit := last; rxBit := bit; uartRxState := s; rxParity := par;
     rxTick := tick; readBit := rb;
     txBit := 0; uartTxState := IDLE; txParity := 0; txTick := 0;
     writeBit := 0;
     rxTimeout := 0;
     uartRxBuffer := buf; uartRxWrite := w; uartRxRead := 0;
     uartTxBuffer := []; uartTxWrite := 0; uartTxRead := 0 |}.

(** One bit period of the line: four iterations at the same level. *)
Definition rep4 (x : Z) : list Z := [x; x; x; x].

(** ** The wire format (section 6 of the specification)

    One start bit (low), eight data bits least significant first, one even
    parity bit and one stop bit (high), each lasting four iterations. *)

Definition data_bits (v : Z) : list bool :=
  map (fun k => Z.testbit v (Z.of_nat k)) (seq 0 8).

Definition parity_of (v : Z) : bool := fold_left xorb (data_bits v) false.

Definition levels (bits : list bool) : list Z :=
  flat_map (fun b => rep4 (Z.b2z b)) bits.

(** A frame with the levels [x] and [s] in the parity and stop periods. *)
Definition frame_with (v x s : Z) : list Z :=
  rep4 0 ++ levels (data_bits v) ++ rep4 x ++ rep4 s.

Definition wire_frame (v : Z) : list Z :=
  frame_with v (Z.b2z (parity_of v)) 1.

(** The values of a [uint8_t]. *)
Definition all_bytes : list Z := map Z.of_nat (seq 0 256).

(** [uartRxBuffer[uartRxWrite] |= readBit] over the eight data bits. *)
Definition or_bit (b : bool) (m a : Z) : Z := if b then Z.lor a m else a.

Definition or_bits (v : Z) : Z :=
  let t k := Z.testbit v k in
  or_bit (t 7) 128 (or_bit (t 6) 64 (or_bit (t 5) 32 (or_bit (t 4) 16
    (or_bit (t 3) 8 (or_bit (t 2) 4 (or_bit (t 1) 2 (or_bit (t 0) 1 0))))))).

(** The receive framer is IDLE with [rxTick = 0], and the receive queue is
    [buf] with write cursor [w]. *)
Definition rx_idle_q (st : loop_state) (buf : list Z) (w : Z) : Prop :=
  uartRxState st = IDLE /\ rxTick st = 0 /\
  uartRxBuffer st = buf /\ uartRxWrite st = w.

(** The same with the last sample of the line high, so that a falling edge
    is seen as soon as the line goes low. *)
Definition rx_idle_at (st : loop_state) (buf : list Z) (w : Z) : Prop :=
  rx_idle_q st buf w /\ rxBit st = 1.

(** The receive queue after the frames of the bytes [bs]. *)
Fixpoint rx_push (bs : list Z) (buf : list Z) (w : Z) : list Z * Z :=
  match bs with
  | [] => (buf, w)
  | v :: rest => rx_push rest (store buf w v) (Z.land (w + 1) UARTRXMASK)
  end.

(** The variables the transmit framer reads; the others are set to fixed
    values. *)
Definition tx_part (st : loop_state) : loop_state :=
  {| rxLastBit := 0; rxBit := 0; uartRxState := IDLE; rxParity := 0;
     rxTick := 0; readBit := 0;
     txBit := txBit st; uartTxState := uartTxState st;
     txParity := txParity st; txTick := txTick st; writeBit := writeBit st;
     rxTimeout := 0;
     uartRxBuffer := []; uartRxWrite := 0; uartRxRead := 0;
     uartTxBuffer := uartTxBuffer st; uartTxWrite := uartTxWrite st;
     uartTxRead := uartTxRead st |}.

(** A state given by the variables of the transmit framer. *)
Definition tx_state (bit : Z) (s : uartState_t) (par tick wb : Z)
    (buf : list Z) (wr rd : Z) : loop_state :=
  {| rxLastBit := 0; rxBit := 0; uartRxState := IDLE; rxParity := 0;
     rxTick := 0; readBit := 0;
     txBit := bit; uartTxState := s; txParity := par; txTick := tick;
     writeBit := wb;
     rxTimeout := 0;
     uartRxBuffer := []; uartRxWrite := 0; uartRxRead := 0;
     uartTxBuffer := buf; uartTxWrite := wr; uartTxRead := rd |}.

(** The state right after the START branch: the start bit is about to be
    driven and byte [rd] of the buffer is next. *)
Definition tx_begin (buf : list Z) (wr rd : Z) : loop_state :=
  tx_state 0 DATA 0 4 1 buf wr rd.

(** The state of the transmit framer once the queue is drained. *)
Definition tx_drained (st : loop_state) : Prop :=
  uartTxState st = IDLE /\ txBit st <> 0 /\
  uartTxRead st = 0 /\ uartTxWrite st = 0.

(** The transmit framer is IDLE with the line high and the queue starts at
    index 0 with at most fifteen bytes; [txTick] is anywhere in its range
    (0 at power-on, 1 to 4 at the end of every iteration).  This is the
    state the matcher leaves when it has queued a reply for an idle
    transmitter. *)
Definition tx_ready (st : loop_state) : Prop :=
  uartTxState st = IDLE /\ 0 <= txTick st <= 4 /\ txBit st <> 0 /\
  uartTxRead st = 0 /\ 0 <= uartTxWrite st <= 15.

(** The iterations an IDLE transmit framer with bytes queued keeps the line
    high before the start bit, by the value of [txTick]: with 0 or 1 the
    first iteration fires in IDLE and the START branch runs four iterations
    later; otherwise the START branch runs when the count reaches zero. *)
Definition tx_lead (t : Z) : nat := if t <=? 1 then 5%nat else Z.to_nat t.

(** The receive framer is IDLE on a firing iteration and its queue is
    empty. *)
Definition rx_ready (st : loop_state) : Prop :=
  uartRxState st = IDLE /\ rxTick st = 0 /\ uartRxWrite st = 0 /\
  length (uartRxBuffer st) = 16%nat.

(** A transmit queue holding the bytes [b] in an otherwise freshly
    initialised system. *)
Definition tx_loaded (b : list Z) : loop_state :=
  set_uartTxWrite (Z.of_nat (length b))
    (set_uartTxBuffer (b ++ repeat 0 (16 - length b)) ushioLoop_init).

(** Counting the bits that are set. *)
Definition ones (l : list bool) : nat := length (filter (fun b => b) l).

(** The variables of a state other than the sample of the line. *)
Definition forget_rxBit (st : loop_state) : loop_state := set_rxBit 0 st.

(** Nothing is being received or transmitted and both queues are empty. *)
Definition quiet (st : loop_state) : Prop :=
  uartRxState st = IDLE /\ rxTick st = 0 /\ uartRxWrite st = 0 /\
  tx_drained st.

(** ** States and a table used as examples *)

(** The command 50 0D has been received. *)
Definition st_cmd_50 : loop_state :=
  set_uartRxWrite 2
    (set_uartRxBuffer ([0x50; 0x0D] ++ repeat 0 14) ushioLoop_init).

(** Only 4C has been received and the timeout is still running. *)
Definition st_partial : loop_state :=
  set_rxTimeout 100
    (set_uartRxWrite 1
       (set_uartRxBuffer ([0x4C] ++ repeat 0 15) ushioLoop_init)).

(** The command 4C 46 0D has been received. *)
Definition st_cmd_4C : loop_state :=
  set_uartRxWrite 3
    (set_uartRxBuffer ([0x4C; 0x46; 0x0D] ++ repeat 0 13) ushioLoop_init).

(** The whole loop, run from power-on on one iteration with the line high
    and the first 86 levels of the frames of the query 50 0D: the stop bit
    of the second byte has been sampled and the matcher has just queued the
    reply. *)
Definition st_replying : loop_state :=
  fst (ushioLoop (1 :: firstn 86 (flat_map wire_frame [0x50; 0x0D]))
                 ushioLoop_init).

(** The state on which the matcher block of an iteration runs: the one the
    statements before line 260 leave. *)
Definition before_matcher (pinb : Z) (st : loop_state) : loop_state :=
  tx_schedule (tx_step (rx_step (timers (sample pinb st)))).

(** The levels on RXD of one iteration high followed by the frames of the
    query 50 0D five times without a pause. *)
Definition five_queries : list Z :=
  1 :: flat_map wire_frame
         [0x50; 0x0D; 0x50; 0x0D; 0x50; 0x0D; 0x50; 0x0D; 0x50; 0x0D].

(** A table whose first entry is a strict prefix of the second. *)
Definition overlapping : list ushioQuery_t :=
  [ mkQuery 1 [0x4C; 0; 0; 0; 0] 1 [0xAA; 0; 0; 0; 0];
    mkQuery 3 [0x4C; 0x46; 0x0D; 0; 0] 2 [0x41; 0x0D; 0; 0; 0] ].

(** ** The other functions of the source and the loop invariant *)

(** The most bytes the receive queue holds in each state of the receive
    framer; [idle] is the bound while IDLE (2 between iterations, 3 right
    after the STOP branch and before the matcher ran). *)
Definition rx_limit (idle : Z) (s : uartState_t) : Z :=
  match s with
  | IDLE => idle
  | START | DATA => 2
  | PARITY | STOP => 3
  end.

(** The least number of unread bytes in the transmit queue in each state of
    the transmit framer: the byte being sent is still unread in START and
    DATA. *)
Definition tx_unread_min (s : uartState_t) : Z :=
  match s with
  | START | DATA => 1
  | _ => 0
  end.

(** The values [txBit] takes in each state of the transmit framer. *)
Definition tx_level_ok (s : uartState_t) (b : Z) : Prop :=
  match s with
  | IDLE | START => b = 1
  | _ => b = 0 \/ b = 1
  end.

(** What holds of the variables of [ushioLoop] between two iterations
    ([idle = 2]) and inside an iteration after the receive framer
    ([idle = 3]). *)
Definition loop_inv_gen (idle : Z) (st : loop_state) : Prop :=
  length (uartRxBuffer st) = 16%nat /\
  length (uartTxBuffer st) = 16%nat /\
  uartRxRead st = 0 /\
  0 <= uartRxWrite st <= rx_limit idle (uartRxState st) /\
  0 <= uartTxRead st /\
  uartTxRead st + tx_unread_min (uartTxState st) <= uartTxWrite st /\
  uartTxWrite st <= 14 /\
  0 <= rxTick st <= 4 /\
  0 <= txTick st <= 4 /\
  0 <= rxTimeout st <= UART_RX_TIMEOUT /\
  (rxBit st = 0 \/ rxBit st = 1) /\
  (txParity st = 0 \/ txParity st = 1) /\
  tx_level_ok (uartTxState st) (txBit st).

Definition loop_inv (st : loop_state) : Prop := loop_inv_gen 2 st.

(** The state with the five variables the matcher assigns set to fixed
    values. *)
Definition erase_matcher_vars (st : loop_state) : loop_state :=
  set_uartRxWrite 0
    (set_uartRxRead 0
       (set_rxTimeout 0 (set_uartTxBuffer [] (set_uartTxWrite 0 st)))).

(** The number of iterations for which a line stays high at first. *)
Fixpoint leading_ones (l : list Z) : nat :=
  match l with
  | 1 :: t => S (leading_ones t)
  | _ => O
  end.

(** The state [k] iterations after power-on with the receive line high. *)
Definition after_idle (k : nat) : loop_state :=
  fst (ushioLoop (repeat 1 k) ushioLoop_init).

(** Equality of lists of integers, and [quiet] as a test. *)
Fixpoint list_eqb (l1 l2 : list Z) : bool :=
  match l1, l2 with
  | [], [] => true
  | a :: t1, b :: t2 => (a =? b) && list_eqb t1 t2
  | _, _ => false
  end.

Definition quietb (st : loop_state) : bool :=
  uartState_eqb (uartRxState st) IDLE && (rxTick st =? 0)
  && (uartRxWrite st =? 0) && uartState_eqb (uartTxState st) IDLE
  && negb (txBit st =? 0) && (uartTxRead st =? 0) && (uartTxWrite st =? 0).

(** *** Writing the TX pin *)

Definition SYNCPIN : Z := 0x04.
Definition ID0 : Z := 0x08.
Definition ID1 : Z := 0x10.
Definition OUTPUTPINS : Z := TXPIN.
Definition INPUTPINS : Z := Z.lor (Z.lor (Z.lor RXPIN SYNCPIN) ID0) ID1.
Definition PULLUPS : Z := Z.lor (Z.lor (Z.lor RXPIN SYNCPIN) ID0) ID1.

(** [PORTB |= TXPIN;] and [PORTB &= ~TXPIN;] on the 8 bit register. *)
Definition portb_tx_high (portb : Z) : Z := Z.lor portb TXPIN.
Definition portb_tx_low (portb : Z) : Z := Z.land portb (Z.lnot TXPIN).

(** [if(txBit) PORTB |= TXPIN; else PORTB &= ~TXPIN;] (lines 150-153). *)
Definition write_txd (st : loop_state) (portb : Z) : Z :=
  if txBit st =? 0 then portb_tx_low portb else portb_tx_high portb.

(** *** [flagLoop] *)

(** The locals of [flagLoop] and the register it writes. *)
Record flag_state : Type := mkFlag {
  pin_status : Z;
  lamp_on : Z;
  dim_on : Z;
  flag_PORTB : Z
}.

(** One iteration of the loop of [flagLoop] (lines 336-355); [pinb] is the
    value read from [PINB]. *)
Definition flagLoop_body (pinb : Z) (s : flag_state) : flag_state :=
  let pin_status := pinb in
  let dim_on := if Z.land pin_status RXPIN =? 0 then 1 else 0 in
  if Z.land pin_status SYNCPIN =? 0 then
    mkFlag pin_status 1 dim_on (portb_tx_high (flag_PORTB s))
  else
    mkFlag pin_status 0 dim_on (portb_tx_low (flag_PORTB s)).

Fixpoint flagLoop (pins : list Z) (s : flag_state) : flag_state :=
  match pins with
  | [] => s
  | p :: rest => flagLoop rest (flagLoop_body p s)
  end.

(** *** [main] *)

Inductive mode_t : Set := DEAD | FLAG | OSRAM | USHIO.

(** The values of the enumeration. *)
Definition mode_value (m : mode_t) : Z :=
  match m with
  | DEAD => 0x00
  | FLAG => 0x01
  | OSRAM => 0x02
  | USHIO => 0x03
  end.

Definition mode_of_value (v : Z) : option mode_t :=
  if v =? 0x00 then Some DEAD
  else if v =? 0x01 then Some FLAG
  else if v =? 0x02 then Some OSRAM
  else if v =? 0x03 then Some USHIO
  else None.

(** [modeBits = PINB & (ID0 | ID1);
     operationMode = ((modeBits & ID0) ? 0x01 : 0x00) | ((modeBits & ID1) ? 0x02 : 0x00);] *)
Definition operationMode (pinb : Z) : Z :=
  let modeBits := Z.land pinb (Z.lor ID0 ID1) in
  Z.lor (if Z.land modeBits ID0 =? 0 then 0x00 else 0x01)
        (if Z.land modeBits ID1 =? 0 then 0x00 else 0x02).

(** Bit numbers of [avr/io.h], which is not part of the source. *)
Record avr_bits : Set := mkBits {
  CLKPCE : Z;
  PSR1 : Z;
  OCIE1A : Z;
  CTC1 : Z;
  CS12 : Z
}.

(** The registers [main] writes, and the global interrupt flag. *)
Record avr_regs : Type := mkRegs {
  CLKPR : Z;
  DDRB : Z;
  PORTB : Z;
  TCCR1 : Z;
  TCNT1 : Z;
  GTCCR : Z;
  OCR1A : Z;
  OCR1C : Z;
  TIMSK : Z;
  interrupts : bool
}.

(** Where [main] ends: in one of the two [while(1);] or in a loop
    function. *)
Inductive main_end : Set :=
| Hang
| UshioLoop
| OsramLoop
| FlagLoop.

(** Assignments to one register; [sei] sets the global interrupt flag. *)
Definition set_CLKPR (v : Z) (r : avr_regs) : avr_regs :=
  let (a, b, c, d, e, f, g, h, i, j) := r in mkRegs v b c d e f g h i j.
Definition set_DDRB (v : Z) (r : avr_regs) : avr_regs :=
  let (a, b, c, d, e, f, g, h, i, j) := r in mkRegs a v c d e f g h i j.
Definition set_PORTB (v : Z) (r : avr_regs) : avr_regs :=
  let (a, b, c, d, e, f, g, h, i, j) := r in mkRegs a b v d e f g h i j.
Definition set_TCCR1 (v : Z) (r : avr_regs) : avr_regs :=
  let (a, b, c, d, e, f, g, h, i, j) := r in mkRegs a b c v e f g h i j.
Definition set_TCNT1 (v : Z) (r : avr_regs) : avr_regs :=
  let (a, b, c, d, e, f, g, h, i, j) := r in mkRegs a b c d v f g h i j.
Definition set_GTCCR (v : Z) (r : avr_regs) : avr_regs :=
  let (a, b, c, d, e, f, g, h, i, j) := r in mkRegs a b c d e v g h i j.
Definition set_OCR1A (v : Z) (r : avr_regs) : avr_regs :=
  let (a, b, c, d, e, f, g, h, i, j) := r in mkRegs a b c d e f v h i j.
Definition set_OCR1C (v : Z) (r : avr_regs) : avr_regs :=
  let (a, b, c, d, e, f, g, h, i, j) := r in mkRegs a b c d e f g v i j.
Definition set_TIMSK (v : Z) (r : avr_regs) : avr_regs :=
  let (a, b, c, d, e, f, g, h, i, j) := r in mkRegs a b c d e f g h v j.
Definition sei (r : avr_regs) : avr_regs :=
  let (a, b, c, d, e, f, g, h, i, j) := r in mkRegs a b c d e f g h i true.

(** [main] (lines 364-450): the registers when it stops returning and where
    it is then; [pinb] is the value read from [PINB] at line 391. *)
Definition main (io : avr_bits) (pinb : Z) (r : avr_regs)
    : avr_regs * main_end :=
  let r := set_CLKPR (Z.shiftl 1 (CLKPCE io)) r in
  let r := set_CLKPR 0 r in
  let r := set_DDRB 0 r in
  let r := set_PORTB PULLUPS r in
  let mode := operationMode pinb in
  if mode =? mode_value DEAD then
    (set_PORTB 0x00 r, Hang)
  else
    let r := set_DDRB OUTPUTPINS r in
    let r := set_TCCR1 0 r in
    let r := set_TCNT1 0 r in
    let r := set_GTCCR (Z.shiftl 1 (PSR1 io)) r in
    let r :=
      if mode =? mode_value OSRAM then
        let r := set_OCR1A 26 r in
        set_OCR1C 26 r
      else
        let r := set_OCR1A 104 r in
        set_OCR1C 104 r in
    let r := set_TIMSK (Z.shiftl 1 (OCIE1A io)) r in
    let r := set_TCCR1 (Z.lor (Z.shiftl 1 (CTC1 io)) (Z.shiftl 1 (CS12 io)))
                       r in
    let r := sei r in
    (r,
     if mode =? mode_value USHIO then UshioLoop
     else if mode =? mode_value OSRAM then OsramLoop
     else if mode =? mode_value FLAG then FlagLoop
     else Hang).

(** *** Commands on the line *)

(** The frames of a sequence of bytes, one after the other. *)
Definition frames (bs : list Z) : list Z := flat_map wire_frame bs.

(** From the state [st], the frames of the query of [q] followed by 150
    iterations with the line high give, on TXD, [d] more iterations high
    than the query lasts, the frames of the reply and the line high to the
    end; the loop is then at rest. *)
Definition answers (st : loop_state) (q : ushioQuery_t) (d : nat) : bool :=
  let r := ushioLoop (frames (query_bytes q) ++ repeat 1 150) st in
  list_eqb (snd r)
           (repeat 1 (length (frames (query_bytes q)) + d) ++
            frames (reply_bytes q) ++
            repeat 1 (150 - d - length (frames (reply_bytes q))))
  && quietb (fst r).

(** The same for the query of [q1] directly followed by that of [q2] and
    300 iterations with the line high: the two replies leave in that order,
    [g] iterations apart. *)
Definition answers_both (st : loop_state) (q1 q2 : ushioQuery_t) (d : nat)
    : bool :=
  let g := (44 * (length (query_bytes q2) - length (reply_bytes q1)))%nat in
  let r := ushioLoop (frames (query_bytes q1) ++ frames (query_bytes q2) ++
                      repeat 1 300) st in
  list_eqb (snd r)
           (repeat 1 (length (frames (query_bytes q1)) + d) ++
            frames (reply_bytes q1) ++ repeat 1 g ++
            frames (reply_bytes q2) ++
            repeat 1 (length (frames (query_bytes q2)) + 300 - d - g -
                      length (frames (reply_bytes q1 ++ reply_bytes q2))))
  && quietb (fst r).

(** Five queries in a row from the state [st], followed by 200 iterations
    with the line high: the replies to the first four leave without gaps,
    nothing else does. *)
Definition answers_four (st : loop_state) (qs : list ushioQuery_t) (d : nat)
    : bool :=
  let cmd := frames (flat_map query_bytes qs) in
  let rep := frames (flat_map reply_bytes (firstn 4 qs)) in
  let r := ushioLoop (cmd ++ repeat 1 200) st in
  list_eqb (snd r)
           (repeat 1 (88 + d) ++ rep ++
            repeat 1 (length cmd + 200 - (88 + d) - length rep))
  && quietb (fst r).

(** The entries of the table with a query of two bytes. *)
Definition short_queries : list ushioQuery_t :=
  filter (fun q => qLength q =? 2) ushioQuery.

(** The byte [v] alone is queued, the timeout has [t] iterations left and
    TXD is high. *)
Definition waits (v t : Z) (st : loop_state) : bool :=
  list_eqb (rx_queued st) [v] && (rxTimeout st =? t) && negb (txBit st =? 0).

(** [waits] holds with [t] counting down from [t] over [n] iterations with
    the line high, and the loop is at rest with the timeout at 0 after
    them. *)
Fixpoint waits_for (n : nat) (v t : Z) (st : loop_state) : bool :=
  match n with
  | O => quietb st && (rxTimeout st =? 0)
  | S n' => waits v t st && waits_for n' v (t - 1) (ushioLoop_body 1 st)
  end.

(** The frame of [v] from the state [st] leaves TXD high and is followed by
    the wait for the timeout. *)
Definition lone_byte (st : loop_state) (v : Z) : bool :=
  let r := ushioLoop (wire_frame v) st in
  list_eqb (snd r) (repeat 1 44)
  && waits_for 438 v (UART_RX_TIMEOUT - 42) (fst r).

(** The five states of the loop after power-on with the line high. *)
Definition idle_phases : list nat := [1; 2; 3; 4; 5]%nat.

(** The receive side is at rest: the framer is IDLE on a firing iteration
    and nothing is queued. *)
Definition rx_rest (st : loop_state) : Prop :=
  uartRxState st = IDLE /\ rxTick st = 0 /\ uartRxWrite st = 0.

(** The variables of the receive side: those of [rx_part] and the
    timeout. *)
Definition rx_view (st : loop_state) : loop_state :=
  set_rxTimeout (rxTimeout st) (rx_part st).

(** The RXD bit of a value read from [PINB] is set, and is clear. *)
Definition rxd_high (pinb : Z) : Prop := Z.land pinb RXPIN <> 0.
Definition rxd_low (pinb : Z) : Prop := Z.land pinb RXPIN = 0.

(** The mode selected by the levels of the pins ID0 and ID1. *)
Definition mode_of_pins (id0 id1 : bool) : mode_t :=
  match id0, id1 with
  | false, false => DEAD
  | true, false => FLAG
  | false, true => OSRAM
  | true, true => USHIO
  end.

(** The loop function of a mode (lines 432-445); [DEAD] never comes to
    the [switch]. *)
Definition loop_of_mode (m : mode_t) : main_end :=
  match m with
  | USHIO => UshioLoop
  | OSRAM => OsramLoop
  | FLAG => FlagLoop
  | DEAD => Hang
  end.

(** * Properties *)

(** ** Arrays *)

Lemma store_nat_length (a : list Z) (n : nat) (v : Z) :
  length (store_nat a n v) = length a.
Proof.
  revert n; induction a as [|h t IH]; intros [|n]; simpl; auto.
Qed.

Lemma store_length (a : list Z) (i v : Z) : length (store a i v) = length a.
Proof.
  unfold store; destruct (i <? 0); auto using store_nat_length.
Qed.

Lemma nth_store_nat_same (a : list Z) (n : nat) (v : Z) :
  (n < length a)%nat -> nth n (store_nat a n v) 0 = v.
Proof.
  revert n; induction a as [|h t IH]; intros [|n] Hn; simpl in *;
    try lia; auto.
  apply IH; lia.
Qed.

Lemma nth_store_nat_other (a : list Z) (n k : nat) (v : Z) :
  n <> k -> nth k (store_nat a n v) 0 = nth k a 0.
Proof.
  revert n k; induction a as [|h t IH]; intros [|n] [|k] Hk; simpl;
    try congruence; auto.
Qed.

Lemma load_store_same (a : list Z) (i v : Z) :
  0 <= i < Z.of_nat (length a) -> load (store a i v) i = v.
Proof.
  intros Hi; unfold load, store.
  destruct (Z.ltb_spec i 0); try lia.
  apply nth_store_nat_same; lia.
Qed.

Lemma load_store_other (a : list Z) (i k v : Z) :
  i <> k -> load (store a i v) k = load a k.
Proof.
  intros Hik; unfold load, store.
  destruct (Z.ltb_spec k 0); auto.
  destruct (Z.ltb_spec i 0); auto.
  apply nth_store_nat_other; lia.
Qed.

Lemma store_store_same (a : list Z) (i v w : Z) :
  store (store a i v) i w = store a i w.
Proof.
  unfold store; destruct (i <? 0); auto.
  generalize (Z.to_nat i) as n.
  induction a as [|h t IH]; intros [|n]; simpl; auto.
  now rewrite IH.
Qed.

(** ** The flag bits of [failed] *)

Lemma failed_clear_bit0 (f : Z) : Z.land (Z.land f 0xFE) 0x01 = 0.
Proof. rewrite <- Z.land_assoc; simpl (Z.land 254 1); apply Z.land_0_r. Qed.

Lemma failed_set_bit0 (f : Z) : Z.land (Z.lor f 0x01) 0x01 = 1.
Proof.
  rewrite Z.land_lor_distr_l; simpl (Z.land 1 1).
  apply Z.bits_inj'; intros n Hn.
  rewrite Z.lor_spec, Z.land_spec.
  destruct (Z.testbit 1 n); [apply orb_true_r | rewrite andb_false_r; auto].
Qed.

Lemma failed_keep_bit1 (f : Z) : Z.land (Z.land f 0xFE) 0x02 = Z.land f 0x02.
Proof. now rewrite <- Z.land_assoc. Qed.

Lemma failed_bit0_bit1 (f : Z) : Z.land (Z.lor f 0x01) 0x02 = Z.land f 0x02.
Proof.
  rewrite Z.land_lor_distr_l; simpl (Z.land 1 2); apply Z.lor_0_r.
Qed.

Lemma failed_set_bit1 (f : Z) : Z.land (Z.lor f 0x02) 0x02 <> 0.
Proof.
  rewrite Z.land_lor_distr_l; simpl (Z.land 2 2).
  intros H; apply Z.lor_eq_0_iff in H; lia.
Qed.

(** ** Slices *)

Lemma slice_length (buf : list Z) (from : Z) (n : nat) :
  length (slice buf from n) = n.
Proof. revert from; induction n; intros; simpl; auto. Qed.

Lemma slice_ext (b1 b2 : list Z) (f1 f2 : Z) (n : nat) :
  (forall k, 0 <= k < Z.of_nat n -> load b1 (f1 + k) = load b2 (f2 + k)) ->
  slice b1 f1 n = slice b2 f2 n.
Proof.
  revert f1 f2; induction n as [|n IH]; intros f1 f2 H; simpl; auto.
  f_equal.
  - specialize (H 0); rewrite !Z.add_0_r in H; apply H; lia.
  - apply IH; intros k Hk.
    replace (f1 + 1 + k) with (f1 + (k + 1)) by lia.
    replace (f2 + 1 + k) with (f2 + (k + 1)) by lia.
    apply H; lia.
Qed.

Lemma slice_app (buf : list Z) (from : Z) (n m : nat) :
  slice buf from (n + m) =
  slice buf from n ++ slice buf (from + Z.of_nat n) m.
Proof.
  revert from; induction n as [|n IH]; intros from.
  - simpl; now rewrite Z.add_0_r.
  - cbn [slice Nat.add app]; rewrite IH; do 3 f_equal; lia.
Qed.

Lemma slice_nth (buf : list Z) (from : Z) (n : nat) (k : nat) :
  (k < n)%nat -> nth k (slice buf from n) 0 = load buf (from + Z.of_nat k).
Proof.
  revert from k; induction n as [|n IH]; intros from [|k] Hk; simpl slice;
    try lia.
  - simpl; now rewrite Z.add_0_r.
  - cbn [nth]; rewrite IH by lia; f_equal; lia.
Qed.

(** ** The reply loop *)

Lemma zrange_In (from : Z) (n : nat) (i : Z) :
  In i (zrange from n) <-> from <= i < from + Z.of_nat n.
Proof.
  revert from; induction n as [|n IH]; intros from; simpl zrange.
  - simpl; lia.
  - cbn [In]; rewrite IH; lia.
Qed.

Lemma stores_length (n : nat) : forall buf w rd j,
  length (stores buf w rd j n) = length buf.
Proof.
  induction n as [|n IH]; intros; simpl; auto.
  now rewrite IH, store_length.
Qed.

Lemma load_stores_out (n : nat) : forall buf w rd j i,
  ~ (w <= i < w + Z.of_nat n) ->
  load (stores buf w rd j n) i = load buf i.
Proof.
  induction n as [|n IH]; intros buf w rd j i Hi; simpl; auto.
  rewrite IH by lia. apply load_store_other; lia.
Qed.

Lemma load_stores_in (n : nat) : forall buf w rd j k,
  0 <= w -> w + Z.of_nat n <= Z.of_nat (length buf) ->
  0 <= k < Z.of_nat n ->
  load (stores buf w rd j n) (w + k) = load rd (j + k).
Proof.
  induction n as [|n IH]; intros buf w rd j k Hw Hlen Hk; [lia|].
  simpl stores.
  destruct (Z.eq_dec k 0) as [->|Hk0].
  - rewrite !Z.add_0_r, load_stores_out by lia.
    apply load_store_same; lia.
  - replace (w + k) with (w + 1 + (k - 1)) by lia.
    rewrite IH; rewrite ?store_length; try lia.
    f_equal; lia.
Qed.

Lemma reply_loop_eq (n : nat) : forall rd j st log,
  0 <= uartTxWrite st -> uartTxWrite st + Z.of_nat n < 256 ->
  reply_loop rd j n st log =
  (set_uartTxBuffer (stores (uartTxBuffer st) (uartTxWrite st) rd j n)
     (set_uartTxWrite (uartTxWrite st + Z.of_nat n) st),
   log ++ zrange (uartTxWrite st) n).
Proof.
  induction n as [|n IH]; intros rd j st log Hw Hn.
  - destruct st; cbn [reply_loop zrange stores]; cbn.
    now rewrite Z.add_0_r, app_nil_r.
  - cbn [reply_loop zrange stores].
    assert (Hu : u8 (uartTxWrite st + 1) = uartTxWrite st + 1)
      by (unfold u8; apply Z.mod_small; lia).
    replace (Z.of_nat (S n)) with (1 + Z.of_nat n) in * by lia.
    rewrite Hu, IH; destruct st;
      cbn [set_uartTxWrite set_uartTxBuffer uartTxWrite uartTxBuffer] in *;
      try lia.
    rewrite <- app_assoc, Z.add_assoc; reflexivity.
Qed.

(** ** The loop over the command table *)

Ltac state_simpl :=
  cbn [rxLastBit rxBit uartRxState rxParity rxTick readBit txBit uartTxState
       txParity txTick writeBit rxTimeout uartRxBuffer uartRxWrite uartRxRead
       uartTxBuffer uartTxWrite uartTxRead
       set_rxLastBit set_rxBit set_uartRxState set_rxParity set_rxTick
       set_readBit set_txBit set_uartTxState set_txParity set_txTick
       set_writeBit set_rxTimeout set_uartRxBuffer set_uartRxWrite
       set_uartRxRead set_uartTxBuffer set_uartTxWrite set_uartTxRead] in *.

Lemma query_differs_false (buf qd : list Z) (n : nat) : forall j,
  query_differs buf qd j n = false <->
  (forall k, 0 <= k < Z.of_nat n -> load buf (j + k) = load qd (j + k)).
Proof.
  induction n as [|n IH]; intros j; cbn [query_differs].
  - split; auto; intros; lia.
  - destruct (Z.eqb_spec (load buf j) (load qd j)) as [E|E].
    + rewrite IH; split; intros H k Hk.
      * destruct (Z.eq_dec k 0) as [->|]; [now rewrite Z.add_0_r|].
        replace (j + k) with (j + 1 + (k - 1)) by lia; apply H; lia.
      * replace (j + 1 + k) with (j + (k + 1)) by lia; apply H; lia.
    + split; [discriminate|]; intros H; exfalso; apply E.
      specialize (H 0); rewrite Z.add_0_r in H; apply H; lia.
Qed.

Lemma query_matches_true (st : loop_state) (q : ushioQuery_t) :
  query_matches st q = true <->
  qLength q <= uartRxWrite st /\
  slice (uartRxBuffer st) 0 (Z.to_nat (qLength q)) = query_bytes q.
Proof.
  unfold query_matches, query_bytes.
  rewrite andb_true_iff, negb_true_iff, query_differs_false.
  destruct (Z.geb_spec (uartRxWrite st) (qLength q)); split;
    intros [H1 H2]; try lia; try discriminate; split; auto; try lia.
  - now apply slice_ext.
  - intros k Hk; replace k with (Z.of_nat (Z.to_nat k)) by lia.
    rewrite <- !slice_nth with (n := Z.to_nat (qLength q)) by lia.
    now rewrite H2.
Qed.

Lemma query_loop_hit (q : ushioQuery_t) rest (f : Z) (st : loop_state) :
  query_matches st q = true ->
  query_loop (q :: rest) f st = (0, append_reply q st).
Proof.
  unfold query_matches; intros H; apply andb_true_iff in H as [H1 H2].
  apply negb_true_iff in H2.
  cbn [query_loop]; rewrite H1, H2, failed_clear_bit0; reflexivity.
Qed.

Lemma query_loop_skip (q : ushioQuery_t) rest (f : Z) (st : loop_state) :
  query_matches st q = false ->
  exists f',
    query_loop (q :: rest) f st = query_loop rest f' st /\
    (Z.land f' 0x02 =? 0) =
    (Z.land f 0x02 =? 0) && negb (query_longer st q).
Proof.
  unfold query_matches, query_longer; intros H; cbn [query_loop].
  destruct (uartRxWrite st >=? qLength q); cbn [andb negb] in *.
  - apply negb_false_iff in H; rewrite H, failed_set_bit0; cbn [Z.eqb].
    eexists; split; [reflexivity|].
    now rewrite failed_bit0_bit1, failed_keep_bit1, andb_true_r.
  - eexists; split; [reflexivity|].
    rewrite andb_false_r; apply Z.eqb_neq, failed_set_bit1.
Qed.

Lemma query_loop_first tbl1 (q : ushioQuery_t) tbl2 (st : loop_state) :
  (forall q', In q' tbl1 -> query_matches st q' = false) ->
  query_matches st q = true ->
  forall f, query_loop (tbl1 ++ q :: tbl2) f st = (0, append_reply q st).
Proof.
  intros Hno Hq; induction tbl1 as [|p tbl1 IH]; intros f.
  - now apply query_loop_hit.
  - destruct (query_loop_skip p (tbl1 ++ q :: tbl2) f st) as (f' & E & _).
    + apply Hno; now left.
    + cbn [app]; rewrite E; apply IH; intros; apply Hno; now right.
Qed.

Lemma query_loop_none tbl (st : loop_state) :
  (forall q, In q tbl -> query_matches st q = false) ->
  forall f, exists f',
    query_loop tbl f st = (f', (st, [])) /\
    (Z.land f' 0x02 =? 0) =
    (Z.land f 0x02 =? 0) && negb (existsb (query_longer st) tbl).
Proof.
  induction tbl as [|p tbl IH]; intros Hno f.
  - exists f; split; auto; cbn; now rewrite andb_true_r.
  - destruct (query_loop_skip p tbl f st) as (f1 & E1 & B1);
      [apply Hno; now left|].
    destruct (IH (fun q H => Hno q (or_intror H)) f1) as (f' & E & B).
    exists f'; split; [now rewrite E1|].
    rewrite B, B1; cbn [existsb]; rewrite negb_orb; symmetry; apply andb_assoc.
Qed.

Lemma existsb_first {A} (p : A -> bool) (l : list A) :
  existsb p l = true ->
  exists l1 x l2,
    l = l1 ++ x :: l2 /\ p x = true /\ (forall y, In y l1 -> p y = false).
Proof.
  induction l as [|a l IH]; cbn [existsb]; [discriminate|].
  destruct (p a) eqn:Ea; intros H.
  - exists [], a, l; repeat split; auto; intros y [].
  - destruct (IH H) as (l1 & x & l2 & -> & Hx & Hl1).
    exists (a :: l1), x, l2; repeat split; auto.
    intros y [<-|Hy]; auto.
Qed.

Lemma existsb_none {A} (p : A -> bool) (l : list A) :
  existsb p l = false -> forall y, In y l -> p y = false.
Proof.
  intros H y Hy; destruct (p y) eqn:E; auto.
  rewrite <- H; symmetry; apply existsb_exists; eauto.
Qed.

Lemma failed_zero_bit1 (f : Z) :
  (f =? 0) || (Z.land f 0x02 =? 0) = (Z.land f 0x02 =? 0).
Proof. destruct (Z.eqb_spec f 0) as [->|]; auto. Qed.

(** The matcher when some entry matches: the first such entry decides. *)
Lemma matcher_log_first tbl1 (q : ushioQuery_t) tbl2 (st : loop_state) :
  uartRxState st = IDLE -> uartRxWrite st > 0 ->
  (forall q', In q' tbl1 -> query_matches st q' = false) ->
  query_matches st q = true ->
  matcher_log (tbl1 ++ q :: tbl2) st =
  (clear_rx (fst (append_reply q st)), snd (append_reply q st)).
Proof.
  intros Hs Hw Hno Hq; unfold matcher_log.
  rewrite Hs; cbn [uartState_eqb andb].
  destruct (Z.gtb_spec (uartRxWrite st) 0); [|lia].
  rewrite query_loop_first by assumption.
  now destruct (append_reply q st).
Qed.

(** The matcher when no entry matches. *)
Lemma matcher_log_none tbl (st : loop_state) :
  uartRxState st = IDLE -> uartRxWrite st > 0 ->
  existsb (query_matches st) tbl = false ->
  matcher_log tbl st =
  (if negb (existsb (query_longer st) tbl) || (rxTimeout st =? 0)
   then clear_rx st else st, []).
Proof.
  intros Hs Hw Hno; unfold matcher_log.
  rewrite Hs; cbn [uartState_eqb andb].
  destruct (Z.gtb_spec (uartRxWrite st) 0); [|lia].
  destruct (query_loop_none tbl st (existsb_none _ _ Hno) 0) as (f & E & B).
  rewrite E, failed_zero_bit1, B; cbn [Z.land Z.eqb andb].
  now destruct (_ || _).
Qed.

(** ** Appending a reply to the transmit queue *)

Lemma append_reply_eq (q : ushioQuery_t) (st : loop_state) :
  0 <= uartTxWrite st < 256 ->
  append_reply q st =
  if UARTTXMASK >? uartTxWrite st + rLength q then
    (set_uartTxBuffer
       (stores (uartTxBuffer st) (uartTxWrite st) (rData q) 0
               (Z.to_nat (rLength q)))
       (set_uartTxWrite (uartTxWrite st + Z.of_nat (Z.to_nat (rLength q))) st),
     zrange (uartTxWrite st) (Z.to_nat (rLength q)))
  else (st, []).
Proof.
  intros Hw; unfold append_reply, UARTTXMASK.
  destruct (Z.gtb_spec 15 (uartTxWrite st + rLength q)); auto.
  rewrite reply_loop_eq by lia; reflexivity.
Qed.

Lemma clear_rx_fields (s : loop_state) :
  uartRxWrite (clear_rx s) = 0 /\ uartRxRead (clear_rx s) = 0 /\
  rxTimeout (clear_rx s) = 0 /\
  uartRxBuffer (clear_rx s) = uartRxBuffer s /\
  uartTxBuffer (clear_rx s) = uartTxBuffer s /\
  uartTxWrite (clear_rx s) = uartTxWrite s /\
  uartTxRead (clear_rx s) = uartTxRead s.
Proof. destruct s; cbn; repeat split. Qed.

Lemma tx_queued_clear_rx (s : loop_state) :
  tx_queued (clear_rx s) = tx_queued s.
Proof. now destruct s. Qed.

Lemma append_reply_queued (q : ushioQuery_t) (st : loop_state) :
  0 <= uartTxRead st <= uartTxWrite st -> 0 <= rLength q ->
  uartTxWrite st + rLength q < UARTTXMASK ->
  length (uartTxBuffer st) = 16%nat ->
  let st' := fst (append_reply q st) in
  tx_queued st' = tx_queued st ++ reply_bytes q /\
  uartTxWrite st' = uartTxWrite st + rLength q /\
  uartTxRead st' = uartTxRead st.
Proof.
  unfold UARTTXMASK; intros Hrd Hr Hroom Hlen.
  rewrite append_reply_eq by lia; unfold UARTTXMASK.
  destruct (Z.gtb_spec 15 (uartTxWrite st + rLength q)); [|lia].
  unfold tx_queued, reply_bytes; destruct st; state_simpl; cbn [fst];
    state_simpl.
  rewrite Z2Nat.id by lia; repeat split.
  replace (Z.to_nat (uartTxWrite0 + rLength q - uartTxRead0))
    with (Z.to_nat (uartTxWrite0 - uartTxRead0) + Z.to_nat (rLength q))%nat
    by lia.
  rewrite slice_app; f_equal.
  - apply slice_ext; intros k Hk; apply load_stores_out; lia.
  - rewrite Z2Nat.id by lia.
    replace (uartTxRead0 + (uartTxWrite0 - uartTxRead0))
      with uartTxWrite0 by lia.
    apply slice_ext; intros k Hk; apply load_stores_in; lia.
Qed.

(** ** The claims on the protocol matcher *)

(** C7. When the receive framer is IDLE and the receive queue is not
    empty, the matcher step clears the receive queue ([uartRxWrite],
    [uartRxRead] and [rxTimeout] set to zero) if and only if some entry of
    the table matched, or no entry of the table is longer than the
    buffered byte count, or [rxTimeout] is zero; in every other case the
    step leaves the whole state, hence the receive queue and its cursors,
    as it was. *)
Theorem matcher_clears_iff (tbl : list ushioQuery_t) (st : loop_state) :
  uartRxState st = IDLE -> uartRxWrite st > 0 ->
  let st' := matcher_on tbl st in
  let handled := existsb (query_matches st) tbl = true in
  let none_longer := existsb (query_longer st) tbl = false in
  let expired := rxTimeout st = 0 in
  ((uartRxWrite st' = 0 /\ uartRxRead st' = 0 /\ rxTimeout st' = 0) <->
   (handled \/ none_longer \/ expired)) /\
  (~ (handled \/ none_longer \/ expired) -> st' = st).
Proof.
  intros Hs Hw; cbv zeta; unfold matcher_on.
  destruct (existsb (query_matches st) tbl) eqn:Hm.
  - destruct (existsb_first _ _ Hm) as (l1 & q & l2 & -> & Hq & Hl1).
    rewrite matcher_log_first by assumption; cbn [fst].
    destruct (clear_rx_fields (fst (append_reply q st)))
      as (E1 & E2 & E3 & _).
    split; [tauto|]; intros H; exfalso; apply H; now left.
  - rewrite matcher_log_none by assumption; cbn [fst].
    destruct (existsb (query_longer st) tbl); cbn [negb orb].
    + destruct (Z.eqb_spec (rxTimeout st) 0) as [E|E].
      * destruct (clear_rx_fields st) as (E1 & E2 & E3 & _).
        split; [tauto|]; intros H; exfalso; apply H; tauto.
      * split; [|reflexivity].
        split; [intros (W & _); lia|].
        intros [H|[H|H]]; try discriminate; contradiction.
    + destruct (clear_rx_fields st) as (E1 & E2 & E3 & _).
      split; [tauto|]; intros H; exfalso; apply H; tauto.
Qed.

(** C4. The table is scanned in order and the first entry whose prefix
    matches the buffered bytes decides the step: whatever entries follow it
    in the table (matching or not, longer or duplicate), the step is the
    one of the table holding that entry alone, namely the guarded append of
    that entry's reply followed by the clearing of the receive queue.  So
    of two entries that both match, the later one is never answered: with
    space in the transmit queue the bytes queued for transmission grow by
    exactly the reply of the first matching entry, and without space by
    nothing. *)
Theorem first_match_wins tbl1 (q : ushioQuery_t) tbl2 (st : loop_state) :
  uartRxState st = IDLE -> uartRxWrite st > 0 ->
  (forall q', In q' tbl1 -> query_matches st q' = false) ->
  query_matches st q = true ->
  let st' := matcher_on (tbl1 ++ q :: tbl2) st in
  st' = clear_rx (fst (append_reply q st)) /\
  st' = matcher_on [q] st /\
  (0 <= uartTxRead st <= uartTxWrite st -> 0 <= rLength q ->
   length (uartTxBuffer st) = 16%nat ->
   tx_queued st' =
   if tx_has_space st q
   then tx_queued st ++ reply_bytes q else tx_queued st).
Proof.
  intros Hs Hw Hno Hq; cbv zeta; unfold matcher_on, tx_has_space.
  rewrite matcher_log_first by assumption; cbn [fst].
  split; [reflexivity|]; split.
  - change [q] with ([] ++ q :: []).
    rewrite (matcher_log_first [] q [] st) by (auto; intros ? []).
    reflexivity.
  - intros Hrd Hr Hlen; rewrite tx_queued_clear_rx.
    destruct (Z.gtb_spec UARTTXMASK (uartTxWrite st + rLength q)) as [G|G].
    + apply append_reply_queued; auto; lia.
    + unfold append_reply.
      destruct (Z.gtb_spec UARTTXMASK (uartTxWrite st + rLength q));
        [lia|reflexivity].
Qed.

Lemma zrange_length (from : Z) (n : nat) : length (zrange from n) = n.
Proof. revert from; induction n; intros; simpl; auto. Qed.

(** What one guarded append stores, and where. *)
Lemma append_reply_log (q : ushioQuery_t) (st : loop_state) :
  0 <= uartTxWrite st < 256 ->
  let st' := fst (append_reply q st) in
  let log := snd (append_reply q st) in
  Forall (fun i => 0 <= i < 16) log /\
  log = zrange (uartTxWrite st) (length log) /\
  uartTxWrite st' = uartTxWrite st + Z.of_nat (length log) /\
  (forall i, ~ In i log ->
             load (uartTxBuffer st') i = load (uartTxBuffer st) i) /\
  (log <> [] ->
   uartTxWrite st + rLength q < 15 /\ Z.of_nat (length log) = rLength q) /\
  (log = [] -> uartTxBuffer st' = uartTxBuffer st).
Proof.
  intros Hw; cbv zeta; rewrite append_reply_eq by assumption.
  unfold UARTTXMASK.
  destruct (Z.gtb_spec 15 (uartTxWrite st + rLength q)) as [G|G];
    cbn [fst snd].
  - rewrite zrange_length; destruct st; state_simpl.
    repeat split; auto; try lia.
    + apply Forall_forall; intros i Hi; apply zrange_In in Hi; lia.
    + intros i Hi; apply load_stores_out; now rewrite <- zrange_In.
    + destruct (Z.to_nat (rLength q)) eqn:E; [now cbn in H|lia].
    + destruct (Z.to_nat (rLength q)); [reflexivity|discriminate].
  - repeat split; auto; try lia; try (now cbn); cbn; lia.
Qed.

(** C10. Every store of a matcher step into [uartTxBuffer] has an index
    in [0, 16).  The stores go to consecutive indices from [uartTxWrite]
    on and the cursor ends right after them, so nothing wraps around; bytes
    at other indices keep their value; stores only happen when the first
    matching entry of the table passes the guard
    [uartTxWrite + rLength < 15], so a failed guard stores nothing; and
    with no store the buffer is unchanged. *)
Theorem matcher_stores_in_bounds (tbl : list ushioQuery_t) (st : loop_state) :
  0 <= uartTxWrite st < 256 ->
  let st' := fst (matcher_log tbl st) in
  let log := snd (matcher_log tbl st) in
  Forall (fun i => 0 <= i < 16) log /\
  log = zrange (uartTxWrite st) (length log) /\
  uartTxWrite st' = uartTxWrite st + Z.of_nat (length log) /\
  (forall i, ~ In i log ->
             load (uartTxBuffer st') i = load (uartTxBuffer st) i) /\
  (log <> [] ->
   exists tbl1 q tbl2,
     tbl = tbl1 ++ q :: tbl2 /\
     (forall q', In q' tbl1 -> query_matches st q' = false) /\
     query_matches st q = true /\
     uartTxWrite st + rLength q < 15 /\
     Z.of_nat (length log) = rLength q) /\
  (log = [] -> uartTxBuffer st' = uartTxBuffer st).
Proof.
  intros Hw; cbv zeta.
  assert (Hnil : forall s, uartTxWrite s = uartTxWrite st ->
                           uartTxBuffer s = uartTxBuffer st ->
            Forall (fun i => 0 <= i < 16) (snd (s, @nil Z)) /\
            snd (s, @nil Z) =
              zrange (uartTxWrite st) (length (snd (s, @nil Z))) /\
            uartTxWrite (fst (s, @nil Z)) =
              uartTxWrite st + Z.of_nat (length (snd (s, @nil Z))) /\
            (forall i, ~ In i (snd (s, @nil Z)) ->
               load (uartTxBuffer (fst (s, @nil Z))) i =
               load (uartTxBuffer st) i) /\
            (snd (s, @nil Z) <> [] ->
               exists tbl1 q tbl2,
                 tbl = tbl1 ++ q :: tbl2 /\
                 (forall q', In q' tbl1 -> query_matches st q' = false) /\
                 query_matches st q = true /\
                 uartTxWrite st + rLength q < 15 /\
                 Z.of_nat (length (snd (s, @nil Z))) = rLength q) /\
            (snd (s, @nil Z) = [] ->
               uartTxBuffer (fst (s, @nil Z)) = uartTxBuffer st)).
  { intros s E1 E2; cbn [fst snd length zrange Z.of_nat].
    rewrite E1, E2, Z.add_0_r; repeat split; auto; congruence. }
  destruct (uartState_eqb (uartRxState st) IDLE && (uartRxWrite st >? 0))
    eqn:Hact.
  - apply andb_true_iff in Hact as [Hs Hg].
    assert (uartRxState st = IDLE) by (destruct (uartRxState st);
                                         auto; discriminate).
    assert (uartRxWrite st > 0) by lia.
    destruct (existsb (query_matches st) tbl) eqn:Hm.
    + destruct (existsb_first _ _ Hm) as (l1 & q & l2 & -> & Hq & Hl1).
      rewrite matcher_log_first by assumption; cbn [fst snd].
      destruct (clear_rx_fields (fst (append_reply q st)))
        as (_ & _ & _ & _ & E5 & E6 & _).
      rewrite E5, E6.
      destruct (append_reply_log q st Hw) as (L1 & L2 & L3 & L4 & L5 & L6).
      repeat split; auto.
      intros Hl; exists l1, q, l2; repeat split; auto; now apply L5.
    + rewrite matcher_log_none by assumption.
      destruct (clear_rx_fields st) as (_ & _ & _ & _ & E5 & E6 & _).
      apply Hnil; destruct (_ || _); auto.
  - unfold matcher_log; rewrite Hact; now apply Hnil.
Qed.

(** ** The fixed table *)

(** The table has [USHIO_QUERIES] entries, each with at most
    [USHIO_MAX_COMMAND] bytes of query and of reply in arrays of that
    size, so that the matcher reads every array in range. *)
Lemma ushioQuery_well_formed :
  Z.of_nat (length ushioQuery) = USHIO_QUERIES /\
  Forall (fun q => 0 <= qLength q <= USHIO_MAX_COMMAND /\
                   0 <= rLength q <= USHIO_MAX_COMMAND /\
                   Z.of_nat (length (qData q)) = USHIO_MAX_COMMAND /\
                   Z.of_nat (length (rData q)) = USHIO_MAX_COMMAND)
         ushioQuery.
Proof.
  split; [reflexivity|].
  repeat constructor; cbn; unfold USHIO_MAX_COMMAND; lia.
Qed.

Ltac eval_slices H :=
  repeat match type of H with
         | context [Z.to_nat ?z] =>
           let n := eval vm_compute in (Z.to_nat z) in
           change (Z.to_nat z) with n in H
         end;
  match type of H with
  | _ = ?r => let r' := eval vm_compute in r in change r with r' in H
  end;
  cbn [slice Z.add Pos.add Pos.succ] in H.

Ltac refute_match :=
  match goal with
  | |- query_matches ?st ?q = false =>
    let E := fresh "E" in
    let E1 := fresh "E" in
    let E2 := fresh "E" in
    destruct (query_matches st q) eqn:E; [exfalso|reflexivity];
    apply query_matches_true in E as [E1 E2];
    cbn [qLength] in E1; try lia;
    cbn [qLength] in E2; eval_slices E2; congruence
  end.

Ltac confirm_match :=
  match goal with
  | W : uartRxWrite ?st = _ |- query_matches ?st ?q = true =>
    apply query_matches_true; cbn [qLength]; split; [lia|];
    match goal with
    | |- ?l = ?r =>
      let r' := eval vm_compute in r in change r with r'
    end;
    repeat match goal with
           | |- context [Z.to_nat ?z] =>
             let n := eval vm_compute in (Z.to_nat z) in
             change (Z.to_nat z) with n
           end;
    cbn [slice Z.add Pos.add Pos.succ]; congruence
  end.

(** A full command of the table in the receive queue is answered by the
    first entry that carries it. *)
Lemma table_first_match (q : ushioQuery_t) (st : loop_state) :
  In q ushioQuery -> rx_queued st = query_bytes q ->
  uartRxWrite st = qLength q /\
  exists tbl1 tbl2,
    ushioQuery = tbl1 ++ q :: tbl2 /\
    (forall q', In q' tbl1 -> query_matches st q' = false) /\
    query_matches st q = true.
Proof.
  unfold rx_queued; intros Hin Hq.
  assert (Hlen := f_equal (@length Z) Hq).
  rewrite slice_length in Hlen.
  unfold ushioQuery in Hin; cbn [In] in Hin.
  destruct Hin as [<-|[<-|[<-|[<-|[<-|[]]]]]];
    match type of Hlen with
    | _ = ?r =>
      let n := eval vm_compute in r in
      let z := eval vm_compute in (Z.of_nat n) in
      change r with n in Hlen;
      assert (W : uartRxWrite st = z) by lia
    end;
    rewrite W in Hq; eval_slices Hq; injection Hq as L0 L1;
    (split; [exact W|]).
  - exists [], (tl ushioQuery); split; [reflexivity|].
    split; [intros ? []|confirm_match].
  - exists (firstn 1 ushioQuery), (skipn 2 ushioQuery); split; [reflexivity|].
    split; [|confirm_match].
    cbn [firstn ushioQuery In]; intros q' [<-|[]]; refute_match.
  - exists (firstn 2 ushioQuery), (skipn 3 ushioQuery); split; [reflexivity|].
    split; [|confirm_match].
    cbn [firstn ushioQuery In]; intros q' [<-|[<-|[]]]; refute_match.
  - exists [], (tl ushioQuery); split; [reflexivity|].
    split; [intros ? []|confirm_match].
  - exists (firstn 4 ushioQuery), (skipn 5 ushioQuery); split; [reflexivity|].
    split; [|confirm_match].
    cbn [firstn ushioQuery In];
      intros q' [<-|[<-|[<-|[<-|[]]]]]; refute_match.
Qed.

(** X24. For every entry of the table: if the receive framer is IDLE, the
    receive queue holds exactly the bytes of that entry's command and the
    test of line 280 passes ([uartTxWrite + rLength < 15]; the transmit
    queue has sixteen cells and its cursors are in order), then one matcher
    step appends exactly the reply bytes of that entry to the bytes queued
    for transmission and clears the receive queue with both cursors at
    zero. *)
Theorem matcher_replies_to_command (q : ushioQuery_t) (st : loop_state) :
  In q ushioQuery ->
  uartRxState st = IDLE ->
  rx_queued st = query_bytes q ->
  0 <= uartTxRead st <= uartTxWrite st ->
  length (uartTxBuffer st) = 16%nat ->
  tx_has_space st q = true ->
  let st' := matcher st in
  tx_queued st' = tx_queued st ++ reply_bytes q /\
  uartTxWrite st' = uartTxWrite st + rLength q /\
  uartTxRead st' = uartTxRead st /\
  uartRxWrite st' = 0 /\ uartRxRead st' = 0 /\ rx_queued st' = [].
Proof.
  intros Hin Hs Hq Hrd Hlen Hroom; cbv zeta.
  unfold tx_has_space in Hroom; apply Z.gtb_lt in Hroom.
  destruct (table_first_match q st Hin Hq) as (W & l1 & l2 & E & Hno & Hm).
  assert (Hr : 0 <= rLength q /\ 0 < qLength q).
  { unfold ushioQuery in Hin; cbn [In] in Hin.
    destruct Hin as [<-|[<-|[<-|[<-|[<-|[]]]]]]; cbn; lia. }
  unfold matcher, matcher_on; rewrite E.
  rewrite matcher_log_first by (auto; lia); cbn [fst].
  destruct (append_reply_queued q st) as (A1 & A2 & A3); auto; try lia.
  destruct (clear_rx_fields (fst (append_reply q st)))
    as (C1 & C2 & _ & _ & _ & C6 & C7).
  rewrite tx_queued_clear_rx, C6, C7.
  unfold rx_queued; rewrite C1; repeat split; auto.
Qed.

(** C1. The transmit queue can have room for a reply that the matcher
    does not append.  On the 439th iteration of the loop run from power-on
    on [five_queries], the matcher block runs with the receive framer IDLE,
    the receive queue holding exactly the query 50 0D, the write cursor of
    the transmit queue at 12 and its read cursor at 8: the three bytes of
    the reply fit in the cells 12 to 14 of the sixteen, and the stores of
    lines 281 to 284 would queue them there, yet the test of line 280 is
    false ([15 > 12 + 3]), the transmit queue is left as it was and the
    receive queue is cleared, so that this query is never answered. *)
Theorem reply_not_appended_despite_room :
  let q := mkQuery 2 [0x50; 0x0D; 0; 0; 0] 3 [0x50; 0x46; 0x0D; 0; 0] in
  let p := nth 438 five_queries 1 in
  let s := fst (ushioLoop (firstn 438 five_queries) ushioLoop_init) in
  let st := before_matcher p s in
  let appended := fst (reply_loop (rData q) 0 (Z.to_nat (rLength q)) st []) in
  In q ushioQuery /\
  ushioLoop_body p s = matcher st /\
  uartRxState st = IDLE /\ rx_queued st = query_bytes q /\
  uartTxRead st = 8 /\ uartTxWrite st = 12 /\
  length (uartTxBuffer st) = 16%nat /\
  uartTxWrite st + rLength q < Z.of_nat (length (uartTxBuffer st)) /\
  tx_queued appended = tx_queued st ++ reply_bytes q /\
  uartTxWrite appended = 15 /\
  tx_has_space st q = false /\
  tx_queued (matcher st) = tx_queued st /\
  tx_queued (matcher st) <> tx_queued st ++ reply_bytes q /\
  uartTxBuffer (matcher st) = uartTxBuffer st /\
  uartTxWrite (matcher st) = 12 /\
  rx_queued (matcher st) = [].
Proof.
  cbv zeta.
  split; [right; right; left; reflexivity|].
  split; [unfold ushioLoop_body, before_matcher; reflexivity|].
  repeat match goal with |- _ /\ _ => split end;
    vm_compute; first [reflexivity|discriminate].
Qed.

(** ** The receive framer alone *)

Lemma sample_rx_part (l : Z) (st : loop_state) :
  sample l (rx_part st) = rx_part (sample l st).
Proof. now destruct st. Qed.

Lemma timers_rx_part (st : loop_state) :
  timers (rx_part st) = rx_part (timers st).
Proof.
  destruct st as [a b c d e f g h i j k t m n o p q r].
  unfold timers, rx_part; state_simpl; cbn [Z.eqb].
  destruct (e =? 0); state_simpl; destruct (j =? 0); state_simpl;
    destruct (t =? 0); reflexivity.
Qed.

Lemma rx_step_rx_part (st : loop_state) :
  rx_part (rx_step (rx_part st)) = rx_part (rx_step st).
Proof.
  destruct st as [a b c d e f g h i j k t m n o p q r].
  unfold rx_step, rx_part; state_simpl; cbn [Z.eqb].
  destruct (e =? 0); [|reflexivity].
  destruct c; cbn [uartState_eqb andb]; state_simpl.
  - destruct ((b =? 0) && (a =? 1)); reflexivity.
  - destruct (b =? 0); [|reflexivity]. destruct (t =? 0); reflexivity.
  - destruct (b =? 0); state_simpl;
      destruct (u8 (Z.shiftl f 1) =? 0); reflexivity.
  - reflexivity.
  - reflexivity.
Qed.

Lemma rx_framer_part (l : Z) (st : loop_state) :
  rx_part (rx_framer l st) = rx_part (rx_framer l (rx_part st)).
Proof.
  unfold rx_framer.
  now rewrite sample_rx_part, timers_rx_part, rx_step_rx_part.
Qed.

Lemma rx_feed_part (ls : list Z) : forall st,
  rx_part (rx_feed ls st) = rx_part (rx_feed ls (rx_part st)).
Proof.
  induction ls as [|l ls IH]; intros st; cbn [rx_feed].
  - now destruct st.
  - rewrite IH, rx_framer_part, <- IH; reflexivity.
Qed.

Lemma rx_feed_app (l1 l2 : list Z) (st : loop_state) :
  rx_feed (l1 ++ l2) st = rx_feed l2 (rx_feed l1 st).
Proof. revert st; induction l1; intros; cbn [rx_feed app]; auto. Qed.

Lemma rx_part_state (st : loop_state) :
  rx_part st =
  rx_state (rxLastBit st) (rxBit st) (uartRxState st) (rxParity st)
           (rxTick st) (readBit st) (uartRxBuffer st) (uartRxWrite st).
Proof. reflexivity. Qed.

(** The line idles high: only the sample is recorded. *)
Lemma rx_idle_high last bit par rb buf w :
  rx_part (rx_feed [1] (rx_state last bit IDLE par 0 rb buf w)) =
  rx_state bit 1 IDLE par 0 rb buf w.
Proof. reflexivity. Qed.

(** The start bit, seen from an idle line that was high. *)
Lemma rx_start_bit last par rb buf w :
  rx_part (rx_feed (rep4 0) (rx_state last 1 IDLE par 0 rb buf w)) =
  rx_state 0 0 DATA 0 2 1 (store buf w 0) w.
Proof. reflexivity. Qed.

(** Data bit [k]: sampled on the second iteration of its period. *)
Lemma rx_data_bit_raw (k : nat) (b pb : bool) last bit buf w :
  (k < 8)%nat ->
  rx_part (rx_feed (rep4 (Z.b2z b))
                   (rx_state last bit DATA (Z.b2z pb) 2 (2 ^ Z.of_nat k)
                             buf w)) =
  rx_state (Z.b2z b) (Z.b2z b) (if (k =? 7)%nat then PARITY else DATA)
           (Z.b2z (xorb pb b)) 2 (u8 (2 ^ Z.of_nat (S k)))
           (if b then store buf w (Z.lor (load buf w) (2 ^ Z.of_nat k))
            else buf)
           (if (k =? 7)%nat then Z.land (w + 1) UARTRXMASK else w).
Proof.
  intros Hk.
  do 8 (destruct k as [|k]; [destruct b, pb; reflexivity|]); lia.
Qed.

(** The parity bit: sampled, compared with nothing, then STOP. *)
Lemma rx_parity_bit (x : Z) last bit par rb buf w :
  rx_part (rx_feed (rep4 x) (rx_state last bit PARITY par 2 rb buf w)) =
  rx_state (Z.land x RXPIN) (Z.land x RXPIN) STOP par 2 rb buf w.
Proof. reflexivity. Qed.

(** The stop bit: after its second iteration the framer is IDLE again with
    [rxTick = 0], whatever the two levels were. *)
Lemma rx_stop_bit (s1 s2 : Z) last bit par rb buf w :
  rx_part (rx_feed [s1; s2] (rx_state last bit STOP par 2 rb buf w)) =
  rx_state (Z.land s1 RXPIN) (Z.land s2 RXPIN) IDLE par 0 rb buf w.
Proof. reflexivity. Qed.

Lemma rx_chain (l1 l2 : list Z) (st st1 : loop_state) :
  rx_part (rx_feed l1 st) = st1 ->
  rx_part (rx_feed (l1 ++ l2) st) = rx_part (rx_feed l2 st1).
Proof. intros <-; now rewrite rx_feed_app, rx_feed_part. Qed.

(** ** Bytes by cases *)

Lemma byte_cases (P : Z -> bool) :
  forallb P all_bytes = true -> forall v, 0 <= v < 256 -> P v = true.
Proof.
  intros H v Hv; rewrite forallb_forall in H; apply H.
  unfold all_bytes; replace v with (Z.of_nat (Z.to_nat v)) by lia.
  apply in_map, in_seq; lia.
Qed.

Lemma or_bits_byte (v : Z) : 0 <= v < 256 -> or_bits v = v.
Proof.
  intros Hv; apply Z.eqb_eq.
  apply (byte_cases (fun v => or_bits v =? v)); [|exact Hv].
  vm_compute; reflexivity.
Qed.

Lemma store_or_bit (b : bool) (buf : list Z) (w a m : Z) :
  0 <= w < Z.of_nat (length buf) ->
  (if b then store (store buf w a) w (Z.lor (load (store buf w a) w) m)
   else store buf w a) = store buf w (or_bit b m a).
Proof.
  intros Hw; destruct b; cbn [or_bit]; auto.
  now rewrite load_store_same, store_store_same.
Qed.

Lemma rx_data_bit (k : nat) (b pb : bool) last bit buf w a :
  (k < 8)%nat -> 0 <= w < Z.of_nat (length buf) ->
  rx_part (rx_feed (rep4 (Z.b2z b))
                   (rx_state last bit DATA (Z.b2z pb) 2 (2 ^ Z.of_nat k)
                             (store buf w a) w)) =
  rx_state (Z.b2z b) (Z.b2z b) (if (k =? 7)%nat then PARITY else DATA)
           (Z.b2z (xorb pb b)) 2 (u8 (2 ^ Z.of_nat (S k)))
           (store buf w (or_bit b (2 ^ Z.of_nat k) a))
           (if (k =? 7)%nat then Z.land (w + 1) UARTRXMASK else w).
Proof.
  intros Hk Hw; rewrite rx_data_bit_raw by assumption.
  now rewrite store_or_bit.
Qed.

Ltac rx_data_step k Hw :=
  match goal with
  | |- rx_part (rx_feed (rep4 (Z.b2z ?b) ++ ?rest)
                  (rx_state ?l ?bt DATA (Z.b2z ?pb) 2 _ (store ?buf ?w ?a) ?w))
       = _ =>
    etransitivity;
    [exact (rx_chain _ rest _ _
              (rx_data_bit k b pb l bt buf w a ltac:(lia) Hw))|];
    cbn [Nat.eqb]
  end.

(** Start bit, data bits and parity period of a frame. *)
Lemma rx_frame_body (v x : Z) last par rb buf w :
  0 <= v < 256 -> 0 <= w < Z.of_nat (length buf) ->
  rx_part (rx_feed (rep4 0 ++ levels (data_bits v) ++ rep4 x)
                   (rx_state last 1 IDLE par 0 rb buf w)) =
  rx_state (Z.land x RXPIN) (Z.land x RXPIN) STOP (Z.b2z (parity_of v)) 2 0
           (store buf w v) (Z.land (w + 1) UARTRXMASK).
Proof.
  intros Hv Hw.
  rewrite (rx_chain _ _ _ _ (rx_start_bit _ _ _ _ _)).
  unfold levels, data_bits; cbn [seq map flat_map Z.of_nat Pos.of_succ_nat
                                  Pos.succ].
  rewrite <- !app_assoc.
  change (rx_state 0 0 DATA 0 2 1) with (rx_state 0 0 DATA (Z.b2z false) 2 1).
  rx_data_step 0%nat Hw. rx_data_step 1%nat Hw. rx_data_step 2%nat Hw.
  rx_data_step 3%nat Hw. rx_data_step 4%nat Hw. rx_data_step 5%nat Hw.
  rx_data_step 6%nat Hw. rx_data_step 7%nat Hw.
  rewrite app_nil_l, <- (app_nil_r (rep4 x)).
  rewrite (rx_chain _ _ _ _ (rx_parity_bit _ _ _ _ _ _ _)).
  cbn [rx_feed]; unfold rx_part, rx_state; state_simpl.
  change (or_bit _ _ _) with (or_bits v).
  rewrite or_bits_byte by assumption.
  reflexivity.
Qed.

Lemma rx_idle_at_part (st : loop_state) buf w :
  rx_idle_at st buf w ->
  rx_part st = rx_state (rxLastBit st) 1 IDLE (rxParity st) 0 (readBit st)
                        buf w.
Proof.
  intros ((H1 & H2 & H3 & H4) & H5); rewrite rx_part_state.
  now rewrite H1, H2, H3, H4, H5.
Qed.

Lemma rx_idle_q_of_part (st : loop_state) last bit par rb buf w :
  rx_part st = rx_state last bit IDLE par 0 rb buf w ->
  rx_idle_q st buf w /\ rxBit st = bit.
Proof.
  destruct st; unfold rx_part, rx_state; state_simpl.
  intros H; injection H as -> -> -> -> -> -> -> ->.
  repeat split.
Qed.

Lemma rxpin_level (s : Z) : Z.land s RXPIN = 0 \/ Z.land s RXPIN = 1.
Proof.
  unfold RXPIN; change 1 with (Z.ones 1) at 1 2.
  rewrite Z.land_ones by lia.
  assert (0 <= s mod 2 ^ 1 < 2) by (apply Z.mod_pos_bound; lia); lia.
Qed.

(** A level held while the framer is IDLE gives no falling edge. *)
Lemma rx_idle_hold (s : Z) last par rb buf w :
  rx_part (rx_feed [s] (rx_state last (Z.land s RXPIN) IDLE par 0 rb buf w)) =
  rx_state (Z.land s RXPIN) (Z.land s RXPIN) IDLE par 0 rb buf w.
Proof.
  cbn [rx_feed]; unfold rx_framer, sample.
  destruct (rxpin_level s) as [-> | ->]; reflexivity.
Qed.

(** A whole frame, with any levels in the parity and stop periods. *)
Lemma rx_frame_any (v x s : Z) (st : loop_state) buf w :
  0 <= v < 256 -> 0 <= w < Z.of_nat (length buf) ->
  rx_idle_at st buf w ->
  rx_idle_q (rx_feed (frame_with v x s) st)
            (store buf w v) (Z.land (w + 1) UARTRXMASK) /\
  rxBit (rx_feed (frame_with v x s) st) = Z.land s RXPIN.
Proof.
  intros Hv Hw Hst.
  apply rx_idle_q_of_part
    with (last := Z.land s RXPIN) (par := Z.b2z (parity_of v)) (rb := 0).
  rewrite rx_feed_part, (rx_idle_at_part _ _ _ Hst).
  unfold frame_with.
  replace (rep4 0 ++ levels (data_bits v) ++ rep4 x ++ rep4 s)
    with ((rep4 0 ++ levels (data_bits v) ++ rep4 x)
            ++ [s; s] ++ [s] ++ [s])
    by (now rewrite <- !app_assoc).
  rewrite (rx_chain _ _ _ _ (rx_frame_body v x _ _ _ _ _ Hv Hw)).
  rewrite (rx_chain _ _ _ _ (rx_stop_bit _ _ _ _ _ _ _ _)).
  rewrite (rx_chain _ _ _ _ (rx_idle_hold _ _ _ _ _ _)).
  apply rx_idle_hold.
Qed.

(** A frame of the wire format leaves the framer ready for the next. *)
Lemma rx_frame_idle (v : Z) (st : loop_state) buf w :
  0 <= v < 256 -> 0 <= w < Z.of_nat (length buf) ->
  rx_idle_at st buf w ->
  rx_idle_at (rx_feed (wire_frame v) st)
             (store buf w v) (Z.land (w + 1) UARTRXMASK).
Proof.
  intros Hv Hw Hst.
  destruct (rx_frame_any v (Z.b2z (parity_of v)) 1 st buf w Hv Hw Hst)
    as [H1 H2].
  split; [exact H1|exact H2].
Qed.

Lemma rx_idle_highs (n : nat) : forall (st : loop_state) buf w,
  rx_idle_at st buf w -> rx_idle_at (rx_feed (repeat 1 n) st) buf w.
Proof.
  induction n as [|n IH]; intros st buf w Hst; [exact Hst|].
  cbn [repeat rx_feed]; apply IH.
  destruct (rx_idle_q_of_part (rx_framer 1 st) (rxBit st) 1
              (rxParity st) (readBit st) buf w) as (H1 & H2);
    [|split; auto].
  rewrite rx_framer_part, (rx_idle_at_part _ _ _ Hst).
  destruct Hst as (_ & ->); apply (rx_idle_hold 1).
Qed.

Lemma land_mask15 (x : Z) : Z.land x 15 = x mod 16.
Proof. change 15 with (Z.ones 4); now rewrite Z.land_ones by lia. Qed.

Lemma rx_frames_idle (bs : list Z) : forall (st : loop_state) buf w,
  Forall (fun v => 0 <= v < 256) bs ->
  0 <= w < 16 -> length buf = 16%nat ->
  rx_idle_at st buf w ->
  rx_idle_at (rx_feed (flat_map wire_frame bs) st)
             (fst (rx_push bs buf w)) (snd (rx_push bs buf w)).
Proof.
  induction bs as [|v bs IH]; intros st buf w Hb Hw Hlen Hst; [exact Hst|].
  inversion Hb as [|? ? Hv Hbs]; subst.
  cbn [flat_map rx_push]; rewrite rx_feed_app.
  apply IH; auto.
  - unfold UARTRXMASK; rewrite land_mask15.
    apply Z.mod_pos_bound; lia.
  - now rewrite store_length.
  - apply rx_frame_idle; auto; lia.
Qed.

Lemma rx_push_nowrap (bs : list Z) : forall buf w,
  0 <= w -> w + Z.of_nat (length bs) <= 15 -> length buf = 16%nat ->
  snd (rx_push bs buf w) = w + Z.of_nat (length bs) /\
  slice (fst (rx_push bs buf w)) w (length bs) = bs /\
  (forall i, i < w -> load (fst (rx_push bs buf w)) i = load buf i).
Proof.
  induction bs as [|v bs IH]; intros buf w Hw Hn Hlen.
  - cbn; repeat split; auto; lia.
  - cbn [rx_push length slice]; cbn [length] in Hn.
    assert (E : Z.land (w + 1) UARTRXMASK = w + 1).
    { unfold UARTRXMASK; rewrite land_mask15; apply Z.mod_small; lia. }
    rewrite E.
    destruct (IH (store buf w v) (w + 1)) as (I1 & I2 & I3);
      rewrite ?store_length; try lia.
    split; [lia|]; split.
    + rewrite I2, I3 by lia; f_equal.
      apply load_store_same; lia.
    + intros i Hi; rewrite I3 by lia.
      apply load_store_other; lia.
Qed.

(** ** The transmit framer alone *)

Lemma tx_part_state (st : loop_state) :
  tx_part st =
  tx_state (txBit st) (uartTxState st) (txParity st) (txTick st)
           (writeBit st) (uartTxBuffer st) (uartTxWrite st) (uartTxRead st).
Proof. reflexivity. Qed.

Lemma timers_tx_part (st : loop_state) :
  timers (tx_part st) = tx_part (timers st).
Proof.
  destruct st as [a b c d e f g h i j k t m n o p q r].
  unfold timers, tx_part; state_simpl; cbn [Z.eqb].
  destruct (e =? 0); state_simpl; destruct (j =? 0); state_simpl;
    destruct (t =? 0); reflexivity.
Qed.

Lemma tx_step_tx_part (st : loop_state) :
  tx_step (tx_part st) = tx_part (tx_step st).
Proof.
  destruct st as [a b c d e f g h i j k t m n o p q r].
  unfold tx_step, tx_part; state_simpl.
  destruct (j =? 0); [|reflexivity].
  destruct h; cbn [uartState_eqb]; state_simpl; try reflexivity.
  destruct (Z.land (load p r) k =? 0); state_simpl;
    destruct (u8 (Z.shiftl k 1) =? 0); reflexivity.
Qed.

Lemma tx_schedule_tx_part (st : loop_state) :
  tx_schedule (tx_part st) = tx_part (tx_schedule st).
Proof.
  destruct st as [a b c d e f g h i j k t m n o p q r].
  unfold tx_schedule, tx_part; state_simpl.
  destruct h; cbn [uartState_eqb]; try reflexivity.
  destruct (r <? q); reflexivity.
Qed.

Lemma tx_framer_part (st : loop_state) :
  tx_framer (tx_part st) = tx_part (tx_framer st).
Proof.
  unfold tx_framer.
  now rewrite timers_tx_part, tx_step_tx_part, tx_schedule_tx_part.
Qed.

Lemma tx_run_part (n : nat) : forall st,
  tx_run n (tx_part st) = tx_part (tx_run n st).
Proof.
  induction n as [|n IH]; intros st; cbn [tx_run]; auto.
  now rewrite tx_framer_part, IH.
Qed.

Lemma tx_line_part (n : nat) : forall st,
  tx_line n (tx_part st) = tx_line n st.
Proof.
  induction n as [|n IH]; intros st; cbn [tx_line]; auto.
  now rewrite tx_framer_part, IH.
Qed.

Lemma tx_run_add (n m : nat) : forall st,
  tx_run (n + m) st = tx_run m (tx_run n st).
Proof. induction n; intros; cbn [tx_run Nat.add]; auto. Qed.

Lemma tx_line_add (n m : nat) : forall st,
  tx_line (n + m) st = tx_line n st ++ tx_line m (tx_run n st).
Proof.
  induction n as [|n IH]; intros; cbn [tx_line tx_run Nat.add app]; auto.
  now rewrite IH.
Qed.

Section TxPhases.

#[local] Arguments Z.land : simpl never.
#[local] Arguments Z.ltb : simpl never.
#[local] Arguments load : simpl never.

(** An iteration in which the transmit framer only counts down. *)
Lemma tx_wait (x : Z) (s : uartState_t) par t wb buf wr rd :
  s <> IDLE -> t <> 0 -> t <> 1 ->
  tx_framer (tx_state x s par t wb buf wr rd) =
  tx_state x s par (t - 1) wb buf wr rd.
Proof.
  intros Hs H0 H1.
  assert (E : timers (tx_state x s par t wb buf wr rd) =
              tx_state x s par (t - 1) wb buf wr rd).
  { unfold timers, tx_state; state_simpl; cbn [Z.eqb]; state_simpl.
    apply Z.eqb_neq in H0; rewrite H0; state_simpl; reflexivity. }
  unfold tx_framer; rewrite E.
  unfold tx_schedule, tx_step, tx_state; state_simpl.
  assert (H2 : (t - 1 =? 0) = false) by (apply Z.eqb_neq; lia).
  rewrite H2.
  destruct s; try contradiction; reflexivity.
Qed.

(** The iterations in which [txTick] reaches zero, by state. *)
Lemma tx_fire_start (x : Z) par wb buf wr rd :
  tx_framer (tx_state x START par 1 wb buf wr rd) =
  tx_state 0 DATA 0 4 1 buf wr rd.
Proof. reflexivity. Qed.

Lemma tx_fire_data_mask (pb c : bool) (x wb : Z) buf wr rd :
  (Z.land (load buf rd) wb =? 0) = negb c ->
  tx_framer (tx_state x DATA (Z.b2z pb) 1 wb buf wr rd) =
  if u8 (Z.shiftl wb 1) =? 0 then
    tx_state (Z.b2z c) PARITY (Z.b2z (xorb pb c)) 4 (u8 (Z.shiftl wb 1))
             buf wr (Z.land (rd + 1) UARTTXMASK)
  else
    tx_state (Z.b2z c) DATA (Z.b2z (xorb pb c)) 4 (u8 (Z.shiftl wb 1))
             buf wr rd.
Proof.
  intros E.
  unfold tx_framer.
  change (timers (tx_state x DATA (Z.b2z pb) 1 wb buf wr rd))
    with (tx_state x DATA (Z.b2z pb) 0 wb buf wr rd).
  unfold tx_step, tx_state; state_simpl.
  cbn [Z.eqb uartState_eqb]; state_simpl; rewrite E.
  destruct c; cbn [negb]; state_simpl;
    destruct (u8 (Z.shiftl wb 1) =? 0); destruct pb; reflexivity.
Qed.

Lemma tx_fire_data (k : nat) (pb c : bool) (x : Z) buf wr rd :
  (k < 8)%nat ->
  (Z.land (load buf rd) (2 ^ Z.of_nat k) =? 0) = negb c ->
  tx_framer (tx_state x DATA (Z.b2z pb) 1 (2 ^ Z.of_nat k) buf wr rd) =
  tx_state (Z.b2z c) (if (k =? 7)%nat then PARITY else DATA)
           (Z.b2z (xorb pb c)) 4 (u8 (2 ^ Z.of_nat (S k))) buf wr
           (if (k =? 7)%nat then Z.land (rd + 1) UARTTXMASK else rd).
Proof.
  intros Hk E; rewrite (tx_fire_data_mask pb c) by exact E.
  do 8 (destruct k as [|k]; [reflexivity|]).
  lia.
Qed.

Lemma tx_fire_parity (x : Z) par wb buf wr rd :
  tx_framer (tx_state x PARITY par 1 wb buf wr rd) =
  tx_state par STOP par 4 wb buf wr rd.
Proof. reflexivity. Qed.

Lemma tx_fire_stop (x : Z) (s : uartState_t) par wb buf wr rd :
  s = STOP \/ s = IDLE ->
  tx_framer (tx_state x s par 1 wb buf wr rd) =
  if rd <? wr then tx_state 1 START par 4 wb buf wr rd
  else tx_state 1 IDLE par 4 wb buf 0 0.
Proof.
  intros [-> | ->];
    unfold tx_framer, tx_schedule, tx_step, timers, tx_state; cbn;
    destruct (rd <? wr); reflexivity.
Qed.

End TxPhases.

Lemma land_pow2_testbit (v : Z) (k : nat) :
  (Z.land v (2 ^ Z.of_nat k) =? 0) = negb (Z.testbit v (Z.of_nat k)).
Proof.
  destruct (Z.testbit v (Z.of_nat k)) eqn:T; cbn [negb].
  - apply Z.eqb_neq; intros H.
    apply (f_equal (fun z => Z.testbit z (Z.of_nat k))) in H.
    rewrite Z.land_spec, T, Z.pow2_bits_true, Z.bits_0 in H by lia.
    discriminate.
  - apply Z.eqb_eq, Z.bits_inj'; intros n Hn.
    rewrite Z.land_spec, Z.bits_0, Z.pow2_bits_eqb by lia.
    destruct (Z.eqb_spec (Z.of_nat k) n) as [<-|];
      [now rewrite T|apply andb_false_r].
Qed.

(** One bit period of the transmit framer: the level set by the previous
    period is on the line for four iterations and the fourth runs the
    branch of the current state. *)
Lemma tx_period (b : bool) (s : uartState_t) par wb buf wr rd
    (st1 : loop_state) (n : nat) (out : list Z) (fin : loop_state) :
  s <> IDLE ->
  tx_framer (tx_state (Z.b2z b) s par 1 wb buf wr rd) = st1 ->
  tx_line n st1 = out /\ tx_run n st1 = fin ->
  tx_line (4 + n) (tx_state (Z.b2z b) s par 4 wb buf wr rd) =
    rep4 (Z.b2z b) ++ out /\
  tx_run (4 + n) (tx_state (Z.b2z b) s par 4 wb buf wr rd) = fin.
Proof.
  intros Hs Hf [Hl Hr].
  assert (W : tx_run 3 (tx_state (Z.b2z b) s par 4 wb buf wr rd) =
              tx_state (Z.b2z b) s par 1 wb buf wr rd).
  { cbn [tx_run]; rewrite !tx_wait by (auto; lia); reflexivity. }
  assert (L : tx_line 4 (tx_state (Z.b2z b) s par 4 wb buf wr rd) =
              rep4 (Z.b2z b)).
  { cbn [tx_line]; rewrite !tx_wait by (auto; lia).
    now destruct b. }
  rewrite tx_line_add, tx_run_add, L.
  change 4%nat with (3 + 1)%nat; rewrite tx_run_add, W.
  cbn [tx_run]; rewrite Hf, Hl; auto.
Qed.

Lemma tx_drained_step (st : loop_state) :
  tx_drained st -> txd_level st = 1 /\ tx_drained (tx_framer st).
Proof.
  destruct st as [a b c d e f g h i j k t m n o p q r].
  unfold tx_drained, txd_level; state_simpl; intros (-> & Hg & -> & ->).
  split; [apply Z.eqb_neq in Hg; now rewrite Hg|].
  unfold tx_framer, timers; state_simpl.
  destruct (e =? 0); state_simpl; destruct (j =? 0) eqn:J; state_simpl;
    destruct (t =? 0); state_simpl; unfold tx_step; state_simpl;
    try rewrite J; try destruct (j - 1 =? 0); cbn; repeat split; auto;
    discriminate.
Qed.

Lemma tx_drained_line (m : nat) : forall st,
  tx_drained st -> tx_line m st = repeat 1 m /\ tx_drained (tx_run m st).
Proof.
  induction m as [|m IH]; intros st Hst; [split; auto|].
  destruct (tx_drained_step st Hst) as [L D].
  cbn [tx_line tx_run repeat]; rewrite L.
  destruct (IH _ D) as [-> D']; auto.
Qed.

(** Start bit and data bits of one byte: thirty-six iterations, the last
    of which runs the PARITY branch. *)
Lemma tx_frame_data (buf : list Z) (wr rd : Z) :
  let v := load buf rd in
  tx_line 36 (tx_begin buf wr rd) = rep4 0 ++ levels (data_bits v) /\
  tx_run 36 (tx_begin buf wr rd) =
  tx_state (Z.b2z (parity_of v)) STOP (Z.b2z (parity_of v)) 4 0 buf wr
           (Z.land (rd + 1) UARTTXMASK).
Proof.
  cbv zeta; unfold tx_begin, levels, data_bits.
  cbn [seq map flat_map].
  set (v := load buf rd).
  eapply (tx_period false DATA); [discriminate| |].
  { apply (tx_fire_data 0 false (Z.testbit v 0)); [lia|].
    apply land_pow2_testbit. }
  cbn [Nat.eqb].
  eapply (tx_period _ DATA); [discriminate| |].
  { apply (tx_fire_data 1 _ (Z.testbit v 1)); [lia|].
    apply land_pow2_testbit. }
  cbn [Nat.eqb].
  eapply (tx_period _ DATA); [discriminate| |].
  { apply (tx_fire_data 2 _ (Z.testbit v 2)); [lia|].
    apply land_pow2_testbit. }
  cbn [Nat.eqb].
  eapply (tx_period _ DATA); [discriminate| |].
  { apply (tx_fire_data 3 _ (Z.testbit v 3)); [lia|].
    apply land_pow2_testbit. }
  cbn [Nat.eqb].
  eapply (tx_period _ DATA); [discriminate| |].
  { apply (tx_fire_data 4 _ (Z.testbit v 4)); [lia|].
    apply land_pow2_testbit. }
  cbn [Nat.eqb].
  eapply (tx_period _ DATA); [discriminate| |].
  { apply (tx_fire_data 5 _ (Z.testbit v 5)); [lia|].
    apply land_pow2_testbit. }
  cbn [Nat.eqb].
  eapply (tx_period _ DATA); [discriminate| |].
  { apply (tx_fire_data 6 _ (Z.testbit v 6)); [lia|].
    apply land_pow2_testbit. }
  cbn [Nat.eqb].
  eapply (tx_period _ DATA); [discriminate| |].
  { apply (tx_fire_data 7 _ (Z.testbit v 7)); [lia|].
    apply land_pow2_testbit. }
  cbn [Nat.eqb].
  eapply (tx_period _ PARITY); [discriminate|apply tx_fire_parity|].
  split; reflexivity.
Qed.

(** The forty-four iterations of one byte. *)
Lemma tx_frame (buf : list Z) (wr rd : Z) :
  let v := load buf rd in
  let rd' := Z.land (rd + 1) UARTTXMASK in
  tx_line 44 (tx_begin buf wr rd) = wire_frame v /\
  tx_run 44 (tx_begin buf wr rd) =
  if rd' <? wr then tx_begin buf wr rd'
  else tx_state 1 IDLE (Z.b2z (parity_of v)) 4 0 buf 0 0.
Proof.
  cbv zeta; set (v := load buf rd).
  destruct (tx_frame_data buf wr rd) as [L R]; fold v in L, R.
  change 44%nat with (36 + 8)%nat.
  rewrite tx_line_add, tx_run_add, L, R.
  unfold wire_frame, frame_with; rewrite !app_assoc, <- app_assoc.
  assert (H : tx_line 8 (tx_state (Z.b2z (parity_of v)) STOP
                           (Z.b2z (parity_of v)) 4 0 buf wr
                           (Z.land (rd + 1) UARTTXMASK)) =
              rep4 (Z.b2z (parity_of v)) ++ rep4 1 /\
              tx_run 8 (tx_state (Z.b2z (parity_of v)) STOP
                          (Z.b2z (parity_of v)) 4 0 buf wr
                          (Z.land (rd + 1) UARTTXMASK)) =
              if Z.land (rd + 1) UARTTXMASK <? wr
              then tx_begin buf wr (Z.land (rd + 1) UARTTXMASK)
              else tx_state 1 IDLE (Z.b2z (parity_of v)) 4 0 buf 0 0).
  { eapply (tx_period _ STOP);
      [discriminate|apply tx_fire_stop; now left|].
    rewrite <- (app_nil_r (rep4 1)).
    destruct (Z.land (rd + 1) UARTTXMASK <? wr).
    - eapply (tx_period true START); [discriminate|apply tx_fire_start|].
      split; reflexivity.
    - change (rep4 1 ++ []) with (repeat 1 4).
      destruct (tx_drained_line 4
                  (tx_state 1 IDLE (Z.b2z (parity_of v)) 4 0 buf 0 0))
        as [L' _]; [repeat split; discriminate|].
      split; [exact L'|reflexivity]. }
  destruct H as [-> ->]; split; reflexivity.
Qed.

(** The frames of the bytes from [rd] up to the write cursor, then the
    line at rest. *)
Lemma tx_frames (k : nat) : forall buf wr rd (m : nat),
  0 <= rd -> rd + Z.of_nat (S k) = wr -> wr <= 15 ->
  tx_line (44 * S k + m) (tx_begin buf wr rd) =
    flat_map wire_frame (slice buf rd (S k)) ++ repeat 1 m /\
  tx_drained (tx_run (44 * S k + m) (tx_begin buf wr rd)).
Proof.
  induction k as [|k IH]; intros buf wr rd m Hrd Hwr H15;
    destruct (tx_frame buf wr rd) as [L R];
    assert (E : Z.land (rd + 1) UARTTXMASK = rd + 1)
      by (unfold UARTTXMASK; rewrite land_mask15; apply Z.mod_small; lia);
    rewrite E in R.
  - replace (44 * 1 + m)%nat with (44 + m)%nat by lia.
    rewrite tx_line_add, tx_run_add, L, R.
    destruct (Z.ltb_spec (rd + 1) wr); [lia|].
    destruct (tx_drained_line m
                (tx_state 1 IDLE (Z.b2z (parity_of (load buf rd))) 4 0
                          buf 0 0)) as [-> D];
      [repeat split; discriminate|].
    cbn [slice flat_map]; rewrite app_nil_r; auto.
  - replace (44 * S (S k) + m)%nat with (44 + (44 * S k + m))%nat by lia.
    rewrite tx_line_add, tx_run_add, L, R.
    destruct (Z.ltb_spec (rd + 1) wr); [|lia].
    destruct (IH buf wr (rd + 1) m) as [-> D]; try lia.
    split; [|exact D].
    change (slice buf rd (S (S k)))
      with (load buf rd :: slice buf (rd + 1) (S k)).
    cbn [flat_map]; now rewrite <- app_assoc.
Qed.

Lemma tx_line_S (n : nat) (st : loop_state) :
  tx_line (S n) st = txd_level st :: tx_line n (tx_framer st).
Proof. reflexivity. Qed.

Lemma tx_run_S (n : nat) (st : loop_state) :
  tx_run (S n) st = tx_run n (tx_framer st).
Proof. reflexivity. Qed.

(** The first five iterations of a transmit framer that is IDLE with
    bytes queued: the line stays high and the START branch runs. *)
Lemma tx_kick (x : Z) par wb buf wr rd :
  x <> 0 -> rd < wr ->
  tx_line 5 (tx_state x IDLE par 0 wb buf wr rd) = repeat 1 5 /\
  tx_run 5 (tx_state x IDLE par 0 wb buf wr rd) = tx_begin buf wr rd.
Proof.
  intros Hx Hrd.
  assert (F : tx_framer (tx_state x IDLE par 0 wb buf wr rd) =
              tx_state (Z.b2z true) START par 4 wb buf wr rd).
  { unfold tx_framer, tx_schedule, tx_step, timers, tx_state; cbn.
    destruct (Z.ltb_spec rd wr); [reflexivity|lia]. }
  destruct (tx_period true START par wb buf wr rd (tx_begin buf wr rd)
              0 [] (tx_begin buf wr rd)) as [L R];
    [discriminate|apply tx_fire_start|split; reflexivity|].
  change (4 + 0)%nat with 4%nat in L, R.
  rewrite tx_line_S, tx_run_S, F, L, R.
  unfold txd_level, tx_state; state_simpl.
  apply Z.eqb_neq in Hx; rewrite Hx; split; reflexivity.
Qed.

(** An IDLE transmit framer with bytes queued that does not fire: the
    START state is scheduled and the count goes on. *)
Lemma tx_idle_schedule (x : Z) par t wb buf wr rd :
  t <> 0 -> t <> 1 -> rd < wr ->
  tx_framer (tx_state x IDLE par t wb buf wr rd) =
  tx_state x START par (t - 1) wb buf wr rd.
Proof.
  intros H0 H1 Hr.
  assert (E : timers (tx_state x IDLE par t wb buf wr rd) =
              tx_state x IDLE par (t - 1) wb buf wr rd).
  { unfold timers, tx_state; state_simpl; cbn [Z.eqb]; state_simpl.
    apply Z.eqb_neq in H0; rewrite H0; state_simpl; reflexivity. }
  unfold tx_framer; rewrite E.
  unfold tx_schedule, tx_step, tx_state; state_simpl.
  assert (H2 : (t - 1 =? 0) = false) by (apply Z.eqb_neq; lia).
  rewrite H2; cbn [uartState_eqb]; state_simpl.
  destruct (Z.ltb_spec rd wr); [reflexivity|lia].
Qed.

(** The iterations before the start bit, for every value of [txTick]. *)
Lemma tx_kick_any (x t : Z) par wb buf wr rd :
  x <> 0 -> rd < wr -> 0 <= t <= 4 ->
  tx_line (tx_lead t) (tx_state x IDLE par t wb buf wr rd) =
    repeat 1 (tx_lead t) /\
  tx_run (tx_lead t) (tx_state x IDLE par t wb buf wr rd) =
    tx_begin buf wr rd.
Proof.
  intros Hx Hrd Ht.
  assert (L : forall s p t',
             txd_level (tx_state x s p t' wb buf wr rd) = 1).
  { intros; unfold txd_level, tx_state; state_simpl.
    apply Z.eqb_neq in Hx; now rewrite Hx. }
  assert (C : t = 0 \/ t = 1 \/ t = 2 \/ t = 3 \/ t = 4) by lia.
  destruct C as [->|[->|[->|[->| ->]]]].
  - apply tx_kick; assumption.
  - change (tx_lead 1) with 5%nat.
    assert (F : tx_framer (tx_state x IDLE par 1 wb buf wr rd) =
                tx_state (Z.b2z true) START par 4 wb buf wr rd).
    { rewrite tx_fire_stop by (right; reflexivity).
      destruct (Z.ltb_spec rd wr); [reflexivity|lia]. }
    destruct (tx_period true START par wb buf wr rd (tx_begin buf wr rd)
                0 [] (tx_begin buf wr rd)) as [Li R];
      [discriminate|apply tx_fire_start|split; reflexivity|].
    change (4 + 0)%nat with 4%nat in Li, R.
    rewrite tx_line_S, tx_run_S, F, Li, R, L; split; reflexivity.
  - change (tx_lead 2) with 2%nat.
    rewrite !tx_line_S, !tx_run_S.
    rewrite tx_idle_schedule by (auto; lia).
    change (2 - 1) with 1; rewrite tx_fire_start, !L.
    split; reflexivity.
  - change (tx_lead 3) with 3%nat.
    rewrite !tx_line_S, !tx_run_S.
    rewrite tx_idle_schedule by (auto; lia).
    change (3 - 1) with 2.
    rewrite tx_wait by (try discriminate; lia).
    change (2 - 1) with 1; rewrite tx_fire_start, !L.
    split; reflexivity.
  - change (tx_lead 4) with 4%nat.
    rewrite !tx_line_S, !tx_run_S.
    rewrite tx_idle_schedule by (auto; lia).
    change (4 - 1) with 3.
    rewrite tx_wait by (try discriminate; lia).
    change (3 - 1) with 2.
    rewrite tx_wait by (try discriminate; lia).
    change (2 - 1) with 1; rewrite tx_fire_start, !L.
    split; reflexivity.
Qed.

Lemma tx_lead_bounds (t : Z) : 0 <= t <= 4 -> (2 <= tx_lead t <= 5)%nat.
Proof.
  intros H; unfold tx_lead; destruct (Z.leb_spec t 1); lia.
Qed.

(** The line produced from a ready transmit framer: two to five
    iterations high, one frame per queued byte, then high for ever. *)
Lemma tx_stream (st : loop_state) (m : nat) :
  tx_ready st ->
  tx_line (tx_lead (txTick st) + 44 * length (tx_queued st) + m) st =
    repeat 1 (tx_lead (txTick st)) ++
    flat_map wire_frame (tx_queued st) ++ repeat 1 m /\
  tx_drained (tx_run (tx_lead (txTick st) + 44 * length (tx_queued st) + m)
                     st).
Proof.
  intros (Hs & Ht & Hx & Hrd & Hwr).
  unfold tx_queued; rewrite slice_length, Hrd, Z.sub_0_r.
  rewrite <- tx_line_part.
  assert (D : forall n, tx_drained (tx_run n st) <->
                        tx_drained (tx_run n (tx_part st))).
  { intros n; rewrite tx_run_part; now destruct (tx_run n st). }
  rewrite D, tx_part_state, Hs, Hrd.
  destruct (Z.to_nat (uartTxWrite st)) as [|k] eqn:E.
  - assert (W : uartTxWrite st = 0) by lia; rewrite W.
    rewrite Nat.mul_0_r, Nat.add_0_r.
    cbn [slice flat_map app]; rewrite <- repeat_app.
    apply tx_drained_line; repeat split; assumption.
  - rewrite <- Nat.add_assoc.
    destruct (tx_kick_any (txBit st) (txTick st) (txParity st) (writeBit st)
                (uartTxBuffer st) (uartTxWrite st) 0 Hx) as [L R];
      [lia|exact Ht|].
    rewrite tx_line_add, tx_run_add, L, R.
    destruct (tx_frames k (uartTxBuffer st) (uartTxWrite st) 0 m)
      as [-> F]; try lia.
    split; [reflexivity|exact F].
Qed.

Lemma rx_idle_first (st : loop_state) buf w :
  rx_idle_q st buf w -> rx_idle_at (rx_feed [1] st) buf w.
Proof.
  intros (H1 & H2 & H3 & H4).
  destruct (rx_idle_q_of_part (rx_feed [1] st) (rxBit st) 1 (rxParity st)
              (readBit st) buf w) as [Q B]; [|split; assumption].
  rewrite rx_feed_part, (rx_part_state st), H1, H2, H3, H4.
  apply rx_idle_high.
Qed.

(** Frames of any number of bytes received from a ready receive framer:
    every byte is committed, in order, at the successive positions of the
    write cursor. *)
Lemma rx_stream_any (bs : list Z) (st : loop_state) (k m : nat) :
  Forall (fun v => 0 <= v < 256) bs -> rx_ready st ->
  rx_idle_at
    (rx_feed (repeat 1 (S k) ++ flat_map wire_frame bs ++ repeat 1 m) st)
    (fst (rx_push bs (uartRxBuffer st) 0))
    (snd (rx_push bs (uartRxBuffer st) 0)).
Proof.
  intros Hb (H1 & H2 & H3 & H4).
  change (repeat 1 (S k)) with ([1] ++ repeat 1 k).
  rewrite <- app_assoc, !rx_feed_app.
  apply rx_idle_highs, rx_frames_idle; auto; try lia.
  apply rx_idle_highs, rx_idle_first; repeat split; assumption.
Qed.

(** Frames of bytes received from a ready receive framer. *)
Lemma rx_stream (bs : list Z) (st : loop_state) (k m : nat) :
  Forall (fun v => 0 <= v < 256) bs -> Z.of_nat (length bs) <= 15 ->
  rx_ready st ->
  let st' := rx_feed (repeat 1 (S k) ++ flat_map wire_frame bs ++ repeat 1 m)
                     st in
  rx_queued st' = bs /\ uartRxState st' = IDLE /\
  uartRxWrite st' = Z.of_nat (length bs).
Proof.
  intros Hb Hn HR; cbv zeta.
  destruct (rx_stream_any bs st k m Hb HR) as ((S1 & S2 & S3 & S4) & S5).
  destruct HR as (_ & _ & _ & H4).
  destruct (rx_push_nowrap bs (uartRxBuffer st) 0) as (P1 & P2 & _);
    auto; try lia.
  unfold rx_queued; rewrite S1, S3, S4, P1, Z.add_0_l, Nat2Z.id.
  repeat split; auto.
Qed.

(** ** The claims on the framers *)

Lemma uart_loopback (T R : loop_state) (m : nat) :
  Forall (fun v => 0 <= v < 256) (tx_queued T) ->
  tx_ready T -> rx_ready R ->
  let lead := tx_lead (txTick T) in
  let line := tx_line (lead + 44 * length (tx_queued T) + m) T in
  (2 <= lead <= 5)%nat /\
  line = repeat 1 lead ++ flat_map wire_frame (tx_queued T) ++ repeat 1 m /\
  rx_queued (rx_feed line R) = tx_queued T /\
  uartRxState (rx_feed line R) = IDLE /\
  uartRxWrite (rx_feed line R) = Z.of_nat (length (tx_queued T)).
Proof.
  intros Hb HT HR; cbv zeta.
  destruct (tx_stream T m HT) as [-> _].
  assert (B : (2 <= tx_lead (txTick T) <= 5)%nat)
    by (apply tx_lead_bounds, HT).
  split; [exact B|split; [reflexivity|]].
  destruct (tx_lead (txTick T)) as [|k]; [lia|].
  apply (rx_stream (tx_queued T) R k m); auto.
  destruct HT as (_ & _ & _ & Hrd & Hwr).
  unfold tx_queued; rewrite slice_length; lia.
Qed.

(** C5. For every sequence [b] of bytes queued in a ready transmit framer
    (at most fifteen, the most the cursors of the queue can describe; the
    framer IDLE with any value of [txTick], as the matcher leaves it when it
    queues a reply): the levels the transmit framer puts on the line,
    iteration by iteration, are two to five iterations high (as many as
    [txTick] leaves), then for each byte of [b] in order a start bit, the
    eight data bits least significant first, the even parity bit and the
    stop bit, four iterations each, then high; and a ready receive framer
    fed these levels one per iteration ends IDLE with exactly the bytes of
    [b], in order, in its queue, however long the line is watched
    afterwards.  On the receive side alone this holds for frames of any
    number of bytes: each is committed in order at the successive
    positions of the write cursor. *)
Theorem uart_round_trip (b : list Z) (R : loop_state) (m : nat) :
  Forall (fun v => 0 <= v < 256) b -> rx_ready R ->
  (forall k,
      rx_idle_at
        (rx_feed (repeat 1 (S k) ++ flat_map wire_frame b ++ repeat 1 m) R)
        (fst (rx_push b (uartRxBuffer R) 0))
        (snd (rx_push b (uartRxBuffer R) 0))) /\
  (forall T,
      tx_ready T -> tx_queued T = b ->
      let lead := tx_lead (txTick T) in
      let line := tx_line (lead + 44 * length b + m) T in
      (2 <= lead <= 5)%nat /\
      line = repeat 1 lead ++ flat_map wire_frame b ++ repeat 1 m /\
      rx_queued (rx_feed line R) = b /\
      uartRxState (rx_feed line R) = IDLE /\
      uartRxWrite (rx_feed line R) = Z.of_nat (length b)).
Proof.
  intros Hb HR; split.
  - intros k; now apply rx_stream_any.
  - intros T HT Hq; subst b; now apply uart_loopback.
Qed.

Lemma fold_xorb_odd (l : list bool) : forall a,
  fold_left xorb l a = xorb a (Nat.odd (ones l)).
Proof.
  induction l as [|b l IH]; intros a; cbn [fold_left].
  - now rewrite xorb_false_r.
  - rewrite IH; unfold ones; destruct b; cbn [filter length].
    + rewrite Nat.odd_succ, <- Nat.negb_odd; now destruct a, (Nat.odd _).
    + now rewrite xorb_false_r.
Qed.

Lemma ones_app (l1 l2 : list bool) : ones (l1 ++ l2) = (ones l1 + ones l2)%nat.
Proof. unfold ones; now rewrite filter_app, length_app. Qed.

Lemma parity_makes_even (l : list bool) :
  Nat.even (ones (l ++ [fold_left xorb l false])) = true.
Proof.
  rewrite ones_app, fold_xorb_odd, xorb_false_l, Nat.even_add.
  rewrite <- Nat.negb_odd.
  destruct (Nat.odd (ones l)); reflexivity.
Qed.

Lemma tx_period_line (b : bool) (s : uartState_t) par wb buf wr rd :
  s <> IDLE ->
  tx_line 4 (tx_state (Z.b2z b) s par 4 wb buf wr rd) = rep4 (Z.b2z b).
Proof.
  intros Hs; cbn [tx_line]; rewrite !tx_wait by (auto; lia).
  now destruct b.
Qed.

Lemma tx_fire_start0 (x : Z) par wb buf wr rd :
  tx_framer (tx_state x START par 0 wb buf wr rd) =
  tx_state 0 DATA 0 4 1 buf wr rd.
Proof. reflexivity. Qed.

Lemma tx_part_uartTxState (st : loop_state) :
  uartTxState (tx_part st) = uartTxState st.
Proof. reflexivity. Qed.

Lemma tx_part_txBit (st : loop_state) : txBit (tx_part st) = txBit st.
Proof. reflexivity. Qed.

(** C6. For every byte [v] the transmit framer serializes (the byte at
    the read cursor when the START branch runs): the eight data periods
    carry the bits of [v], least significant first; the PARITY branch then
    sets [txBit] to the exclusive or of these eight bits and that level is
    on the line for the parity period; it is 1 exactly when an odd number
    of the bits is set, so data and parity together carry an even number of
    ones. *)
Theorem tx_parity_even (st : loop_state) :
  uartTxState st = START -> txTick st = 0 \/ txTick st = 1 ->
  let v := load (uartTxBuffer st) (uartTxRead st) in
  let p := fold_left xorb (data_bits v) false in
  tx_line 36 (tx_run 1 st) = rep4 0 ++ levels (data_bits v) /\
  uartTxState (tx_run 37 st) = STOP /\
  txBit (tx_run 37 st) = Z.b2z p /\
  tx_line 4 (tx_run 37 st) = rep4 (Z.b2z p) /\
  p = Nat.odd (ones (data_bits v)) /\
  Nat.even (ones (data_bits v ++ [p])) = true.
Proof.
  intros Hs Ht; cbv zeta.
  set (v := load (uartTxBuffer st) (uartTxRead st)).
  fold (parity_of v).
  rewrite (tx_run_S 0 st), !(tx_run_S 36 st).
  change (tx_run 0 (tx_framer st)) with (tx_framer st).
  assert (B : tx_part (tx_framer st) =
              tx_begin (uartTxBuffer st) (uartTxWrite st) (uartTxRead st)).
  { rewrite <- tx_framer_part, tx_part_state, Hs.
    destruct Ht as [-> | ->]; reflexivity. }
  destruct (tx_frame_data (uartTxBuffer st) (uartTxWrite st) (uartTxRead st))
    as [L R]; fold v in L, R.
  assert (R37 : tx_part (tx_run 36 (tx_framer st)) =
                tx_state (Z.b2z (parity_of v)) STOP (Z.b2z (parity_of v)) 4 0
                  (uartTxBuffer st) (uartTxWrite st)
                  (Z.land (uartTxRead st + 1) UARTTXMASK)).
  { rewrite <- tx_run_part, B; exact R. }
  split; [now rewrite <- tx_line_part, B|].
  split; [now rewrite <- tx_part_uartTxState, R37|].
  split; [now rewrite <- tx_part_txBit, R37|].
  split.
  { rewrite <- tx_line_part, R37.
    apply tx_period_line; discriminate. }
  split.
  - unfold parity_of; now rewrite fold_xorb_odd, xorb_false_l.
  - apply parity_makes_even.
Qed.

(** X25. The receive framer alone has no test for a full queue: a frame
    received from IDLE is always stored at the write cursor and the cursor
    advances modulo 16.  (With the cursor on the last cell, 15, the byte
    would be stored there and the cursor wrap to 0; in the whole loop the
    cursor never gets beyond 3.) *)
Theorem rx_commit_wraps (v : Z) (st : loop_state) :
  0 <= v < 256 ->
  uartRxState st = IDLE -> rxTick st = 0 -> rxBit st = 1 ->
  0 <= uartRxWrite st < 16 -> length (uartRxBuffer st) = 16%nat ->
  let st' := rx_feed (wire_frame v) st in
  uartRxBuffer st' = store (uartRxBuffer st) (uartRxWrite st) v /\
  load (uartRxBuffer st') (uartRxWrite st) = v /\
  uartRxWrite st' = (uartRxWrite st + 1) mod 16 /\
  uartRxState st' = IDLE /\ rxTick st' = 0 /\ rxBit st' = 1 /\
  (uartRxWrite st = 15 -> uartRxWrite st' = 0 /\ rx_queued st' = []).
Proof.
  intros Hv Hs Ht Hb Hw Hlen; cbv zeta.
  destruct (rx_frame_idle v st (uartRxBuffer st) (uartRxWrite st))
    as ((S1 & S2 & S3 & S4) & S5); auto; try lia.
  { repeat split; auto. }
  unfold UARTRXMASK in S4; rewrite land_mask15 in S4.
  rewrite S3, S4; repeat split; auto.
  - apply load_store_same; lia.
  - rewrite H; reflexivity.
  - unfold rx_queued; rewrite S4, H; reflexivity.
Qed.

Lemma rx_fire_parity (l : Z) last bit par rb buf w t :
  t = 0 \/ t = 1 ->
  rx_part (rx_framer l (rx_state last bit PARITY par t rb buf w)) =
  rx_state bit (Z.land l RXPIN) STOP par 4 rb buf w.
Proof. intros [-> | ->]; reflexivity. Qed.

Lemma rx_fire_stop (l : Z) last bit par rb buf w t :
  t = 0 \/ t = 1 ->
  rx_part (rx_framer l (rx_state last bit STOP par t rb buf w)) =
  rx_state bit (Z.land l RXPIN) IDLE par 0 rb buf w.
Proof. intros [-> | ->]; reflexivity. Qed.

Lemma rx_fire_edge last par rb buf w :
  rx_part (rx_framer 0 (rx_state last 1 IDLE par 0 rb buf w)) =
  rx_state 1 0 START par 1 rb buf w.
Proof. reflexivity. Qed.

Lemma rx_sample_ignored (l1 l2 : Z) (st : loop_state) :
  uartRxState st = PARITY \/ uartRxState st = STOP ->
  forget_rxBit (rx_framer l1 st) = forget_rxBit (rx_framer l2 st).
Proof.
  destruct st as [a b c d e f g h i j k t m n o p q r].
  state_simpl; intros Hs.
  unfold rx_framer, sample, timers, forget_rxBit; state_simpl.
  destruct (e =? 0) eqn:E; state_simpl; destruct (j =? 0); state_simpl;
    destruct (t =? 0); state_simpl; unfold rx_step; state_simpl;
    rewrite ?E; try destruct (e - 1 =? 0);
    destruct Hs as [-> | ->]; reflexivity.
Qed.

Lemma rx_part_fields (st : loop_state) :
  uartRxState (rx_part st) = uartRxState st /\
  rxTick (rx_part st) = rxTick st /\
  uartRxBuffer (rx_part st) = uartRxBuffer st /\
  uartRxWrite (rx_part st) = uartRxWrite st /\
  rxBit (rx_part st) = rxBit st /\
  rxParity (rx_part st) = rxParity st.
Proof. repeat split. Qed.

(** C8. The receive framer does not depend on the levels sampled in the
    parity and stop periods.  (1) In PARITY and in STOP an iteration gives
    the same state for any two levels, but for the recorded sample itself.
    (2) When its tick has come, PARITY always goes to STOP, four ticks
    later, with the queue untouched.  (3) STOP always goes to IDLE with
    [rxTick = 0], the queue untouched; (4) after a high stop bit a low
    level on the very next iteration is taken as a start edge.  (5) For a
    whole frame of a byte [v], whatever the levels in the parity and stop
    periods, the framer ends IDLE having stored [v] at the write cursor and
    advanced the cursor. *)
Theorem rx_ignores_parity_and_stop :
  (forall l1 l2 st,
      uartRxState st = PARITY \/ uartRxState st = STOP ->
      forget_rxBit (rx_framer l1 st) = forget_rxBit (rx_framer l2 st)) /\
  (forall l st,
      uartRxState st = PARITY -> rxTick st = 0 \/ rxTick st = 1 ->
      uartRxState (rx_framer l st) = STOP /\ rxTick (rx_framer l st) = 4 /\
      uartRxBuffer (rx_framer l st) = uartRxBuffer st /\
      uartRxWrite (rx_framer l st) = uartRxWrite st) /\
  (forall l st,
      uartRxState st = STOP -> rxTick st = 0 \/ rxTick st = 1 ->
      uartRxState (rx_framer l st) = IDLE /\ rxTick (rx_framer l st) = 0 /\
      uartRxBuffer (rx_framer l st) = uartRxBuffer st /\
      uartRxWrite (rx_framer l st) = uartRxWrite st) /\
  (forall l st,
      uartRxState st = STOP -> rxTick st = 0 \/ rxTick st = 1 ->
      Z.land l RXPIN = 1 ->
      uartRxState (rx_framer 0 (rx_framer l st)) = START) /\
  (forall v x s st,
      0 <= v < 256 ->
      uartRxState st = IDLE -> rxTick st = 0 -> rxBit st = 1 ->
      0 <= uartRxWrite st < 16 -> length (uartRxBuffer st) = 16%nat ->
      let st' := rx_feed (frame_with v x s) st in
      uartRxBuffer st' = store (uartRxBuffer st) (uartRxWrite st) v /\
      uartRxWrite st' = Z.land (uartRxWrite st + 1) UARTRXMASK /\
      uartRxState st' = IDLE /\ rxTick st' = 0).
Proof.
  split; [exact rx_sample_ignored|].
  split; [|split; [|split]].
  - intros l st Hs Ht.
    destruct (rx_part_fields (rx_framer l st)) as (<- & <- & <- & <- & _).
    rewrite rx_framer_part, (rx_part_state st), Hs.
    rewrite rx_fire_parity by exact Ht; repeat split.
  - intros l st Hs Ht.
    destruct (rx_part_fields (rx_framer l st)) as (<- & <- & <- & <- & _).
    rewrite rx_framer_part, (rx_part_state st), Hs.
    rewrite rx_fire_stop by exact Ht; repeat split.
  - intros l st Hs Ht Hl.
    destruct (rx_part_fields (rx_framer 0 (rx_framer l st))) as (<- & _).
    rewrite (rx_framer_part 0), (rx_framer_part l st), (rx_part_state st), Hs.
    rewrite rx_fire_stop by exact Ht.
    rewrite Hl, rx_fire_edge; reflexivity.
  - intros v x s st Hv Hs Ht Hb Hw Hlen; cbv zeta.
    destruct (rx_frame_any v x s st (uartRxBuffer st) (uartRxWrite st))
      as ((S1 & S2 & S3 & S4) & _); auto; try lia.
    repeat split; auto.
Qed.

(** C9. If the receive framer is in START when its tick comes and the
    line is sampled high, the framer step only sets the state to IDLE
    (with [rxTick] zero as it was): the receive buffer, both cursors, the
    parity accumulator, the bit mask and the timeout counter are those the
    step found, so no byte is recorded and the timeout is not armed. *)
Theorem rx_start_glitch (l : Z) (st : loop_state) :
  uartRxState st = START -> rxTick st = 0 \/ rxTick st = 1 ->
  Z.land l RXPIN <> 0 ->
  let st1 := timers (sample l st) in
  rx_step st1 = set_uartRxState IDLE st1 /\
  rx_framer l st = set_uartRxState IDLE st1 /\
  uartRxState (rx_framer l st) = IDLE /\
  rxTick (rx_framer l st) = 0 /\
  uartRxBuffer (rx_framer l st) = uartRxBuffer st /\
  uartRxWrite (rx_framer l st) = uartRxWrite st /\
  uartRxRead (rx_framer l st) = uartRxRead st /\
  rxParity (rx_framer l st) = rxParity st /\
  readBit (rx_framer l st) = readBit st /\
  rxTimeout (rx_framer l st) = rxTimeout st1 /\
  rxTimeout st1 = rxTimeout (timers st).
Proof.
  destruct st as [a b c d e f g h i j k t m n o p q r].
  state_simpl; intros Hs Ht Hl; subst c; cbv zeta.
  apply Z.eqb_neq in Hl.
  unfold rx_framer, sample, timers; state_simpl.
  destruct Ht as [-> | ->];
    change (0 =? 0) with true; change (1 =? 0) with false; cbv iota;
    state_simpl; change (1 - 1) with 0;
    destruct (j =? 0); state_simpl; destruct (t =? 0); state_simpl;
    unfold rx_step; state_simpl; change (0 =? 0) with true; cbv iota;
    cbn [uartState_eqb andb]; state_simpl; rewrite Hl;
    repeat split.
Qed.

(** ** The framers inside the loop body

    Up to the matcher, an iteration of the loop acts on the variables of
    the receive framer as [rx_framer] does and on those of the transmit
    framer as [tx_framer] does. *)

Lemma tx_part_rx_step (st : loop_state) : tx_part (rx_step st) = tx_part st.
Proof.
  destruct st as [a b c d e f g h i j k t m n o p q r].
  unfold rx_step, tx_part; state_simpl.
  destruct (e =? 0); [|reflexivity].
  destruct c; cbn [uartState_eqb andb]; state_simpl; try reflexivity.
  - destruct ((b =? 0) && (a =? 1)); reflexivity.
  - destruct (b =? 0); [|reflexivity]. destruct (t =? 0); reflexivity.
  - destruct (b =? 0); state_simpl;
      destruct (u8 (Z.shiftl f 1) =? 0); reflexivity.
Qed.

Lemma rx_part_tx_step (st : loop_state) : rx_part (tx_step st) = rx_part st.
Proof.
  destruct st as [a b c d e f g h i j k t m n o p q r].
  unfold tx_step, rx_part; state_simpl.
  destruct (j =? 0); [|reflexivity].
  destruct h; cbn [uartState_eqb]; state_simpl; try reflexivity.
  destruct (Z.land (load p r) k =? 0); state_simpl;
    destruct (u8 (Z.shiftl k 1) =? 0); reflexivity.
Qed.

Lemma rx_part_tx_schedule (st : loop_state) :
  rx_part (tx_schedule st) = rx_part st.
Proof.
  destruct st as [a b c d e f g h i j k t m n o p q r].
  unfold tx_schedule, rx_part; state_simpl.
  destruct h; cbn [uartState_eqb]; try reflexivity.
  destruct (r <? q); reflexivity.
Qed.

Lemma loop_body_framers (p : Z) (st : loop_state) :
  let st1 := tx_schedule (tx_step (rx_step (timers (sample p st)))) in
  ushioLoop_body p st = matcher st1 /\
  rx_part st1 = rx_part (rx_framer p st) /\
  tx_part st1 = tx_part (tx_framer st).
Proof.
  cbv zeta; split; [reflexivity|]; split.
  - now rewrite rx_part_tx_schedule, rx_part_tx_step.
  - unfold tx_framer.
    rewrite <- !tx_schedule_tx_part, <- !tx_step_tx_part, tx_part_rx_step.
    rewrite <- !timers_tx_part; now destruct st.
Qed.

(** ** Power-on *)

Lemma quiet_step (p : Z) (st : loop_state) :
  Z.land p RXPIN <> 0 -> quiet st ->
  txd_level st = 1 /\ quiet (ushioLoop_body p st).
Proof.
  destruct st as [a b c d e f g h i j k t m n o q u r].
  unfold quiet, tx_drained, txd_level; state_simpl.
  intros Hp (-> & -> & -> & -> & Hg & -> & ->).
  apply Z.eqb_neq in Hp, Hg; rewrite Hg; split; [reflexivity|].
  unfold ushioLoop_body, sample, timers; state_simpl.
  change (0 =? 0) with true; cbv iota; state_simpl.
  destruct (j =? 0) eqn:J; state_simpl; destruct (t =? 0); state_simpl;
    unfold rx_step; state_simpl; change (0 =? 0) with true; cbv iota;
    cbn [uartState_eqb andb]; rewrite Hp; cbn [andb]; state_simpl;
    unfold tx_step; state_simpl; rewrite ?J; try destruct (j - 1 =? 0);
    cbn; apply Z.eqb_neq in Hg; repeat split; auto; discriminate.
Qed.

Lemma quiet_loop (pins : list Z) : forall st,
  Forall (fun p => Z.land p RXPIN <> 0) pins -> quiet st ->
  snd (ushioLoop pins st) = repeat 1 (length pins) /\
  quiet (fst (ushioLoop pins st)).
Proof.
  induction pins as [|p pins IH]; intros st Hp Hq; [split; auto|].
  inversion Hp as [|? ? Hp1 Hp2]; subst.
  destruct (quiet_step p st Hp1 Hq) as [L Q].
  destruct (IH _ Hp2 Q) as [I1 I2].
  cbn [ushioLoop length repeat].
  destruct (ushioLoop pins (ushioLoop_body p st)) as [st' out].
  cbn [fst snd] in *; rewrite L, I1; auto.
Qed.

(** C2 (as amended). At power-on the first three cells of the transmit
    buffer hold 51 32 0D but both cursors of the transmit queue are zero,
    so no byte is queued; and for as long as the receive line stays high
    the transmit framer stays IDLE with an empty queue and the transmit
    line stays high: nothing is serialized before a command is matched. *)
Theorem power_on_sends_nothing (pins : list Z) :
  Forall (fun p => Z.land p RXPIN <> 0) pins ->
  slice (uartTxBuffer ushioLoop_init) 0 3 = [0x51; 0x32; 0x0D] /\
  uartTxWrite ushioLoop_init = 0 /\ uartTxRead ushioLoop_init = 0 /\
  tx_queued ushioLoop_init = [] /\
  snd (ushioLoop pins ushioLoop_init) = repeat 1 (length pins) /\
  uartTxState (fst (ushioLoop pins ushioLoop_init)) = IDLE /\
  tx_queued (fst (ushioLoop pins ushioLoop_init)) = [].
Proof.
  intros Hp.
  destruct (quiet_loop pins ushioLoop_init Hp) as [L (_ & _ & _ & Q)].
  { repeat split; discriminate. }
  destruct Q as (Q1 & _ & Q3 & Q4).
  repeat split; auto.
  unfold tx_queued; rewrite Q3, Q4; reflexivity.
Qed.

(** C2 as stated fails: at power-on no byte is queued for transmission,
    and with the receive line idle the transmit line never leaves the high
    level during 150 iterations, more than the 137 the three frames would
    take. *)
Lemma power_on_preload_not_sent :
  tx_queued ushioLoop_init <> [0x51; 0x32; 0x0D] /\
  tx_queued ushioLoop_init = [] /\
  snd (ushioLoop (repeat 1 150) ushioLoop_init) = repeat 1 150.
Proof. vm_compute; repeat split; discriminate. Qed.

(** ** Every sequence of at most fifteen bytes can be queued *)

Lemma load_cons (a : Z) (l : list Z) (i : Z) :
  0 <= i -> load (a :: l) (i + 1) = load l i.
Proof.
  intros Hi; unfold load.
  destruct (Z.ltb_spec (i + 1) 0); [lia|].
  destruct (Z.ltb_spec i 0); [lia|].
  replace (Z.to_nat (i + 1)) with (S (Z.to_nat i)) by lia; reflexivity.
Qed.

Lemma slice_cons (a : Z) (l : list Z) (n : nat) : forall from,
  0 <= from -> slice (a :: l) (from + 1) n = slice l from n.
Proof.
  induction n as [|n IH]; intros from Hf; cbn [slice]; auto.
  rewrite load_cons, IH by lia; reflexivity.
Qed.

Lemma slice_app_self (b pad : list Z) : slice (b ++ pad) 0 (length b) = b.
Proof.
  induction b as [|a b IH]; cbn [app length slice]; auto.
  rewrite slice_cons, IH by lia; reflexivity.
Qed.

Lemma tx_loaded_ready (b : list Z) :
  (length b <= 15)%nat -> tx_ready (tx_loaded b) /\ tx_queued (tx_loaded b) = b.
Proof.
  intros Hn; unfold tx_ready, tx_queued, tx_loaded, ushioLoop_init;
    state_simpl.
  rewrite Z.sub_0_r, Nat2Z.id, slice_app_self.
  repeat split; auto; try lia; discriminate.
Qed.

Lemma rx_ready_init : rx_ready ushioLoop_init.
Proof. repeat split. Qed.

(** ** The theorems at concrete inputs *)

Lemma matcher_replies_to_command_witness :
  tx_queued (matcher st_cmd_50) = [0x50; 0x46; 0x0D] /\
  uartRxWrite (matcher st_cmd_50) = 0.
Proof.
  destruct (matcher_replies_to_command
              (mkQuery 2 [0x50; 0x0D; 0; 0; 0] 3 [0x50; 0x46; 0x0D; 0; 0])
              st_cmd_50) as (H1 & _ & _ & H4 & _).
  - right; right; left; reflexivity.
  - reflexivity.
  - reflexivity.
  - cbn; lia.
  - reflexivity.
  - reflexivity.
  - split; [exact H1|exact H4].
Defined.

Lemma first_match_wins_witness :
  query_matches st_cmd_4C (nth 1 overlapping (mkQuery 0 [] 0 [])) = true /\
  tx_queued (matcher_on overlapping st_cmd_4C) = [0xAA].
Proof.
  split; [reflexivity|].
  destruct (first_match_wins []
              (mkQuery 1 [0x4C; 0; 0; 0; 0] 1 [0xAA; 0; 0; 0; 0])
              [mkQuery 3 [0x4C; 0x46; 0x0D; 0; 0] 2 [0x41; 0x0D; 0; 0; 0]]
              st_cmd_4C) as (_ & _ & H).
  - reflexivity.
  - reflexivity.
  - intros q' [].
  - reflexivity.
  - apply H; [cbn; lia|cbn; lia|reflexivity].
Defined.

Lemma matcher_clears_iff_witness :
  matcher_on ushioQuery st_partial = st_partial /\
  uartRxWrite (matcher_on ushioQuery st_cmd_50) = 0.
Proof.
  split.
  - apply (matcher_clears_iff ushioQuery st_partial); [reflexivity..|].
    intros [H|[H|H]]; discriminate H.
  - apply (matcher_clears_iff ushioQuery st_cmd_50); [reflexivity..|].
    left; reflexivity.
Defined.

Lemma matcher_stores_in_bounds_witness :
  snd (matcher_log ushioQuery st_cmd_50) = [0; 1; 2] /\
  Forall (fun i => 0 <= i < 16) (snd (matcher_log ushioQuery st_cmd_50)).
Proof.
  split; [reflexivity|].
  apply (matcher_stores_in_bounds ushioQuery st_cmd_50); cbn; lia.
Defined.

Lemma uart_round_trip_witness :
  tx_line (2 + 44 * 3 + 3) st_replying =
    repeat 1 2 ++ flat_map wire_frame [0x50; 0x46; 0x0D] ++ repeat 1 3 /\
  rx_queued (rx_feed (tx_line (2 + 44 * 3 + 3) st_replying) ushioLoop_init) =
    [0x50; 0x46; 0x0D].
Proof.
  destruct (uart_round_trip [0x50; 0x46; 0x0D] ushioLoop_init 3) as [_ H].
  - repeat constructor; cbn; lia.
  - repeat split.
  - destruct (H st_replying) as (_ & H1 & H2 & _).
    + repeat split; vm_compute; congruence.
    + reflexivity.
    + split; [exact H1|exact H2].
Defined.

Lemma tx_parity_even_witness :
  txBit (tx_run 37 (set_txTick 1 (set_uartTxState START (tx_loaded [0x51]))))
  = 1.
Proof.
  apply (tx_parity_even
           (set_txTick 1 (set_uartTxState START (tx_loaded [0x51]))));
    [reflexivity|right; reflexivity].
Defined.

Lemma rx_commit_wraps_witness :
  uartRxWrite (rx_feed (wire_frame 0xAA) (after_idle 1)) = 1 /\
  load (uartRxBuffer (rx_feed (wire_frame 0xAA) (after_idle 1))) 0 = 0xAA.
Proof.
  destruct (rx_commit_wraps 0xAA (after_idle 1)) as (_ & H2 & H3 & _);
    [cbn; lia|reflexivity|reflexivity|reflexivity|cbn; lia|reflexivity|].
  split; [exact H3|exact H2].
Defined.

Lemma rx_ignores_parity_and_stop_witness :
  uartRxBuffer (rx_feed (frame_with 0x51 0 0) (set_rxBit 1 ushioLoop_init)) =
  store (repeat 0 16) 0 0x51.
Proof.
  destruct rx_ignores_parity_and_stop as (_ & _ & _ & _ & H).
  apply (H 0x51 0 0 (set_rxBit 1 ushioLoop_init));
    [cbn; lia|reflexivity|reflexivity|reflexivity|cbn; lia|reflexivity].
Defined.

Lemma rx_start_glitch_witness :
  uartRxState
    (rx_framer 1 (set_rxTick 1 (set_uartRxState START ushioLoop_init))) = IDLE.
Proof.
  apply (rx_start_glitch 1
           (set_rxTick 1 (set_uartRxState START ushioLoop_init)));
    [reflexivity|right; reflexivity|discriminate].
Defined.

Lemma power_on_sends_nothing_witness :
  snd (ushioLoop [1; 1; 1] ushioLoop_init) = [1; 1; 1].
Proof.
  apply (power_on_sends_nothing [1; 1; 1]).
  repeat constructor; discriminate.
Defined.

(** The space test of line 280 is stricter than the capacity of the
    buffer: with twelve bytes written a reply of three bytes would fit in
    cells 12 to 14, yet it is not appended (and the receive queue is
    cleared all the same). *)
Remark append_reply_conservative :
  let st := set_uartTxWrite 12 st_cmd_50 in
  uartTxWrite (matcher st) = 12 /\
  uartTxBuffer (matcher st) = uartTxBuffer st /\
  uartRxWrite (matcher st) = 0.
Proof. vm_compute; repeat split. Qed.

(** * Further properties of the source *)

(** ** An invariant of [ushioLoop] *)

Lemma mask15_small (x : Z) : 0 <= x <= 15 -> Z.land x 0x0F = x.
Proof. intros H; rewrite land_mask15; apply Z.mod_small; lia. Qed.

Lemma inv_init : loop_inv ushioLoop_init.
Proof.
  unfold loop_inv, loop_inv_gen, ushioLoop_init, UART_RX_TIMEOUT; cbn.
  repeat split; auto; lia.
Qed.

Lemma inv_sample (idle p : Z) (st : loop_state) :
  loop_inv_gen idle st -> loop_inv_gen idle (sample p st).
Proof.
  destruct st as [a b c d e f g h i j k t m n o q u r].
  unfold loop_inv_gen, sample; state_simpl.
  intros (H1 & H2 & H3 & H4 & H5 & H6 & H7 & H8 & H9 & H10 & H11 & H12 & H13).
  repeat split; auto; try lia; apply rxpin_level.
Qed.

Lemma inv_timers (idle : Z) (st : loop_state) :
  loop_inv_gen idle st -> loop_inv_gen idle (timers st).
Proof.
  destruct st as [a b c d e f g h i j k t m n o q u r].
  unfold loop_inv_gen, timers; state_simpl.
  intros (H1 & H2 & H3 & H4 & H5 & H6 & H7 & H8 & H9 & H10 & H11 & H12 & H13).
  destruct (Z.eqb_spec e 0); state_simpl;
    destruct (Z.eqb_spec j 0); state_simpl;
    destruct (Z.eqb_spec t 0); state_simpl;
    repeat split; auto; lia.
Qed.

Lemma inv_rx_step (st : loop_state) :
  loop_inv_gen 2 st -> loop_inv_gen 3 (rx_step st).
Proof.
  destruct st as [a b c d e f g h i j k t m n o q u r].
  unfold loop_inv_gen, rx_step; state_simpl.
  intros (H1 & H2 & H3 & H4 & H5 & H6 & H7 & H8 & H9 & H10 & H11 & H12 & H13).
  assert (Hn : 0 <= n <= 3) by (destruct c; cbn [rx_limit] in H4; lia).
  assert (Hm : Z.land (n + 1) UARTRXMASK = n + 1)
    by (apply mask15_small; lia).
  unfold UART_RX_TIMEOUT in *.
  destruct (e =? 0); state_simpl;
    [|destruct c; cbn [rx_limit] in *; repeat split; auto; lia].
  destruct c; cbn [uartState_eqb andb rx_limit] in *; state_simpl.
  - destruct ((b =? 0) && (a =? 1)); state_simpl; cbn [rx_limit];
      repeat split; auto; lia.
  - destruct (b =? 0); state_simpl; [destruct (t =? 0); state_simpl|];
      cbn [rx_limit]; rewrite ?store_length;
      repeat split; auto; lia.
  - destruct (b =? 0); state_simpl;
      destruct (u8 (Z.shiftl f 1) =? 0); state_simpl;
      cbn [rx_limit]; rewrite ?store_length, ?Hm;
      repeat split; auto; lia.
  - cbn [rx_limit]; repeat split; auto; lia.
  - cbn [rx_limit]; repeat split; auto; lia.
Qed.

Lemma inv_tx_step (idle : Z) (st : loop_state) :
  loop_inv_gen idle st -> loop_inv_gen idle (tx_step st).
Proof.
  destruct st as [a b c d e f g h i j k t m n o q u r].
  unfold loop_inv_gen, tx_step; state_simpl.
  intros (H1 & H2 & H3 & H4 & H5 & H6 & H7 & H8 & H9 & H10 & H11 & H12 & H13).
  destruct (j =? 0); state_simpl; [|repeat split; auto; lia].
  destruct h; cbn [uartState_eqb tx_unread_min tx_level_ok] in *;
    state_simpl; cbn [tx_unread_min tx_level_ok].
  - repeat split; auto; lia.
  - repeat split; auto; lia.
  - assert (Hm : Z.land (r + 1) UARTTXMASK = r + 1)
      by (apply mask15_small; lia).
    destruct (Z.land (load q r) k =? 0); state_simpl;
      destruct (u8 (Z.shiftl k 1) =? 0); state_simpl;
      cbn [tx_unread_min tx_level_ok]; rewrite ?Hm;
      repeat split; auto; try lia;
      destruct H12 as [-> | ->]; auto.
  - repeat split; auto; lia.
  - repeat split; auto; lia.
Qed.

Lemma inv_tx_schedule (idle : Z) (st : loop_state) :
  loop_inv_gen idle st -> loop_inv_gen idle (tx_schedule st).
Proof.
  destruct st as [a b c d e f g h i j k t m n o q u r].
  unfold loop_inv_gen, tx_schedule; state_simpl.
  intros (H1 & H2 & H3 & H4 & H5 & H6 & H7 & H8 & H9 & H10 & H11 & H12 & H13).
  destruct h; cbn [uartState_eqb tx_unread_min tx_level_ok] in *;
    state_simpl; cbn [tx_unread_min tx_level_ok];
    try (repeat split; auto; lia).
  destruct (Z.ltb_spec r u); state_simpl; cbn [tx_unread_min tx_level_ok];
    repeat split; auto; lia.
Qed.

Lemma inv_clear_rx (idle : Z) (st : loop_state) :
  loop_inv_gen idle st -> loop_inv_gen 2 (clear_rx st).
Proof.
  destruct st as [a b c d e f g h i j k t m n o q u r].
  unfold loop_inv_gen, clear_rx, UART_RX_TIMEOUT; state_simpl.
  intros (H1 & H2 & H3 & H4 & H5 & H6 & H7 & H8 & H9 & H10 & H11 & H12 & H13).
  destruct c; cbn [rx_limit]; repeat split; auto; lia.
Qed.

Lemma inv_append_reply (idle : Z) (q : ushioQuery_t) (st : loop_state) :
  loop_inv_gen idle st -> loop_inv_gen idle (fst (append_reply q st)).
Proof.
  intros H.
  assert (Hw : 0 <= uartTxWrite st < 256).
  { destruct H as (_ & _ & _ & _ & H5 & H6 & H7 & _).
    destruct (uartTxState st); cbn [tx_unread_min] in H6; lia. }
  rewrite append_reply_eq by exact Hw; unfold UARTTXMASK.
  destruct (Z.gtb_spec 15 (uartTxWrite st + rLength q)); [|exact H].
  destruct st as [a b c d e f g h i j k t m n o p u r].
  unfold loop_inv_gen in *; cbn [fst]; state_simpl.
  destruct H as
      (H1 & H2 & H3 & H4 & H5 & H6 & H7 & H8 & H9 & H10 & H11 & H12 & H13).
  rewrite stores_length; repeat split; auto; lia.
Qed.

Lemma inv_narrow (st : loop_state) :
  loop_inv_gen 3 st ->
  uartRxWrite st <= rx_limit 2 (uartRxState st) ->
  loop_inv_gen 2 st.
Proof.
  unfold loop_inv_gen.
  intros (H1 & H2 & H3 & H4 & H5 & H6 & H7 & H8 & H9 & H10 & H11 & H12 & H13)
         Hw.
  repeat split; auto; lia.
Qed.

(** No query of the table is longer than three bytes. *)
Lemma table_longer_bound (st : loop_state) :
  existsb (query_longer st) ushioQuery = true -> uartRxWrite st <= 2.
Proof.
  unfold ushioQuery, query_longer; cbn [existsb qLength].
  destruct (Z.geb_spec (uartRxWrite st) 2);
    destruct (Z.geb_spec (uartRxWrite st) 3);
    cbn [negb orb]; try discriminate; lia.
Qed.

Lemma inv_matcher (st : loop_state) :
  loop_inv_gen 3 st -> loop_inv (matcher st).
Proof.
  intros H; unfold loop_inv, matcher, matcher_on.
  destruct (uartState_eqb (uartRxState st) IDLE && (uartRxWrite st >? 0))
    eqn:Hact.
  - apply andb_true_iff in Hact as [Hs Hg].
    assert (Hi : uartRxState st = IDLE)
      by (destruct (uartRxState st); auto; discriminate).
    assert (Hw : uartRxWrite st > 0) by lia.
    destruct (existsb (query_matches st) ushioQuery) eqn:Hm.
    + destruct (existsb_first _ _ Hm) as (l1 & q & l2 & -> & Hq & Hl1).
      rewrite matcher_log_first by assumption; cbn [fst].
      apply (inv_clear_rx 3), inv_append_reply, H.
    + rewrite matcher_log_none by assumption; cbn [fst].
      destruct (existsb (query_longer st) ushioQuery) eqn:Hl;
        cbn [negb orb]; [|apply (inv_clear_rx 3), H].
      destruct (rxTimeout st =? 0); [apply (inv_clear_rx 3), H|].
      apply inv_narrow; auto.
      rewrite Hi; cbn [rx_limit]; now apply table_longer_bound.
  - unfold matcher_log; rewrite Hact; cbn [fst].
    apply inv_narrow; auto.
    destruct H as (_ & _ & _ & H4 & _).
    destruct (uartRxState st); cbn [rx_limit uartState_eqb andb] in *; lia.
Qed.

Lemma inv_body (p : Z) (st : loop_state) :
  loop_inv st -> loop_inv (ushioLoop_body p st).
Proof.
  intros H; unfold ushioLoop_body.
  apply inv_matcher, inv_tx_schedule, inv_tx_step, inv_rx_step.
  apply inv_timers, inv_sample, H.
Qed.

Lemma inv_loop (pins : list Z) : forall st,
  loop_inv st -> loop_inv (fst (ushioLoop pins st)).
Proof.
  induction pins as [|p pins IH]; intros st H; [exact H|].
  cbn [ushioLoop].
  specialize (IH _ (inv_body p st H)).
  destruct (ushioLoop pins (ushioLoop_body p st)); exact IH.
Qed.

Lemma inv_reachable (pins : list Z) :
  loop_inv (fst (ushioLoop pins ushioLoop_init)).
Proof. apply inv_loop, inv_init. Qed.

(** X1. Whatever is read from [PINB], in every state [ushioLoop] reaches
    from power-on both buffers have their sixteen cells and the three
    cursors used as indices ([uartRxWrite], [uartTxRead], [uartTxWrite])
    lie in [0, 16): no iteration indexes a buffer out of range. *)
Theorem ushioLoop_cursors_in_bounds (pins : list Z) :
  let st := fst (ushioLoop pins ushioLoop_init) in
  length (uartRxBuffer st) = 16%nat /\ length (uartTxBuffer st) = 16%nat /\
  0 <= uartRxWrite st < 16 /\
  0 <= uartTxRead st < 16 /\
  0 <= uartTxWrite st < 16.
Proof.
  cbv zeta.
  destruct (inv_reachable pins)
    as (H1 & H2 & _ & H4 & H5 & H6 & H7 & _).
  destruct (uartRxState (fst (ushioLoop pins ushioLoop_init)));
    destruct (uartTxState (fst (ushioLoop pins ushioLoop_init)));
    cbn [rx_limit tx_unread_min] in *; repeat split; auto; lia.
Qed.

(** X2. In every reachable state the receive queue holds at most three
    bytes, and at most two whenever the receive framer is IDLE, in START
    or in DATA: the matcher empties it before a fourth byte can arrive, so
    the write cursor never wraps around. *)
Theorem rx_queue_at_most_three (pins : list Z) :
  let st := fst (ushioLoop pins ushioLoop_init) in
  0 <= uartRxWrite st <= 3 /\
  (uartRxState st = IDLE \/ uartRxState st = START \/ uartRxState st = DATA ->
   uartRxWrite st <= 2) /\
  uartRxRead st = 0.
Proof.
  cbv zeta.
  destruct (inv_reachable pins) as (_ & _ & H3 & H4 & _).
  destruct (uartRxState (fst (ushioLoop pins ushioLoop_init)));
    cbn [rx_limit] in *; repeat split; auto; try lia;
    intros [E|[E|E]]; try discriminate E; lia.
Qed.

(** X3. In every reachable state the read cursor of the transmit queue is
    not beyond the write cursor, the write cursor is at most 14, and while
    the transmit framer is in START or DATA the byte it sends is a queued
    one (the read cursor is strictly below the write cursor). *)
Theorem tx_queue_cursors_ordered (pins : list Z) :
  let st := fst (ushioLoop pins ushioLoop_init) in
  0 <= uartTxRead st <= uartTxWrite st /\ uartTxWrite st <= 14 /\
  (uartTxState st = START \/ uartTxState st = DATA ->
   uartTxRead st < uartTxWrite st).
Proof.
  cbv zeta.
  destruct (inv_reachable pins) as (_ & _ & _ & _ & H5 & H6 & H7 & _).
  destruct (uartTxState (fst (ushioLoop pins ushioLoop_init)));
    cbn [tx_unread_min] in *; repeat split; auto; try lia;
    intros [E|E]; try discriminate E; lia.
Qed.

(** X4. In every reachable state the tick counters are between 0 and 4
    and the timeout counter between 0 and 480: the decrements never wrap
    below zero and the values fit their [uint8_t] and [uint16_t]. *)
Theorem counters_bounded (pins : list Z) :
  let st := fst (ushioLoop pins ushioLoop_init) in
  0 <= rxTick st <= 4 /\ 0 <= txTick st <= 4 /\
  0 <= rxTimeout st <= UART_RX_TIMEOUT.
Proof.
  cbv zeta.
  destruct (inv_reachable pins)
    as (_ & _ & _ & _ & _ & _ & _ & H8 & H9 & H10 & _).
  auto.
Qed.

(** X5. In every reachable state [txBit] is 0 or 1, and it is 1 whenever
    the transmit framer is IDLE or waits in START: the transmit line rests
    high and only goes low inside a frame. *)
Theorem txd_rests_high (pins : list Z) :
  let st := fst (ushioLoop pins ushioLoop_init) in
  (txBit st = 0 \/ txBit st = 1) /\
  (txd_level st = 0 \/ txd_level st = 1) /\
  (uartTxState st = IDLE \/ uartTxState st = START ->
   txBit st = 1 /\ txd_level st = 1).
Proof.
  cbv zeta; unfold txd_level.
  destruct (inv_reachable pins)
    as (_ & _ & _ & _ & _ & _ & _ & _ & _ & _ & _ & _ & H13).
  assert (Hb : txBit (fst (ushioLoop pins ushioLoop_init)) = 0 \/
               txBit (fst (ushioLoop pins ushioLoop_init)) = 1).
  { destruct (uartTxState (fst (ushioLoop pins ushioLoop_init)));
      cbn [tx_level_ok] in H13; auto. }
  split; [exact Hb|split].
  - destruct Hb as [-> | ->]; auto.
  - intros Hs.
    assert (H1 : txBit (fst (ushioLoop pins ushioLoop_init)) = 1).
    { destruct Hs as [Hs|Hs]; rewrite Hs in H13; exact H13. }
    rewrite H1; split; reflexivity.
Qed.

(** ** What the matcher leaves alone *)

Lemma reply_loop_erase (rd : list Z) (n : nat) : forall j st log,
  erase_matcher_vars (fst (reply_loop rd j n st log)) = erase_matcher_vars st.
Proof.
  induction n as [|n IH]; intros j st log; cbn [reply_loop fst]; auto.
  rewrite IH; now destruct st.
Qed.

Lemma append_reply_erase (q : ushioQuery_t) (st : loop_state) :
  erase_matcher_vars (fst (append_reply q st)) = erase_matcher_vars st.
Proof.
  unfold append_reply.
  destruct (UARTTXMASK >? uartTxWrite st + rLength q); auto.
  apply reply_loop_erase.
Qed.

Lemma query_loop_erase tbl : forall f (st : loop_state),
  erase_matcher_vars (fst (snd (query_loop tbl f st))) = erase_matcher_vars st.
Proof.
  induction tbl as [|q tbl IH]; intros f st; cbn [query_loop]; auto.
  destruct (uartRxWrite st >=? qLength q); [|apply IH].
  destruct (Z.land _ 1 =? 0); [apply append_reply_erase|apply IH].
Qed.

Lemma clear_rx_erase (st : loop_state) :
  erase_matcher_vars (clear_rx st) = erase_matcher_vars st.
Proof. now destruct st. Qed.

(** X6. For any table and any state, a matcher step can only change
    [uartRxWrite], [uartRxRead], [rxTimeout], [uartTxBuffer] and
    [uartTxWrite]: the states, ticks, samples, masks and parities of both
    framers, the receive buffer and the read cursor of the transmit queue
    are never touched. *)
Theorem matcher_footprint (tbl : list ushioQuery_t) (st : loop_state) :
  erase_matcher_vars (matcher_on tbl st) = erase_matcher_vars st /\
  uartRxState (matcher_on tbl st) = uartRxState st /\
  rxTick (matcher_on tbl st) = rxTick st /\
  uartRxBuffer (matcher_on tbl st) = uartRxBuffer st /\
  uartTxState (matcher_on tbl st) = uartTxState st /\
  txTick (matcher_on tbl st) = txTick st /\
  txBit (matcher_on tbl st) = txBit st /\
  uartTxRead (matcher_on tbl st) = uartTxRead st.
Proof.
  assert (E : erase_matcher_vars (matcher_on tbl st) = erase_matcher_vars st).
  { unfold matcher_on, matcher_log.
    destruct (uartState_eqb (uartRxState st) IDLE && (uartRxWrite st >? 0));
      auto.
    pose proof (query_loop_erase tbl 0 st) as Q.
    destruct (query_loop tbl 0 st) as [f [st' log]]; cbn [fst snd] in *.
    destruct ((f =? 0) || (Z.land f 2 =? 0) || (rxTimeout st' =? 0));
      cbn [fst]; now rewrite ?clear_rx_erase. }
  split; [exact E|].
  destruct (matcher_on tbl st), st; unfold erase_matcher_vars in E;
    state_simpl; injection E; intros; subst; repeat split.
Qed.

(** X7. For any table: when no entry matches the buffered bytes (also
    when the matcher does not run at all) no reply is queued; the transmit
    buffer and both its cursors are as before. *)
Theorem unknown_command_no_reply (tbl : list ushioQuery_t) (st : loop_state) :
  existsb (query_matches st) tbl = false ->
  uartTxBuffer (matcher_on tbl st) = uartTxBuffer st /\
  uartTxWrite (matcher_on tbl st) = uartTxWrite st /\
  uartTxRead (matcher_on tbl st) = uartTxRead st /\
  tx_queued (matcher_on tbl st) = tx_queued st.
Proof.
  intros Hno.
  assert (H : matcher_on tbl st = st \/ matcher_on tbl st = clear_rx st).
  { unfold matcher_on.
    destruct (uartState_eqb (uartRxState st) IDLE && (uartRxWrite st >? 0))
      eqn:Hact.
    - apply andb_true_iff in Hact as [Hs Hg].
      rewrite matcher_log_none; auto; try lia.
      + destruct (_ || _); cbn [fst]; auto.
      + destruct (uartRxState st); auto; discriminate.
    - unfold matcher_log; rewrite Hact; now left. }
  destruct H as [-> | ->]; [repeat split|].
  destruct (clear_rx_fields st) as (_ & _ & _ & _ & E5 & E6 & E7).
  rewrite tx_queued_clear_rx; repeat split; auto.
Qed.

Lemma unknown_command_no_reply_witness :
  tx_queued (matcher_on ushioQuery st_partial) = [].
Proof.
  apply (unknown_command_no_reply ushioQuery st_partial); reflexivity.
Defined.

(** X8. With the table of the source, whenever the receive framer is IDLE
    and three or more bytes are buffered the matcher step empties the
    receive queue, whether or not they form a known command: no query of
    the table is longer than three bytes. *)
Theorem three_bytes_always_cleared (st : loop_state) :
  uartRxState st = IDLE -> 3 <= uartRxWrite st ->
  uartRxWrite (matcher st) = 0 /\ uartRxRead (matcher st) = 0 /\
  rxTimeout (matcher st) = 0 /\ rx_queued (matcher st) = [].
Proof.
  intros Hs Hw; unfold matcher, matcher_on.
  assert (C : forall s, uartRxWrite (clear_rx s) = 0 /\
                        uartRxRead (clear_rx s) = 0 /\
                        rxTimeout (clear_rx s) = 0 /\
                        rx_queued (clear_rx s) = []).
  { intros s; now destruct s. }
  destruct (existsb (query_matches st) ushioQuery) eqn:Hm.
  - destruct (existsb_first _ _ Hm) as (l1 & q & l2 & -> & Hq & Hl1).
    rewrite matcher_log_first by (auto; lia); apply C.
  - rewrite matcher_log_none by (auto; lia).
    destruct (existsb (query_longer st) ushioQuery) eqn:Hl.
    + apply table_longer_bound in Hl; lia.
    + apply C.
Qed.

Lemma three_bytes_always_cleared_witness :
  uartRxWrite (matcher
                 (set_uartRxWrite 3
                    (set_uartRxBuffer ([1; 2; 3] ++ repeat 0 13)
                                      ushioLoop_init))) = 0.
Proof.
  apply (three_bytes_always_cleared
           (set_uartRxWrite 3
              (set_uartRxBuffer ([1; 2; 3] ++ repeat 0 13) ushioLoop_init)));
    [reflexivity|cbn; lia].
Defined.

(** ** Runs of the whole loop *)

Lemma ushioLoop_app (a b : list Z) : forall st,
  fst (ushioLoop (a ++ b) st) = fst (ushioLoop b (fst (ushioLoop a st))) /\
  snd (ushioLoop (a ++ b) st) =
    snd (ushioLoop a st) ++ snd (ushioLoop b (fst (ushioLoop a st))).
Proof.
  induction a as [|p a IH]; intros st; [split; reflexivity|].
  cbn [app ushioLoop].
  destruct (IH (ushioLoop_body p st)) as [I1 I2].
  destruct (ushioLoop (a ++ b) (ushioLoop_body p st)) as [s1 o1].
  destruct (ushioLoop a (ushioLoop_body p st)) as [s2 o2].
  cbn [fst snd app] in *; now rewrite I1, I2.
Qed.

Lemma list_eqb_eq : forall l1 l2, list_eqb l1 l2 = true -> l1 = l2.
Proof.
  induction l1 as [|a l1 IH]; intros [|b l2] H; try discriminate H; auto.
  cbn [list_eqb] in H; apply andb_true_iff in H as [H1 H2].
  apply Z.eqb_eq in H1; subst; f_equal; auto.
Qed.

Lemma uartState_eqb_eq (a b : uartState_t) : uartState_eqb a b = true -> a = b.
Proof. destruct a, b; auto; discriminate. Qed.

Lemma quietb_quiet (st : loop_state) : quietb st = true -> quiet st.
Proof.
  unfold quietb, quiet, tx_drained; intros H.
  repeat (apply andb_true_iff in H as [H ?]).
  repeat match goal with
         | E : uartState_eqb _ _ = true |- _ => apply uartState_eqb_eq in E
         | E : (_ =? _) = true |- _ => apply Z.eqb_eq in E
         | E : negb _ = true |- _ => apply negb_true_iff, Z.eqb_neq in E
         end.
  repeat split; auto.
Qed.

Lemma quiet_init : quiet ushioLoop_init.
Proof. apply quietb_quiet; reflexivity. Qed.

Lemma highs_high (n : nat) : Forall (fun p => Z.land p RXPIN <> 0) (repeat 1 n).
Proof. apply Forall_forall; intros p H; apply repeat_spec in H; now subst. Qed.

Lemma after_idle_S (k : nat) :
  after_idle (S k) = ushioLoop_body 1 (after_idle k).
Proof.
  unfold after_idle.
  replace (repeat 1 (S k)) with (repeat 1 k ++ [1])
    by (now rewrite <- repeat_cons).
  destruct (ushioLoop_app (repeat 1 k) [1] ushioLoop_init) as [-> _].
  reflexivity.
Qed.

Lemma after_idle_period (j : nat) :
  after_idle (j + 6) = after_idle (j + 2).
Proof.
  induction j as [|j IH]; [vm_compute; reflexivity|].
  cbn [Nat.add]; now rewrite !after_idle_S, IH.
Qed.

(** After power-on with the line high the loop is in one of five states. *)
Lemma after_idle_cases (k : nat) :
  (1 <= k)%nat -> exists j, In j idle_phases /\ after_idle k = after_idle j.
Proof.
  induction k as [k IH] using lt_wf_ind; intros Hk.
  destruct (Nat.le_gt_cases k 5) as [H5|H5].
  - exists k; split; auto.
    unfold idle_phases; cbn [In]; lia.
  - destruct (IH (k - 4)%nat) as (j & Hj & E); try lia.
    exists j; split; auto.
    rewrite <- E.
    replace k with ((k - 6) + 6)%nat at 1 by lia.
    replace (k - 4)%nat with ((k - 6) + 2)%nat by lia.
    apply after_idle_period.
Qed.

Lemma idle_out (k : nat) :
  snd (ushioLoop (repeat 1 k) ushioLoop_init) = repeat 1 k /\
  quiet (after_idle k).
Proof.
  destruct (quiet_loop (repeat 1 k) ushioLoop_init (highs_high k) quiet_init)
    as [H1 H2].
  now rewrite repeat_length in H1.
Qed.

Lemma table_answers :
  forallb (fun j =>
    forallb (fun q =>
      existsb (fun d => answers (after_idle j) q d) [0; 1; 2; 3]%nat)
      ushioQuery) idle_phases = true.
Proof. vm_compute; reflexivity. Qed.

(** X9. From power-on, after the line has been high for one or more
    iterations, the frames of any query of the table are answered: TXD
    stays high during the query and for at most three further iterations,
    then carries exactly the frames of that entry's reply, and stays high
    afterwards; the loop ends at rest with both queues empty. *)
Theorem command_is_answered (q : ushioQuery_t) (k m : nat) :
  In q ushioQuery -> (1 <= k)%nat ->
  let r := ushioLoop (repeat 1 k ++ frames (query_bytes q) ++
                      repeat 1 (150 + m)) ushioLoop_init in
  exists d : nat, (d <= 3)%nat /\
    snd r = repeat 1 (k + length (frames (query_bytes q)) + d) ++
            frames (reply_bytes q) ++
            repeat 1 (150 + m - d - length (frames (reply_bytes q))) /\
    quiet (fst r).
Proof.
  intros Hq Hk; cbv zeta.
  destruct (after_idle_cases k Hk) as (j & Hj & E).
  pose proof table_answers as T.
  rewrite forallb_forall in T; specialize (T j Hj).
  rewrite forallb_forall in T; specialize (T q Hq).
  apply existsb_exists in T as (d & Hd & A).
  exists d; split; [cbn [In] in Hd; lia|].
  unfold answers in A; apply andb_true_iff in A as [A1 A2].
  apply list_eqb_eq in A1; apply quietb_quiet in A2.
  rewrite <- E in A1, A2.
  destruct (idle_out k) as [O1 _].
  rewrite repeat_app, (app_assoc (frames _)).
  destruct (ushioLoop_app (repeat 1 k)
              ((frames (query_bytes q) ++ repeat 1 150) ++ repeat 1 m)
              ushioLoop_init) as [-> ->].
  fold (after_idle k); rewrite O1.
  destruct (ushioLoop_app (frames (query_bytes q) ++ repeat 1 150)
              (repeat 1 m) (after_idle k)) as [-> ->].
  destruct (quiet_loop (repeat 1 m) _ (highs_high m) A2) as [Q1 Q2].
  rewrite Q1, A1, repeat_length; split; [|exact Q2].
  assert (L : (length (frames (reply_bytes q)) <= 132)%nat).
  { destruct Hq as [<-|[<-|[<-|[<-|[<-|[]]]]]]; vm_compute; lia. }
  assert (Hd3 : (d <= 3)%nat) by (cbn [In] in Hd; lia).
  rewrite <- !app_assoc, !repeat_app.
  rewrite <- !app_assoc.
  replace (150 + m - d - length (frames (reply_bytes q)))%nat
    with ((150 - d - length (frames (reply_bytes q))) + m)%nat by lia.
  now rewrite repeat_app.
Qed.

Lemma command_is_answered_witness :
  exists d : nat, (d <= 3)%nat /\
    snd (ushioLoop (repeat 1 7 ++ frames [0x50; 0x0D] ++ repeat 1 150)
                   ushioLoop_init) =
      repeat 1 (7 + 88 + d) ++ frames [0x50; 0x46; 0x0D] ++
      repeat 1 (150 - d - 132) /\
    quiet (fst (ushioLoop (repeat 1 7 ++ frames [0x50; 0x0D] ++ repeat 1 150)
                          ushioLoop_init)).
Proof.
  apply (command_is_answered
           (mkQuery 2 [0x50; 0x0D; 0; 0; 0] 3 [0x50; 0x46; 0x0D; 0; 0])
           7 0); [cbn; auto|lia].
Defined.

(** ** The timeout of an incomplete command *)

Lemma ushioLoop_highs_S (n : nat) (st : loop_state) :
  fst (ushioLoop (repeat 1 (S n)) st) =
    fst (ushioLoop (repeat 1 n) (ushioLoop_body 1 st)) /\
  snd (ushioLoop (repeat 1 (S n)) st) =
    txd_level st :: snd (ushioLoop (repeat 1 n) (ushioLoop_body 1 st)).
Proof.
  cbn [repeat ushioLoop].
  now destruct (ushioLoop (repeat 1 n) (ushioLoop_body 1 st)).
Qed.

Lemma waits_for_spec (n : nat) (v : Z) : forall t st,
  waits_for n v t st = true ->
  (forall i, (i < n)%nat ->
     rx_queued (fst (ushioLoop (repeat 1 i) st)) = [v] /\
     rxTimeout (fst (ushioLoop (repeat 1 i) st)) = t - Z.of_nat i) /\
  (forall i, (i <= n)%nat ->
     snd (ushioLoop (repeat 1 i) st) = repeat 1 i) /\
  quiet (fst (ushioLoop (repeat 1 n) st)) /\
  rxTimeout (fst (ushioLoop (repeat 1 n) st)) = 0.
Proof.
  induction n as [|n IH]; intros t st H; cbn [waits_for] in H.
  - apply andb_true_iff in H as [H1 H2].
    apply quietb_quiet in H1; apply Z.eqb_eq in H2.
    split; [intros i Hi; lia|].
    split; [intros i Hi; now replace i with O by lia|].
    split; assumption.
  - apply andb_true_iff in H as [W H].
    unfold waits in W; apply andb_true_iff in W as [W W3].
    apply andb_true_iff in W as [W1 W2].
    apply list_eqb_eq in W1; apply Z.eqb_eq in W2.
    apply negb_true_iff in W3.
    destruct (IH _ _ H) as (I1 & I2 & I3 & I4).
    destruct (ushioLoop_highs_S n st) as [E1 E2].
    split; [|split; [|split]].
    + intros [|i] Hi; [cbn [repeat ushioLoop fst]; split; auto; lia|].
      destruct (ushioLoop_highs_S i st) as [-> _].
      destruct (I1 i) as [J1 J2]; [lia|].
      split; auto; lia.
    + intros [|i] Hi; [reflexivity|].
      destruct (ushioLoop_highs_S i st) as [_ ->].
      rewrite I2 by lia.
      unfold txd_level; now rewrite W3.
    + now rewrite E1.
    + now rewrite E1.
Qed.

Lemma quiet_timeout_step (p : Z) (st : loop_state) :
  Z.land p RXPIN <> 0 -> quiet st -> rxTimeout st = 0 ->
  rxTimeout (ushioLoop_body p st) = 0.
Proof.
  destruct st as [a b c d e f g h i j k t m n o q u r].
  unfold quiet, tx_drained; state_simpl.
  intros Hp (-> & -> & -> & -> & Hg & -> & ->) Ht.
  apply Z.eqb_neq in Hp.
  unfold ushioLoop_body, sample, timers; state_simpl.
  change (0 =? 0) with true; cbv iota; state_simpl.
  destruct (j =? 0) eqn:J; state_simpl;
    (destruct (t =? 0) eqn:T; [|apply Z.eqb_neq in T; contradiction]);
    state_simpl;
    unfold rx_step; state_simpl; change (0 =? 0) with true; cbv iota;
    cbn [uartState_eqb andb]; rewrite Hp; cbn [andb]; state_simpl;
    unfold tx_step; state_simpl; rewrite ?J; try destruct (j - 1 =? 0);
    cbn; exact Ht.
Qed.

Lemma quiet_timeout_loop (n : nat) : forall st,
  quiet st -> rxTimeout st = 0 ->
  rxTimeout (fst (ushioLoop (repeat 1 n) st)) = 0.
Proof.
  induction n as [|n IH]; intros st Q H; [exact H|].
  destruct (ushioLoop_highs_S n st) as [-> _].
  apply IH.
  - apply (quiet_step 1 st); [discriminate|exact Q].
  - apply quiet_timeout_step; [discriminate|exact Q|exact H].
Qed.

Lemma all_lone_bytes :
  forallb (fun j => forallb (lone_byte (after_idle j)) all_bytes)
          idle_phases = true.
Proof. vm_compute; reflexivity. Qed.

(** X10. From power-on, after the line has been high for one or more
    iterations, a single frame of any byte that is followed by silence is
    kept in the receive queue while the timeout runs (it has
    [UART_RX_TIMEOUT - 42] iterations left when the frame ends) and is
    discarded when it reaches zero, 438 iterations after the frame; TXD
    stays high throughout and the loop is then at rest. *)
Theorem lone_byte_times_out (v : Z) (k n : nat) :
  0 <= v < 256 -> (1 <= k)%nat ->
  let r := ushioLoop (repeat 1 k ++ wire_frame v ++ repeat 1 n)
                     ushioLoop_init in
  snd r = repeat 1 (k + 44 + n) /\
  ((n < 438)%nat ->
   rx_queued (fst r) = [v] /\
   rxTimeout (fst r) = UART_RX_TIMEOUT - 42 - Z.of_nat n) /\
  ((438 <= n)%nat ->
   quiet (fst r) /\ rxTimeout (fst r) = 0).
Proof.
  intros Hv Hk; cbv zeta.
  destruct (after_idle_cases k Hk) as (j & Hj & E).
  pose proof all_lone_bytes as T.
  rewrite forallb_forall in T; specialize (T j Hj).
  apply (byte_cases _ T) in Hv.
  unfold lone_byte in Hv; apply andb_true_iff in Hv as [A1 A2].
  apply list_eqb_eq in A1; rewrite <- E in A1, A2.
  destruct (waits_for_spec _ _ _ _ A2) as (W1 & W2 & W3 & W4).
  destruct (idle_out k) as [O1 _].
  destruct (ushioLoop_app (repeat 1 k) (wire_frame v ++ repeat 1 n)
              ushioLoop_init) as [-> ->].
  fold (after_idle k); rewrite O1.
  destruct (ushioLoop_app (wire_frame v) (repeat 1 n) (after_idle k))
    as [-> ->].
  rewrite A1.
  set (s := fst (ushioLoop (wire_frame v) (after_idle k))) in *.
  destruct (Nat.lt_ge_cases n 438) as [Hn|Hn].
  - rewrite W2 by lia.
    split; [rewrite <- !repeat_app; f_equal; lia|].
    split; [intros _; apply W1; exact Hn|intros H; lia].
  - replace n with (438 + (n - 438))%nat by lia.
    rewrite (repeat_app 1 438 (n - 438)).
    destruct (ushioLoop_app (repeat 1 438) (repeat 1 (n - 438)) s)
      as [-> ->].
    destruct (quiet_loop (repeat 1 (n - 438)) _ (highs_high _) W3)
      as [Q1 Q2].
    rewrite Q1, W2, repeat_length by lia.
    split; [rewrite <- !repeat_app; f_equal; lia|].
    split; [intros H; lia|intros _; split; [exact Q2|]].
    now apply quiet_timeout_loop.
Qed.

Lemma lone_byte_times_out_witness :
  rx_queued (fst (ushioLoop (repeat 1 3 ++ wire_frame 0x4C ++ repeat 1 437)
                            ushioLoop_init)) = [0x4C] /\
  quiet (fst (ushioLoop (repeat 1 3 ++ wire_frame 0x4C ++ repeat 1 438)
                        ushioLoop_init)).
Proof.
  split.
  - apply (lone_byte_times_out 0x4C 3 437); lia.
  - apply (lone_byte_times_out 0x4C 3 438); lia.
Defined.

(** ** A line that is low from power-on *)

Lemma low_step (p : Z) (st : loop_state) :
  rxd_low p -> quiet st -> rxBit st = 0 ->
  txd_level st = 1 /\ quiet (ushioLoop_body p st) /\
  rxBit (ushioLoop_body p st) = 0.
Proof.
  destruct st as [a b c d e f g h i j k t m n o q u r].
  unfold rxd_low, quiet, tx_drained, txd_level; state_simpl.
  intros Hp (-> & -> & -> & -> & Hg & -> & ->) ->.
  apply Z.eqb_neq in Hg; rewrite Hg; split; [reflexivity|].
  unfold ushioLoop_body, sample, timers; state_simpl.
  change (0 =? 0) with true; cbv iota; state_simpl.
  destruct (j =? 0) eqn:J; state_simpl; destruct (t =? 0); state_simpl;
    unfold rx_step; state_simpl; change (0 =? 0) with true; cbv iota;
    cbn [uartState_eqb andb]; rewrite Hp; cbn [andb Z.eqb]; state_simpl;
    unfold tx_step; state_simpl; rewrite ?J; try destruct (j - 1 =? 0);
    cbn; apply Z.eqb_neq in Hg; repeat split; auto; discriminate.
Qed.

(** X11. While the RXD bit has been clear in every read of [PINB] since
    power-on, no start bit is ever seen: the receive framer stays IDLE,
    nothing is queued or sent and TXD stays high.  A line that idles low
    does not trigger the receiver. *)
Theorem low_line_never_starts (pins : list Z) :
  Forall rxd_low pins ->
  snd (ushioLoop pins ushioLoop_init) = repeat 1 (length pins) /\
  quiet (fst (ushioLoop pins ushioLoop_init)) /\
  rx_queued (fst (ushioLoop pins ushioLoop_init)) = [].
Proof.
  intros Hp.
  assert (G : forall st, quiet st -> rxBit st = 0 ->
              snd (ushioLoop pins st) = repeat 1 (length pins) /\
              quiet (fst (ushioLoop pins st))).
  { induction Hp as [|p pins Hp1 Hp2 IH]; intros st Q B; [split; auto|].
    destruct (low_step p st Hp1 Q B) as (L & Q' & B').
    destruct (IH _ Q' B') as [I1 I2].
    cbn [ushioLoop length repeat].
    destruct (ushioLoop pins (ushioLoop_body p st)) as [st' out].
    cbn [fst snd] in *; rewrite L, I1; auto. }
  destruct (G ushioLoop_init quiet_init eq_refl) as [G1 G2].
  split; [exact G1|split; [exact G2|]].
  destruct G2 as (_ & _ & W & _).
  unfold rx_queued; now rewrite W.
Qed.

Lemma low_line_never_starts_witness :
  snd (ushioLoop (repeat 0 100) ushioLoop_init) = repeat 1 100.
Proof.
  apply (low_line_never_starts (repeat 0 100)).
  apply Forall_forall; intros p H; apply repeat_spec in H; now subst.
Defined.

(** ** Transmission inside the whole loop *)

Lemma rx_rest_framer (p : Z) (st : loop_state) :
  rxd_high p -> rx_rest st -> rx_rest (rx_framer p st).
Proof.
  destruct st as [a b c d e f g h i j k t m n o q u r].
  unfold rxd_high, rx_rest; state_simpl.
  intros Hp (-> & -> & ->); apply Z.eqb_neq in Hp.
  unfold rx_framer, sample, timers; state_simpl.
  change (0 =? 0) with true; cbv iota; state_simpl.
  destruct (j =? 0); state_simpl; destruct (t =? 0); state_simpl;
    unfold rx_step; state_simpl; change (0 =? 0) with true; cbv iota;
    cbn [uartState_eqb andb]; rewrite Hp; cbn [andb]; state_simpl;
    repeat split.
Qed.

Lemma rx_rest_part (s1 s2 : loop_state) :
  rx_part s1 = rx_part s2 -> rx_rest s2 -> rx_rest s1.
Proof.
  intros E (H1 & H2 & H3).
  destruct (rx_part_fields s1) as (A1 & A2 & _ & A4 & _).
  destruct (rx_part_fields s2) as (B1 & B2 & _ & B4 & _).
  unfold rx_rest; rewrite <- A1, <- A2, <- A4, E, B1, B2, B4; auto.
Qed.

Lemma matcher_rest (st : loop_state) : rx_rest st -> matcher st = st.
Proof.
  intros (_ & _ & W).
  unfold matcher, matcher_on, matcher_log; rewrite W.
  now rewrite andb_false_r.
Qed.

Lemma rest_step (p : Z) (st : loop_state) :
  rxd_high p -> rx_rest st ->
  rx_rest (ushioLoop_body p st) /\
  tx_part (ushioLoop_body p st) = tx_part (tx_framer st).
Proof.
  intros Hp Hr.
  destruct (loop_body_framers p st) as (E & R & T); cbv zeta in *.
  assert (R1 : rx_rest (tx_schedule (tx_step (rx_step (timers (sample p st)))))).
  { apply (rx_rest_part _ _ R), rx_rest_framer; assumption. }
  rewrite E, (matcher_rest _ R1); split; assumption.
Qed.

Lemma txd_level_part (st : loop_state) : txd_level (tx_part st) = txd_level st.
Proof. reflexivity. Qed.

Lemma rest_loop (pins : list Z) : forall st,
  Forall rxd_high pins -> rx_rest st ->
  snd (ushioLoop pins st) = tx_line (length pins) st /\
  rx_rest (fst (ushioLoop pins st)) /\
  tx_part (fst (ushioLoop pins st)) = tx_part (tx_run (length pins) st).
Proof.
  induction pins as [|p pins IH]; intros st Hp Hr;
    [split; [|split]; auto|].
  apply Forall_cons_iff in Hp as [Hp1 Hp2].
  destruct (rest_step p st Hp1 Hr) as [R T].
  destruct (IH _ Hp2 R) as (I1 & I2 & I3).
  cbn [ushioLoop length tx_line tx_run].
  destruct (ushioLoop pins (ushioLoop_body p st)) as [st' out].
  cbn [fst snd] in *.
  rewrite I1, I3, <- (tx_line_part _ (ushioLoop_body p st)), T.
  rewrite tx_line_part, <- !tx_run_part, T; auto.
Qed.

(** X12. Inside the whole loop, while the receive side is at rest and
    RXD is read high, up to fifteen bytes queued for transmission from
    index 0 with the transmit framer IDLE (the state in which the matcher
    leaves a reply) go out on TXD after two to five iterations high, as many
    as [txTick] leaves ([txTick] itself, or five when it is 0 or 1): their
    frames follow in order and without gaps, after which TXD stays high,
    both cursors of the transmit queue are back at 0 and the loop is at
    rest. *)
Theorem loop_sends_queue (pins : list Z) (st : loop_state) :
  Forall rxd_high pins -> rx_rest st -> tx_ready st ->
  let lead := tx_lead (txTick st) in
  (lead + 44 * length (tx_queued st) <= length pins)%nat ->
  (2 <= lead <= 5)%nat /\
  snd (ushioLoop pins st) =
    repeat 1 lead ++ frames (tx_queued st) ++
    repeat 1 (length pins - (lead + 44 * length (tx_queued st))) /\
  quiet (fst (ushioLoop pins st)).
Proof.
  intros Hp Hr Ht; cbv zeta; intros Hn.
  destruct (rest_loop pins st Hp Hr) as (L & (R1 & R2 & R3) & T).
  destruct (tx_stream st
              (length pins -
               (tx_lead (txTick st) + 44 * length (tx_queued st))) Ht)
    as [S1 S2].
  replace (tx_lead (txTick st) + 44 * length (tx_queued st) +
           (length pins -
            (tx_lead (txTick st) + 44 * length (tx_queued st))))%nat
    with (length pins) in S1, S2 by lia.
  split; [apply tx_lead_bounds, Ht|].
  split; [now rewrite L, S1|].
  unfold quiet; repeat split; auto.
  - destruct S2 as (D & _).
    change (uartTxState (tx_part (fst (ushioLoop pins st))) = IDLE).
    rewrite T; exact D.
  - destruct S2 as (_ & D & _).
    change (txBit (tx_part (fst (ushioLoop pins st))) <> 0).
    rewrite T; exact D.
  - destruct S2 as (_ & _ & D & _).
    change (uartTxRead (tx_part (fst (ushioLoop pins st))) = 0).
    rewrite T; exact D.
  - destruct S2 as (_ & _ & _ & D).
    change (uartTxWrite (tx_part (fst (ushioLoop pins st))) = 0).
    rewrite T; exact D.
Qed.

Lemma loop_sends_queue_witness :
  snd (ushioLoop (repeat 1 150) st_replying) =
    repeat 1 2 ++ frames [0x50; 0x46; 0x0D] ++ repeat 1 16 /\
  quiet (fst (ushioLoop (repeat 1 150) st_replying)).
Proof.
  destruct (loop_sends_queue (repeat 1 150) st_replying) as (_ & H1 & H2).
  - apply Forall_forall; intros p H; apply repeat_spec in H; subst.
    discriminate.
  - repeat split.
  - repeat split; vm_compute; congruence.
  - vm_compute; lia.
  - split; [exact H1|exact H2].
Defined.

(** ** The TX pin *)

Lemma portb_tx_high_bits (portb i : Z) :
  Z.testbit (portb_tx_high portb) i =
    if i =? 1 then true else Z.testbit portb i.
Proof.
  unfold portb_tx_high, TXPIN; rewrite Z.lor_spec.
  destruct (Z.eqb_spec i 1) as [->|N]; [apply orb_true_r|].
  replace (Z.testbit 2 i) with false; [apply orb_false_r|].
  change 2 with (2 ^ 1); symmetry; apply Z.pow2_bits_false; lia.
Qed.

Lemma portb_tx_low_bits (portb i : Z) :
  Z.testbit (portb_tx_low portb) i =
    if i =? 1 then false else Z.testbit portb i.
Proof.
  unfold portb_tx_low, TXPIN; rewrite Z.land_spec.
  destruct (Z.eqb_spec i 1) as [->|N]; [apply andb_false_r|].
  destruct (Z.neg_nonneg_cases i) as [Hi|Hi].
  - now rewrite !Z.testbit_neg_r by lia.
  - rewrite Z.lnot_spec by lia.
    replace (Z.testbit 2 i) with false; [apply andb_true_r|].
    change 2 with (2 ^ 1); symmetry; apply Z.pow2_bits_false; lia.
Qed.

Lemma byte_bits (x : Z) :
  0 <= x < 256 <-> (forall i, i < 0 \/ 8 <= i -> Z.testbit x i = false).
Proof.
  split.
  - intros Hx i [Hi|Hi]; [apply Z.testbit_neg_r; lia|].
    destruct (Z.eq_dec x 0) as [->|N]; [apply Z.testbit_0_l|].
    apply Z.bits_above_log2; try lia.
    assert (Z.log2 x < 8) by (apply Z.log2_lt_pow2; lia); lia.
  - intros H.
    assert (E : x = x mod 2 ^ 8).
    { apply Z.bits_inj'; intros i Hi.
      destruct (Z.lt_ge_cases i 8) as [L|L].
      - now rewrite Z.mod_pow2_bits_low by lia.
      - rewrite Z.mod_pow2_bits_high by lia; apply H; lia. }
    rewrite E; apply Z.mod_pos_bound; lia.
Qed.

Lemma portb_tx_byte (portb : Z) :
  0 <= portb < 256 ->
  0 <= portb_tx_high portb < 256 /\ 0 <= portb_tx_low portb < 256.
Proof.
  intros H; rewrite byte_bits in H.
  split; apply byte_bits; intros i Hi;
    rewrite ?portb_tx_high_bits, ?portb_tx_low_bits;
    (destruct (Z.eqb_spec i 1); [lia|auto]).
Qed.

(** X13. The write to the TX pin at the head of every iteration of
    [ushioLoop] changes bit 1 of [PORTB] only, to 1 exactly when [txBit]
    is not zero; the other bits, among them the pull-ups of the inputs,
    are kept, and an 8 bit value stays one. *)
Theorem write_txd_only_tx_bit (st : loop_state) (portb : Z) :
  Z.testbit (write_txd st portb) 1 = negb (txBit st =? 0) /\
  Z.b2z (Z.testbit (write_txd st portb) 1) = txd_level st /\
  (forall i, i <> 1 ->
     Z.testbit (write_txd st portb) i = Z.testbit portb i) /\
  (0 <= portb < 256 -> 0 <= write_txd st portb < 256).
Proof.
  unfold write_txd, txd_level.
  destruct (txBit st =? 0); cbn [negb];
    rewrite ?portb_tx_low_bits, ?portb_tx_high_bits; cbn [Z.eqb Z.b2z];
    (split; [reflexivity|split; [reflexivity|split]]).
  - intros i Hi; rewrite portb_tx_low_bits.
    destruct (Z.eqb_spec i 1); [contradiction|reflexivity].
  - apply portb_tx_byte.
  - intros i Hi; rewrite portb_tx_high_bits.
    destruct (Z.eqb_spec i 1); [contradiction|reflexivity].
  - apply portb_tx_byte.
Qed.

Lemma write_txd_only_tx_bit_witness :
  Z.testbit (write_txd ushioLoop_init PULLUPS) 0 = Z.testbit PULLUPS 0 /\
  0 <= write_txd ushioLoop_init PULLUPS < 256.
Proof.
  destruct (write_txd_only_tx_bit ushioLoop_init PULLUPS)
    as (_ & _ & H3 & H4).
  split; [apply H3; discriminate|apply H4; cbn; lia].
Defined.

(** ** [flagLoop] *)

(** X14. One iteration of [flagLoop] sets bit 1 of [PORTB] (the flag) to
    the negation of the SYNC bit of the value read from [PINB] and keeps
    every other bit; [lamp_on] is 1 exactly when SYNC is low and [dim_on]
    is 1 exactly when DIM is low.  The result does not depend on the
    previous values of the three locals. *)
Theorem flagLoop_follows_sync (pinb : Z) (s : flag_state) :
  let s' := flagLoop_body pinb s in
  Z.testbit (flag_PORTB s') 1 = negb (Z.testbit pinb 2) /\
  (forall i, i <> 1 ->
     Z.testbit (flag_PORTB s') i = Z.testbit (flag_PORTB s) i) /\
  lamp_on s' = Z.b2z (negb (Z.testbit pinb 2)) /\
  dim_on s' = Z.b2z (negb (Z.testbit pinb 0)) /\
  pin_status s' = pinb /\
  (forall a b c, flagLoop_body pinb (mkFlag a b c (flag_PORTB s)) = s').
Proof.
  cbv zeta; unfold flagLoop_body.
  rewrite (land_pow2_testbit pinb 2 : (Z.land pinb SYNCPIN =? 0) = _).
  rewrite (land_pow2_testbit pinb 0 : (Z.land pinb RXPIN =? 0) = _).
  change (Z.of_nat 2) with 2; change (Z.of_nat 0) with 0.
  destruct (Z.testbit pinb 2), (Z.testbit pinb 0);
    cbn [negb Z.b2z flag_PORTB lamp_on dim_on pin_status Z.eqb];
    rewrite ?portb_tx_low_bits, ?portb_tx_high_bits;
    repeat split; auto;
    intros i Hi; rewrite ?portb_tx_low_bits, ?portb_tx_high_bits;
    destruct (Z.eqb_spec i 1); auto; contradiction.
Qed.

Lemma flagLoop_follows_sync_witness :
  Z.testbit (flag_PORTB (flagLoop_body 0x19 (mkFlag 0 0 0 PULLUPS))) 0 =
  Z.testbit PULLUPS 0.
Proof.
  destruct (flagLoop_follows_sync 0x19 (mkFlag 0 0 0 PULLUPS))
    as (_ & H & _).
  apply H; discriminate.
Defined.

Lemma portb_tx_absorb (x : Z) :
  portb_tx_high (portb_tx_high x) = portb_tx_high x /\
  portb_tx_high (portb_tx_low x) = portb_tx_high x /\
  portb_tx_low (portb_tx_high x) = portb_tx_low x /\
  portb_tx_low (portb_tx_low x) = portb_tx_low x.
Proof.
  repeat split; apply Z.bits_inj'; intros i _;
    repeat (rewrite portb_tx_low_bits || rewrite portb_tx_high_bits);
    destruct (i =? 1); reflexivity.
Qed.

Lemma flagLoop_body_absorb (p q : Z) (s : flag_state) :
  flagLoop_body p (flagLoop_body q s) = flagLoop_body p s.
Proof.
  destruct (portb_tx_absorb (flag_PORTB s)) as (A1 & A2 & A3 & A4).
  unfold flagLoop_body.
  destruct (Z.land p SYNCPIN =? 0), (Z.land q SYNCPIN =? 0);
    cbn [flag_PORTB]; now rewrite ?A1, ?A2, ?A3, ?A4.
Qed.

(** X15. After any number of iterations of [flagLoop] its state is the
    one a single iteration gives from the last value read: the flag output
    has no memory, earlier values of [PINB] leave no trace. *)
Theorem flagLoop_last_read (pins : list Z) (p : Z) (s : flag_state) :
  flagLoop (pins ++ [p]) s = flagLoop_body p s.
Proof.
  revert s; induction pins as [|q pins IH]; intros s; [reflexivity|].
  cbn [app flagLoop]; rewrite IH.
  apply flagLoop_body_absorb.
Qed.

(** ** [main] *)

Lemma operationMode_value (pinb : Z) :
  operationMode pinb =
  mode_value (mode_of_pins (Z.testbit pinb 3) (Z.testbit pinb 4)).
Proof.
  unfold operationMode.
  rewrite <- !Z.land_assoc.
  change (Z.land (Z.lor ID0 ID1) ID0) with (2 ^ Z.of_nat 3).
  change (Z.land (Z.lor ID0 ID1) ID1) with (2 ^ Z.of_nat 4).
  rewrite !land_pow2_testbit.
  change (Z.of_nat 3) with 3; change (Z.of_nat 4) with 4.
  now destruct (Z.testbit pinb 3), (Z.testbit pinb 4).
Qed.

(** X16. The mode that [main] computes is always one of the four of
    [mode_t] and depends on bits 3 and 4 of [PINB] only: ID0 gives bit 0
    and ID1 bit 1 of the mode, so that both pins high (the pull-ups alone)
    select USHIO and both low select DEAD. *)
Theorem operationMode_decodes (pinb : Z) :
  mode_of_value (operationMode pinb) =
    Some (mode_of_pins (Z.testbit pinb 3) (Z.testbit pinb 4)) /\
  operationMode pinb =
    Z.b2z (Z.testbit pinb 3) + 2 * Z.b2z (Z.testbit pinb 4).
Proof.
  rewrite operationMode_value.
  now destruct (Z.testbit pinb 3), (Z.testbit pinb 4).
Qed.

(** X17. With both ID pins low [main] stops in its first [while(1)]: the
    pull-ups are switched off again ([PORTB] is 0), every pin stays an
    input, the timer registers are as they were on entry, interrupts are
    not enabled and no loop function is called. *)
Theorem main_dead_hangs (io : avr_bits) (pinb : Z) (r : avr_regs) :
  Z.testbit pinb 3 = false -> Z.testbit pinb 4 = false ->
  main io pinb r =
    (mkRegs 0 0 0 (TCCR1 r) (TCNT1 r) (GTCCR r) (OCR1A r) (OCR1C r)
            (TIMSK r) (interrupts r), Hang).
Proof.
  intros H3 H4; unfold main.
  rewrite operationMode_value, H3, H4; now destruct r.
Qed.

Lemma main_dead_hangs_witness :
  main (mkBits 7 6 6 7 2) 0x07 (mkRegs 1 2 3 4 5 6 7 8 9 false) =
    (mkRegs 0 0 0 4 5 6 7 8 9 false, Hang).
Proof.
  apply (main_dead_hangs (mkBits 7 6 6 7 2) 0x07
           (mkRegs 1 2 3 4 5 6 7 8 9 false)); reflexivity.
Defined.

(** X18. With an ID pin high [main] reaches the loop function of the mode
    with only the TX pin an output, driven low, the pull-ups of the four
    inputs on, the compare registers at 26 in OSRAM mode and at 104
    otherwise, the counter at 0 and interrupts enabled; nothing of this
    depends on the register contents on entry. *)
Theorem main_starts_loop (io : avr_bits) (pinb : Z) (r : avr_regs) :
  Z.testbit pinb 3 = true \/ Z.testbit pinb 4 = true ->
  let m := mode_of_pins (Z.testbit pinb 3) (Z.testbit pinb 4) in
  let r' := fst (main io pinb r) in
  snd (main io pinb r) = loop_of_mode m /\
  snd (main io pinb r) <> Hang /\
  DDRB r' = TXPIN /\ PORTB r' = PULLUPS /\
  Z.testbit (PORTB r') 1 = false /\
  CLKPR r' = 0 /\ TCNT1 r' = 0 /\
  OCR1A r' = (match m with OSRAM => 26 | _ => 104 end) /\
  OCR1C r' = OCR1A r' /\
  interrupts r' = true /\
  (forall r0, main io pinb r0 = main io pinb r).
Proof.
  intros H; cbv zeta; unfold main.
  rewrite operationMode_value.
  destruct r as [a b c d e f g h i j].
  destruct (Z.testbit pinb 3), (Z.testbit pinb 4);
    try (destruct H; discriminate);
    repeat split; try discriminate; intros [a0 b0 c0 d0 e0 f0 g0 h0 i0 j0];
    reflexivity.
Qed.

Lemma main_starts_loop_witness :
  snd (main (mkBits 7 6 6 7 2) 0x1D (mkRegs 1 2 3 4 5 6 7 8 9 false)) =
    UshioLoop /\
  OCR1A (fst (main (mkBits 7 6 6 7 2) 0x15
                   (mkRegs 1 2 3 4 5 6 7 8 9 false))) = 26.
Proof.
  split.
  - apply (main_starts_loop (mkBits 7 6 6 7 2) 0x1D
             (mkRegs 1 2 3 4 5 6 7 8 9 false)); left; reflexivity.
  - apply (main_starts_loop (mkBits 7 6 6 7 2) 0x15
             (mkRegs 1 2 3 4 5 6 7 8 9 false)); right; reflexivity.
Defined.

(** ** Two commands in a row *)

Lemma table_answers_both :
  forallb (fun j =>
    forallb (fun q1 =>
      forallb (fun q2 =>
        existsb (fun d => answers_both (after_idle j) q1 q2 d)
                [0; 1; 2; 3]%nat)
        ushioQuery) ushioQuery) idle_phases = true.
Proof. vm_compute; reflexivity. Qed.

(** X19. From power-on, after the line has been high for one or more
    iterations, two queries of the table sent one directly after the other
    are both answered, in their order: the first reply starts at most three
    iterations after the first query ends, while the second query is still
    coming in, and the second reply follows the first at once, or after one
    frame time for each byte by which the second query is longer than the
    first reply. *)
Theorem two_commands_answered_in_order (q1 q2 : ushioQuery_t) (k m : nat) :
  In q1 ushioQuery -> In q2 ushioQuery -> (1 <= k)%nat ->
  let r := ushioLoop (repeat 1 k ++ frames (query_bytes q1) ++
                      frames (query_bytes q2) ++ repeat 1 (300 + m))
                     ushioLoop_init in
  let g := (44 * (length (query_bytes q2) - length (reply_bytes q1)))%nat in
  exists d e : nat, (d <= 3)%nat /\
    snd r = repeat 1 (k + length (frames (query_bytes q1)) + d) ++
            frames (reply_bytes q1) ++ repeat 1 g ++
            frames (reply_bytes q2) ++ repeat 1 e /\
    quiet (fst r).
Proof.
  intros Hq1 Hq2 Hk; cbv zeta.
  destruct (after_idle_cases k Hk) as (j & Hj & E).
  pose proof table_answers_both as T.
  rewrite forallb_forall in T; specialize (T j Hj).
  rewrite forallb_forall in T; specialize (T q1 Hq1).
  rewrite forallb_forall in T; specialize (T q2 Hq2).
  apply existsb_exists in T as (d & Hd & A).
  unfold answers_both in A; cbv zeta in A.
  apply andb_true_iff in A as [A1 A2].
  apply list_eqb_eq in A1; apply quietb_quiet in A2.
  rewrite <- E in A1, A2.
  destruct (idle_out k) as [O1 _].
  set (c1 := frames (query_bytes q1)) in *.
  set (c2 := frames (query_bytes q2)) in *.
  replace (repeat 1 k ++ c1 ++ c2 ++ repeat 1 (300 + m))
    with (repeat 1 k ++ (c1 ++ c2 ++ repeat 1 300) ++ repeat 1 m)
    by (now rewrite (repeat_app 1 300 m), <- !app_assoc).
  destruct (ushioLoop_app (repeat 1 k)
              ((c1 ++ c2 ++ repeat 1 300) ++ repeat 1 m) ushioLoop_init)
    as [-> ->].
  fold (after_idle k); rewrite O1.
  destruct (ushioLoop_app (c1 ++ c2 ++ repeat 1 300) (repeat 1 m)
              (after_idle k)) as [-> ->].
  destruct (quiet_loop (repeat 1 m) _ (highs_high m) A2) as [Q1 Q2].
  rewrite Q1, A1, repeat_length.
  eexists d, _; split; [cbn [In] in Hd; lia|].
  split; [|exact Q2].
  rewrite <- !app_assoc, <- (repeat_app 1 _ m).
  rewrite (app_assoc (repeat 1 k)), <- (repeat_app 1 k).
  rewrite Nat.add_assoc; reflexivity.
Qed.

Lemma two_commands_answered_in_order_witness :
  exists d e : nat, (d <= 3)%nat /\
    snd (ushioLoop (repeat 1 2 ++ frames [0x4C; 0x46; 0x0D] ++
                    frames [0x4C; 0x45; 0x0D] ++ repeat 1 300)
                   ushioLoop_init) =
      repeat 1 (2 + 132 + d) ++ frames [0x41; 0x0D] ++ repeat 1 44 ++
      frames [0x41; 0x0D] ++ repeat 1 e /\
    quiet (fst (ushioLoop (repeat 1 2 ++ frames [0x4C; 0x46; 0x0D] ++
                           frames [0x4C; 0x45; 0x0D] ++ repeat 1 300)
                          ushioLoop_init)).
Proof.
  apply (two_commands_answered_in_order
           (mkQuery 3 [0x4C; 0x46; 0x0D; 0; 0] 2 [0x41; 0x0D; 0; 0; 0])
           (mkQuery 3 [0x4C; 0x45; 0x0D; 0; 0] 2 [0x41; 0x0D; 0; 0; 0])
           2 0); [cbn; auto|cbn; auto 6|lia].
Defined.

(** ** The receive side does not depend on the transmit side *)

Lemma rx_view_idem (st : loop_state) : rx_view (rx_view st) = rx_view st.
Proof. now destruct st. Qed.

Lemma sample_rx_view (l : Z) (st : loop_state) :
  rx_view (sample l st) = rx_view (sample l (rx_view st)).
Proof. now destruct st. Qed.

Lemma timers_rx_view (st : loop_state) :
  rx_view (timers st) = rx_view (timers (rx_view st)).
Proof.
  destruct st as [a b c d e f g h i j k t m n o p q r].
  unfold timers, rx_view, rx_part; state_simpl; cbn [Z.eqb].
  destruct (e =? 0); state_simpl; cbn [Z.eqb]; state_simpl;
    destruct (j =? 0); state_simpl; cbn [Z.eqb]; state_simpl;
    destruct (t =? 0); reflexivity.
Qed.

Lemma rx_step_rx_view (st : loop_state) :
  rx_view (rx_step st) = rx_view (rx_step (rx_view st)).
Proof.
  destruct st as [a b c d e f g h i j k t m n o p q r].
  unfold rx_step, rx_view, rx_part; state_simpl; cbn [Z.eqb].
  destruct (e =? 0); [|reflexivity].
  destruct c; cbn [uartState_eqb andb]; state_simpl.
  - destruct ((b =? 0) && (a =? 1)); reflexivity.
  - destruct (b =? 0); [|reflexivity]. destruct (t =? 0); reflexivity.
  - destruct (b =? 0); state_simpl;
      destruct (u8 (Z.shiftl f 1) =? 0); reflexivity.
  - reflexivity.
  - reflexivity.
Qed.

Lemma tx_step_rx_view (st : loop_state) : rx_view (tx_step st) = rx_view st.
Proof.
  destruct st as [a b c d e f g h i j k t m n o p q r].
  unfold tx_step, rx_view, rx_part; state_simpl.
  destruct (j =? 0); [|reflexivity].
  destruct h; cbn [uartState_eqb]; state_simpl; try reflexivity.
  destruct (Z.land (load p r) k =? 0); state_simpl;
    destruct (u8 (Z.shiftl k 1) =? 0); reflexivity.
Qed.

Lemma tx_schedule_rx_view (st : loop_state) :
  rx_view (tx_schedule st) = rx_view st.
Proof.
  destruct st as [a b c d e f g h i j k t m n o p q r].
  unfold tx_schedule, rx_view, rx_part; state_simpl.
  destruct h; cbn [uartState_eqb]; try reflexivity.
  destruct (r <? q); reflexivity.
Qed.

Lemma reply_loop_rx_view (rd : list Z) (n : nat) : forall j st log,
  rx_view (fst (reply_loop rd j n st log)) = rx_view st.
Proof.
  induction n as [|n IH]; intros j st log; cbn [reply_loop fst]; auto.
  rewrite IH; now destruct st.
Qed.

Lemma append_reply_rx_view (q : ushioQuery_t) (st : loop_state) :
  rx_view (fst (append_reply q st)) = rx_view st.
Proof.
  unfold append_reply.
  destruct (UARTTXMASK >? uartTxWrite st + rLength q); auto.
  apply reply_loop_rx_view.
Qed.

Lemma query_loop_rx_view tbl : forall f (st : loop_state),
  fst (query_loop tbl f st) = fst (query_loop tbl f (rx_view st)) /\
  rx_view (fst (snd (query_loop tbl f st))) = rx_view st /\
  rx_view (fst (snd (query_loop tbl f (rx_view st)))) = rx_view st.
Proof.
  induction tbl as [|q tbl IH]; intros f st; cbn [query_loop].
  - cbn [fst snd]; rewrite rx_view_idem; auto.
  - change (uartRxWrite (rx_view st)) with (uartRxWrite st).
    change (uartRxBuffer (rx_view st)) with (uartRxBuffer st).
    destruct (uartRxWrite st >=? qLength q); [|apply IH].
    destruct (Z.land _ 1 =? 0); [|apply IH].
    cbn [fst snd].
    rewrite !append_reply_rx_view, rx_view_idem; auto.
Qed.

Lemma clear_rx_rx_view (st : loop_state) :
  rx_view (clear_rx st) = clear_rx (rx_view st).
Proof. now destruct st. Qed.

Lemma rx_view_timeout (s1 s2 : loop_state) :
  rx_view s1 = rx_view s2 -> rxTimeout s1 = rxTimeout s2.
Proof.
  intros E; change (rxTimeout (rx_view s1) = rxTimeout (rx_view s2)).
  now rewrite E.
Qed.

Lemma matcher_rx_view tbl (st : loop_state) :
  rx_view (matcher_on tbl st) = rx_view (matcher_on tbl (rx_view st)).
Proof.
  unfold matcher_on, matcher_log.
  change (uartRxWrite (rx_view st)) with (uartRxWrite st).
  change (uartRxState (rx_view st)) with (uartRxState st).
  destruct (uartState_eqb (uartRxState st) IDLE && (uartRxWrite st >? 0));
    [|cbn [fst]; now rewrite rx_view_idem].
  destruct (query_loop_rx_view tbl 0 st) as (F & V1 & V2).
  destruct (query_loop tbl 0 st) as [f1 [s1 l1]].
  destruct (query_loop tbl 0 (rx_view st)) as [f2 [s2 l2]].
  cbn [fst snd] in *; subst f2.
  assert (V : rx_view s1 = rx_view s2) by congruence.
  rewrite (rx_view_timeout _ _ V).
  destruct ((f1 =? 0) || (Z.land f1 2 =? 0) || (rxTimeout s2 =? 0));
    cbn [fst]; [rewrite !clear_rx_rx_view|]; now rewrite V.
Qed.

Lemma body_rx_view (p : Z) (st : loop_state) :
  rx_view (ushioLoop_body p st) = rx_view (ushioLoop_body p (rx_view st)).
Proof.
  unfold ushioLoop_body, matcher.
  rewrite matcher_rx_view, tx_schedule_rx_view, tx_step_rx_view.
  rewrite rx_step_rx_view, timers_rx_view, sample_rx_view.
  rewrite <- timers_rx_view, <- rx_step_rx_view.
  rewrite <- (tx_step_rx_view (rx_step _)), <- (tx_schedule_rx_view (tx_step _)).
  now rewrite <- matcher_rx_view.
Qed.

(** X20. The variables of the receive side (the framer's state, tick,
    samples, parity and bit mask, the receive buffer, its write cursor and
    the timeout) after any run of the loop are determined by their values
    before it and by the levels read on RXD: two states that agree on them
    still agree after the same input, whatever the transmit side holds or
    is sending.  Bytes that arrive while a reply leaves are received like
    any others. *)
Theorem receive_side_ignores_transmit (pins : list Z) (st st' : loop_state) :
  rx_view st = rx_view st' ->
  let s := fst (ushioLoop pins st) in
  let s' := fst (ushioLoop pins st') in
  rx_view s = rx_view s' /\
  uartRxState s = uartRxState s' /\ rx_queued s = rx_queued s' /\
  uartRxBuffer s = uartRxBuffer s' /\ uartRxWrite s = uartRxWrite s' /\
  rxTimeout s = rxTimeout s'.
Proof.
  intros E; cbv zeta.
  assert (V : rx_view (fst (ushioLoop pins st)) =
              rx_view (fst (ushioLoop pins st'))).
  { revert st st' E; induction pins as [|p pins IH]; intros st st' E;
      [exact E|].
    cbn [ushioLoop].
    specialize (IH (ushioLoop_body p st) (ushioLoop_body p st')).
    destruct (ushioLoop pins (ushioLoop_body p st)).
    destruct (ushioLoop pins (ushioLoop_body p st')).
    cbn [fst] in *; apply IH.
    now rewrite body_rx_view, E, <- body_rx_view. }
  split; [exact V|].
  set (s := fst (ushioLoop pins st)) in *.
  set (s' := fst (ushioLoop pins st')) in *.
  change (uartRxState (rx_view s) = uartRxState (rx_view s') /\
          rx_queued (rx_view s) = rx_queued (rx_view s') /\
          uartRxBuffer (rx_view s) = uartRxBuffer (rx_view s') /\
          uartRxWrite (rx_view s) = uartRxWrite (rx_view s') /\
          rxTimeout (rx_view s) = rxTimeout (rx_view s')).
  now rewrite V.
Qed.

Lemma receive_side_ignores_transmit_witness :
  rx_queued (fst (ushioLoop (1 :: wire_frame 0x4C)
                            (tx_loaded [0x41; 0x0D]))) =
  rx_queued (fst (ushioLoop (1 :: wire_frame 0x4C) ushioLoop_init)).
Proof.
  apply (receive_side_ignores_transmit (1 :: wire_frame 0x4C)
           (tx_loaded [0x41; 0x0D]) ushioLoop_init); reflexivity.
Defined.

(** ** Replies that are not sent *)

(** X21. When the buffered bytes are a query of the table and the test of
    line 280 finds no space for the reply, the matcher consumes the query
    all the same: the receive queue is cleared and nothing else changes, so
    that query is never answered. *)
Theorem reply_dropped_without_room (q : ushioQuery_t) (st : loop_state) :
  In q ushioQuery ->
  uartRxState st = IDLE ->
  rx_queued st = query_bytes q ->
  tx_has_space st q = false ->
  matcher st = clear_rx st /\
  tx_queued (matcher st) = tx_queued st /\
  uartTxBuffer (matcher st) = uartTxBuffer st /\
  uartTxWrite (matcher st) = uartTxWrite st /\
  uartRxWrite (matcher st) = 0.
Proof.
  intros Hin Hs Hq Hroom.
  destruct (table_first_match q st Hin Hq) as (W & l1 & l2 & E & Hno & Hm).
  assert (Hr : 0 < qLength q).
  { unfold ushioQuery in Hin; cbn [In] in Hin.
    destruct Hin as [<-|[<-|[<-|[<-|[<-|[]]]]]]; cbn; lia. }
  assert (M : matcher st = clear_rx st).
  { unfold matcher, matcher_on; rewrite E.
    rewrite matcher_log_first by (auto; lia); cbn [fst].
    unfold append_reply; unfold tx_has_space in Hroom; now rewrite Hroom. }
  rewrite M, tx_queued_clear_rx; repeat split; now destruct st.
Qed.

Lemma reply_dropped_without_room_witness :
  matcher (set_uartTxWrite 12 st_cmd_50) =
  clear_rx (set_uartTxWrite 12 st_cmd_50).
Proof.
  apply (reply_dropped_without_room
           (mkQuery 2 [0x50; 0x0D; 0; 0; 0] 3 [0x50; 0x46; 0x0D; 0; 0])
           (set_uartTxWrite 12 st_cmd_50)); try reflexivity.
  cbn; auto.
Defined.

Lemma short_answers_four :
  forallb (fun j =>
    forallb (fun q1 => forallb (fun q2 => forallb (fun q3 =>
    forallb (fun q4 => forallb (fun q5 =>
      existsb (fun d => answers_four (after_idle j) [q1; q2; q3; q4; q5] d)
              [0; 1; 2; 3]%nat)
    short_queries) short_queries) short_queries) short_queries)
    short_queries) idle_phases = true.
Proof. vm_compute; reflexivity. Qed.

Lemma in_short_queries (q : ushioQuery_t) :
  In q ushioQuery -> qLength q = 2 -> In q short_queries.
Proof.
  intros H L; apply filter_In; split; [exact H|now apply Z.eqb_eq].
Qed.

(** X22. From power-on, after the line has been high for one or more
    iterations, five two-byte queries of the table sent without a pause get
    four replies only: the replies to the first four leave back to back and
    the fifth query is consumed without an answer, because the write cursor
    of the transmit queue, which is reset only when the queue has drained,
    has reached 12 by then. *)
Theorem fifth_reply_is_dropped (q1 q2 q3 q4 q5 : ushioQuery_t) (k m : nat) :
  Forall (fun q => In q ushioQuery /\ qLength q = 2) [q1; q2; q3; q4; q5] ->
  (1 <= k)%nat ->
  let r := ushioLoop
             (repeat 1 k ++
              frames (flat_map query_bytes [q1; q2; q3; q4; q5]) ++
              repeat 1 (200 + m)) ushioLoop_init in
  exists d e : nat, (d <= 3)%nat /\
    snd r = repeat 1 (k + 88 + d) ++
            frames (flat_map reply_bytes [q1; q2; q3; q4]) ++
            repeat 1 e /\
    quiet (fst r).
Proof.
  intros Hq Hk; cbv zeta.
  assert (S : Forall (fun q => In q short_queries) [q1; q2; q3; q4; q5]).
  { eapply Forall_impl; [|exact Hq].
    intros q [H1 H2]; now apply in_short_queries. }
  apply Forall_cons_iff in S as [S1 S].
  apply Forall_cons_iff in S as [S2 S].
  apply Forall_cons_iff in S as [S3 S].
  apply Forall_cons_iff in S as [S4 S].
  apply Forall_cons_iff in S as [S5 _].
  destruct (after_idle_cases k Hk) as (j & Hj & E).
  pose proof short_answers_four as T.
  rewrite forallb_forall in T; specialize (T j Hj).
  rewrite forallb_forall in T; specialize (T q1 S1).
  rewrite forallb_forall in T; specialize (T q2 S2).
  rewrite forallb_forall in T; specialize (T q3 S3).
  rewrite forallb_forall in T; specialize (T q4 S4).
  rewrite forallb_forall in T; specialize (T q5 S5).
  apply existsb_exists in T as (d & Hd & A).
  unfold answers_four in A; cbv zeta in A.
  apply andb_true_iff in A as [A1 A2].
  apply list_eqb_eq in A1; apply quietb_quiet in A2.
  rewrite <- E in A1, A2.
  change (firstn 4 [q1; q2; q3; q4; q5]) with [q1; q2; q3; q4] in A1.
  destruct (idle_out k) as [O1 _].
  set (c := frames (flat_map query_bytes [q1; q2; q3; q4; q5])) in *.
  set (rp := frames (flat_map reply_bytes [q1; q2; q3; q4])) in *.
  replace (repeat 1 k ++ c ++ repeat 1 (200 + m))
    with (repeat 1 k ++ (c ++ repeat 1 200) ++ repeat 1 m)
    by (now rewrite (repeat_app 1 200 m), <- !app_assoc).
  destruct (ushioLoop_app (repeat 1 k) ((c ++ repeat 1 200) ++ repeat 1 m)
              ushioLoop_init) as [-> ->].
  fold (after_idle k); rewrite O1.
  destruct (ushioLoop_app (c ++ repeat 1 200) (repeat 1 m) (after_idle k))
    as [-> ->].
  destruct (quiet_loop (repeat 1 m) _ (highs_high m) A2) as [Q1 Q2].
  rewrite Q1, A1, repeat_length.
  eexists d, _; split; [cbn [In] in Hd; lia|].
  split; [|exact Q2].
  rewrite <- !app_assoc, <- (repeat_app 1 _ m).
  rewrite (app_assoc (repeat 1 k)), <- (repeat_app 1 k).
  rewrite Nat.add_assoc; reflexivity.
Qed.

Lemma fifth_reply_is_dropped_witness :
  exists d e : nat, (d <= 3)%nat /\
    snd (ushioLoop
           (repeat 1 1 ++
            frames [0x50; 0x0D; 0x50; 0x0D; 0x50; 0x0D; 0x50; 0x0D;
                    0x50; 0x0D] ++ repeat 1 200) ushioLoop_init) =
      repeat 1 (1 + 88 + d) ++
      frames [0x50; 0x46; 0x0D; 0x50; 0x46; 0x0D; 0x50; 0x46; 0x0D;
              0x50; 0x46; 0x0D] ++ repeat 1 e /\
    quiet (fst (ushioLoop
                  (repeat 1 1 ++
                   frames [0x50; 0x0D; 0x50; 0x0D; 0x50; 0x0D; 0x50; 0x0D;
                           0x50; 0x0D] ++ repeat 1 200) ushioLoop_init)).
Proof.
  apply (fifth_reply_is_dropped
           (mkQuery 2 [0x50; 0x0D; 0; 0; 0] 3 [0x50; 0x46; 0x0D; 0; 0])
           (mkQuery 2 [0x50; 0x0D; 0; 0; 0] 3 [0x50; 0x46; 0x0D; 0; 0])
           (mkQuery 2 [0x50; 0x0D; 0; 0; 0] 3 [0x50; 0x46; 0x0D; 0; 0])
           (mkQuery 2 [0x50; 0x0D; 0; 0; 0] 3 [0x50; 0x46; 0x0D; 0; 0])
           (mkQuery 2 [0x50; 0x0D; 0; 0; 0] 3 [0x50; 0x46; 0x0D; 0; 0])
           1 0); [|lia].
  repeat (apply Forall_cons;
          [split; [right; right; left; reflexivity|reflexivity]|]).
  apply Forall_nil.
Defined.

(** ** Silence empties the receive queue *)

Lemma rx_view_fields (s1 s2 : loop_state) :
  rx_view s1 = rx_view s2 ->
  uartRxState s1 = uartRxState s2 /\ rxTick s1 = rxTick s2 /\
  uartRxWrite s1 = uartRxWrite s2 /\ rxTimeout s1 = rxTimeout s2 /\
  uartRxBuffer s1 = uartRxBuffer s2.
Proof.
  intros E.
  change (uartRxState (rx_view s1) = uartRxState (rx_view s2) /\
          rxTick (rx_view s1) = rxTick (rx_view s2) /\
          uartRxWrite (rx_view s1) = uartRxWrite (rx_view s2) /\
          rxTimeout (rx_view s1) = rxTimeout (rx_view s2) /\
          uartRxBuffer (rx_view s1) = uartRxBuffer (rx_view s2)).
  now rewrite E.
Qed.

(** What a matcher step does to the receive side: it either empties the
    queue and stops the timeout or leaves both alone, and it leaves them
    alone with bytes queued in IDLE only while the timeout runs. *)
Lemma matcher_outcome tbl (st : loop_state) :
  uartRxState (matcher_on tbl st) = uartRxState st /\
  rxTick (matcher_on tbl st) = rxTick st /\
  ((uartRxWrite (matcher_on tbl st) = 0 /\ rxTimeout (matcher_on tbl st) = 0)
   \/
   (uartRxWrite (matcher_on tbl st) = uartRxWrite st /\
    rxTimeout (matcher_on tbl st) = rxTimeout st /\
    (uartRxState st = IDLE -> uartRxWrite st > 0 -> rxTimeout st <> 0))).
Proof.
  unfold matcher_on, matcher_log.
  destruct (uartState_eqb (uartRxState st) IDLE && (uartRxWrite st >? 0))
    eqn:A.
  - destruct (query_loop_rx_view tbl 0 st) as (_ & V & _).
    destruct (query_loop tbl 0 st) as [f [s1 l1]]; cbn [fst snd] in *.
    destruct (rx_view_fields _ _ V) as (F1 & F2 & F3 & F4 & _).
    destruct ((f =? 0) || (Z.land f 2 =? 0) || (rxTimeout s1 =? 0)) eqn:C;
      cbn [fst].
    + split; [now destruct s1|split; [now destruct s1|left]].
      now destruct s1.
    + repeat split; auto; right; repeat split; auto.
      intros _ _.
      apply orb_false_iff in C as [_ C]; apply Z.eqb_neq in C; congruence.
  - cbn [fst]; repeat split; auto; right; repeat split; auto.
    intros Hs Hw; rewrite Hs in A; cbn [uartState_eqb andb] in A.
    rewrite Z.gtb_ltb in A; apply Z.ltb_ge in A; lia.
Qed.

Lemma rx_idle_framer (p : Z) (st : loop_state) :
  rxd_high p -> uartRxState st = IDLE -> rxTick st = 0 ->
  uartRxState (rx_framer p st) = IDLE /\ rxTick (rx_framer p st) = 0 /\
  uartRxWrite (rx_framer p st) = uartRxWrite st /\
  rxTimeout (rx_framer p st) =
    (if rxTimeout st =? 0 then 0 else rxTimeout st - 1).
Proof.
  destruct st as [a b c d e f g h i j k t m n o q u r].
  unfold rxd_high; state_simpl.
  intros Hp -> ->; apply Z.eqb_neq in Hp.
  unfold rx_framer, sample, timers; state_simpl.
  change (0 =? 0) with true; cbv iota; state_simpl.
  destruct (j =? 0); state_simpl; destruct (t =? 0) eqn:T; state_simpl;
    unfold rx_step; state_simpl; change (0 =? 0) with true; cbv iota;
    cbn [uartState_eqb andb]; rewrite Hp; cbn [andb]; state_simpl;
    repeat split; auto; now apply Z.eqb_eq in T.
Qed.

Lemma rx_idle_step (p : Z) (st : loop_state) :
  rxd_high p -> uartRxState st = IDLE -> rxTick st = 0 ->
  0 <= rxTimeout st -> 0 <= uartRxWrite st ->
  let s' := ushioLoop_body p st in
  uartRxState s' = IDLE /\ rxTick s' = 0 /\
  0 <= rxTimeout s' <= Z.max 0 (rxTimeout st - 1) /\
  0 <= uartRxWrite s' /\
  (uartRxWrite s' = 0 \/ 0 < rxTimeout s').
Proof.
  intros Hp Hs Ht H0 Hw; cbv zeta.
  destruct (rx_idle_framer p st Hp Hs Ht) as (F1 & F2 & F3 & F4).
  set (s1 := tx_schedule (tx_step (rx_framer p st))).
  assert (V : rx_view s1 = rx_view (rx_framer p st)).
  { unfold s1; now rewrite tx_schedule_rx_view, tx_step_rx_view. }
  destruct (rx_view_fields _ _ V) as (V1 & V2 & V3 & V4 & _).
  change (ushioLoop_body p st) with (matcher_on ushioQuery s1).
  destruct (matcher_outcome ushioQuery s1) as (M1 & M2 & M).
  rewrite M1, M2, V1, V2, F1, F2.
  split; [reflexivity|split; [reflexivity|]].
  assert (B : 0 <= rxTimeout s1 <= Z.max 0 (rxTimeout st - 1)).
  { rewrite V4, F4; destruct (Z.eqb_spec (rxTimeout st) 0); lia. }
  destruct M as [[M3 M4]|(M3 & M4 & M5)].
  - rewrite M3, M4; split; [lia|split; [lia|now left]].
  - rewrite M3, M4; split; [exact B|].
    split; [rewrite V3, F3; exact Hw|].
    destruct (Z.eq_dec (uartRxWrite s1) 0) as [W|W]; [now left|right].
    assert (W1 : uartRxWrite s1 > 0) by (rewrite V3, F3 in *; lia).
    specialize (M5 (eq_trans V1 F1) W1); lia.
Qed.

Lemma rx_idle_loop (pins : list Z) : forall st,
  Forall rxd_high pins -> uartRxState st = IDLE -> rxTick st = 0 ->
  0 <= rxTimeout st -> 0 <= uartRxWrite st ->
  (uartRxWrite st = 0 \/ 0 < rxTimeout st \/ (1 <= length pins)%nat) ->
  let s' := fst (ushioLoop pins st) in
  uartRxState s' = IDLE /\ rxTick s' = 0 /\
  0 <= rxTimeout s' <= Z.max 0 (rxTimeout st - Z.of_nat (length pins)) /\
  0 <= uartRxWrite s' /\
  (uartRxWrite s' = 0 \/ 0 < rxTimeout s').
Proof.
  induction pins as [|p pins IH]; intros st Hp Hs Ht H0 Hw Hn; cbv zeta.
  - cbn [ushioLoop fst length]; repeat split; auto; try lia.
    cbn [length] in Hn; lia.
  - apply Forall_cons_iff in Hp as [Hp1 Hp2].
    destruct (rx_idle_step p st Hp1 Hs Ht H0 Hw) as (S1 & S2 & S3 & S4 & S5).
    assert (Hn' : uartRxWrite (ushioLoop_body p st) = 0 \/
                  0 < rxTimeout (ushioLoop_body p st) \/
                  (1 <= length pins)%nat) by lia.
    destruct (IH _ Hp2 S1 S2 (proj1 S3) S4 Hn') as (I1 & I2 & I3 & I4 & I5).
    cbn [ushioLoop length].
    destruct (ushioLoop pins (ushioLoop_body p st)) as [st' out].
    cbn [fst] in *; repeat split; auto; lia.
Qed.

(** X23. With the receive framer IDLE and the line read high from then
    on, the receive queue is empty and the timeout stopped after as many
    iterations as the timeout had left (after one, if it had run out):
    whatever bytes were buffered, a command or a fragment of one, nothing
    of them is left after 50 ms of silence, and the framer is IDLE for the
    next start bit. *)
Theorem silence_empties_receive_queue (pins : list Z) (st : loop_state) :
  Forall rxd_high pins ->
  uartRxState st = IDLE -> rxTick st = 0 ->
  0 <= rxTimeout st -> 0 <= uartRxWrite st ->
  (1 <= length pins)%nat -> rxTimeout st <= Z.of_nat (length pins) ->
  rx_rest (fst (ushioLoop pins st)) /\
  rx_queued (fst (ushioLoop pins st)) = [] /\
  rxTimeout (fst (ushioLoop pins st)) = 0.
Proof.
  intros Hp Hs Ht H0 Hw Hn Hl.
  destruct (rx_idle_loop pins st Hp Hs Ht H0 Hw) as (I1 & I2 & I3 & I4 & I5);
    [lia|].
  assert (T : rxTimeout (fst (ushioLoop pins st)) = 0) by lia.
  assert (W : uartRxWrite (fst (ushioLoop pins st)) = 0) by lia.
  unfold rx_rest, rx_queued; rewrite W; repeat split; auto.
Qed.

Lemma silence_empties_receive_queue_witness :
  rx_queued (fst (ushioLoop (repeat 1 100) st_partial)) = [].
Proof.
  apply (silence_empties_receive_queue (repeat 1 100) st_partial);
    try reflexivity; try (cbn; lia).
  apply Forall_forall; intros p H; apply repeat_spec in H; subst.
  discriminate.
Defined.

(** ** The states in which a transmission starts *)

Lemma matcher_on_erase tbl (st : loop_state) :
  erase_matcher_vars (matcher_on tbl st) = erase_matcher_vars st.
Proof.
  unfold matcher_on, matcher_log.
  destruct (uartState_eqb (uartRxState st) IDLE && (uartRxWrite st >? 0));
    auto.
  pose proof (query_loop_erase tbl 0 st) as Q.
  destruct (query_loop tbl 0 st) as [f [st' log]]; cbn [fst snd] in *.
  destruct ((f =? 0) || (Z.land f 2 =? 0) || (rxTimeout st' =? 0));
    cbn [fst]; now rewrite ?clear_rx_erase.
Qed.

Lemma erase_tx_cursor (s1 s2 : loop_state) :
  erase_matcher_vars s1 = erase_matcher_vars s2 ->
  uartTxState s1 = uartTxState s2 /\ uartTxRead s1 = uartTxRead s2.
Proof.
  destruct s1, s2; unfold erase_matcher_vars; state_simpl.
  intros E; injection E; intros; subst; split; reflexivity.
Qed.

Lemma tx_schedule_idle (st : loop_state) :
  uartTxState (tx_schedule st) = IDLE -> uartTxRead (tx_schedule st) = 0.
Proof.
  destruct st as [a b c d e f g h i j k t m n o p q r].
  unfold tx_schedule; state_simpl.
  destruct h; cbn [uartState_eqb]; state_simpl; try discriminate.
  destruct (r <? q); state_simpl; [discriminate|reflexivity].
Qed.

Lemma body_idle_read (p : Z) (st : loop_state) :
  uartTxState (ushioLoop_body p st) = IDLE ->
  uartTxRead (ushioLoop_body p st) = 0.
Proof.
  unfold ushioLoop_body, matcher.
  destruct (erase_tx_cursor _ _
              (matcher_on_erase ushioQuery
                 (tx_schedule (tx_step (rx_step (timers (sample p st)))))))
    as [-> ->].
  apply tx_schedule_idle.
Qed.

Lemma idle_read_loop (pins : list Z) : forall st,
  (uartTxState st = IDLE -> uartTxRead st = 0) ->
  uartTxState (fst (ushioLoop pins st)) = IDLE ->
  uartTxRead (fst (ushioLoop pins st)) = 0.
Proof.
  induction pins as [|p pins IH]; intros st H; [exact H|].
  cbn [ushioLoop].
  specialize (IH (ushioLoop_body p st) (body_idle_read p st)).
  destruct (ushioLoop pins (ushioLoop_body p st)); exact IH.
Qed.

(** X26. Every state the loop reaches from power-on in which the transmit
    framer is IDLE is a ready one: the line is high, [txTick] is in 0..4,
    the read cursor of the transmit queue is 0 and at most fourteen bytes
    are queued.  A transmission therefore always starts from such a
    state. *)
Theorem tx_idle_is_ready (pins : list Z) :
  let st := fst (ushioLoop pins ushioLoop_init) in
  uartTxState st = IDLE ->
  tx_ready st /\ uartTxWrite st <= 14 /\ txBit st = 1.
Proof.
  cbv zeta; intros Hs.
  pose proof (idle_read_loop pins ushioLoop_init (fun _ => eq_refl) Hs) as Hr.
  destruct (inv_reachable pins)
    as (_ & _ & _ & _ & H5 & H6 & H7 & _ & H9 & _ & _ & _ & H13).
  rewrite Hs in H6, H13; cbn [tx_unread_min tx_level_ok] in H6, H13.
  unfold tx_ready; rewrite Hr in *.
  repeat split; auto; lia.
Qed.

Lemma tx_idle_is_ready_witness : tx_ready st_replying.
Proof.
  apply (tx_idle_is_ready (1 :: firstn 86 (flat_map wire_frame [0x50; 0x0D]))).
  vm_compute; reflexivity.
Defined.
